(** * Codex plugin bridge: a shallow embedding of [codex-plugin-bridge.js]

    The bridge tails Codex session logs, normalises each JSON line into an
    event record, maps the raw event type to Claude-style hook names and
    runs the matching manifest commands.  This development embeds the
    bridge functions as Rocq functions and proves the properties of the
    natural-language specification against them.

    Conventions of the embedding.
    - A JavaScript string is held as the [string] of the bytes of its UTF-8
      encoding.  White space is recognised on those bytes, multi-byte white
      space included.  [Buffer.toString('utf8')] is the identity on bytes
      that are well-formed UTF-8; the replacement of ill-formed bytes is not
      modelled, and a theorem that compares separately decoded reads asks
      for well-formed bytes.
    - A value produced by [JSON.parse] is a [json]; [undefined] is the [None]
      of an [option json].
    - A JavaScript number is a [jsnum]: an exact rational, an infinity or
      NaN.  Rounding to IEEE doubles is not modelled; the overflow of a
      product to an infinity is.
    - [String(v)] and [Number(v)] raise on a value that holds an object
      with a [toString] of its own ([toString_raises]).  [js_toString],
      [js_toNumber] and [buildMatcherText] give the result where the
      conversion returns; the matcher test, the dispatcher and the reaper
      test for the raise first, where the source converts.
    - Built-ins of the JavaScript runtime ([JSON.parse], [RegExp],
      [Date.parse], ...) are the fields of the [Runtime] class; every
      bridge function is parametric in it.  [ref_runtime] is a concrete
      instance used to run the functions on examples.
    - A function that can raise returns an [outcome]; a function that runs
      hook commands returns the list of [HookCall]s it made, in order.
    - The debug logger only appends to a file and swallows its own errors;
      it never influences control flow and is left out. *)

From Stdlib Require Import ZArith QArith Ascii String List Bool Lia.
From stdpp Require Import base strings list gmap.

Set Warnings "-register-all".

Local Open Scope string_scope.
Local Open Scope list_scope.
Local Open Scope Z_scope.

(** ** JavaScript numbers *)

Inductive jsnum : Type :=
| NFin (q : Q)
| NInf (negative : bool)
| NNaN.

Definition num_of_Z (z : Z) : jsnum := NFin (inject_Z z).

(** [Number.isInteger] *)
Definition Number_isInteger (n : jsnum) : bool :=
  match n with
  | NFin q => (Qnum q mod Zpos (Qden q) =? 0)
  | _ => false
  end.

(** [Number.isFinite] on a number *)
Definition Number_isFinite (n : jsnum) : bool :=
  match n with
  | NFin _ => true
  | _ => false
  end.

(** The integer denoted by an integral number. *)
Definition num_to_Z (n : jsnum) : option Z :=
  match n with
  | NFin q => if (Qnum q mod Zpos (Qden q) =? 0) then Some (Qnum q / Zpos (Qden q)) else None
  | _ => None
  end.

(** [a === b] on numbers *)
Definition num_strict_eq (a b : jsnum) : bool :=
  match a, b with
  | NFin p, NFin q => Qeq_bool p q
  | NInf s, NInf t => Bool.eqb s t
  | _, _ => false
  end.

(** [a < b] on numbers (false as soon as one side is NaN) *)
Definition num_lt (a b : jsnum) : bool :=
  match a, b with
  | NFin p, NFin q => negb (Qle_bool q p)
  | NFin _, NInf neg => negb neg
  | NInf neg, NFin _ => neg
  | NInf s, NInf t => s && negb t
  | _, _ => false
  end.

(** [Math.max(a, b)] *)
Definition Math_max (a b : jsnum) : jsnum :=
  match a, b with
  | NNaN, _ | _, NNaN => NNaN
  | _, _ => if num_lt a b then b else a
  end.

(** The largest double is [2^1024 - 2^971]; a result of magnitude
    [2^1024 - 2^970] or more rounds to an infinity. *)
Definition overflow_threshold : Q := inject_Z (2 ^ 1024 - 2 ^ 970).

(** [a * b] for a finite positive constant [b]: the product, or an
    infinity when the product overflows. *)
Definition num_scale (a : jsnum) (k : Z) : jsnum :=
  match a with
  | NFin q =>
      let product := (q * inject_Z k)%Q in
      if Qle_bool overflow_threshold product then NInf false
      else if Qle_bool product (- overflow_threshold) then NInf true
      else NFin product
  | other => other
  end.

(** ** JSON values *)

Inductive json : Type :=
| JNull
| JBool (b : bool)
| JNum (n : jsnum)
| JStr (s : string)
| JArr (items : list json)
| JObj (fields : list (string * json)).

(** The [typeof] operator, on a possibly undefined value. *)
Inductive jstype : Type := TUndefined | TObject | TBoolean | TNumber | TString.

Definition typeof (v : option json) : jstype :=
  match v with
  | None => TUndefined
  | Some JNull => TObject
  | Some (JBool _) => TBoolean
  | Some (JNum _) => TNumber
  | Some (JStr _) => TString
  | Some (JArr _) => TObject
  | Some (JObj _) => TObject
  end.

(** Truthiness: [null], [false], [0], [NaN] and [''] are falsy. *)
Definition truthy (v : json) : bool :=
  match v with
  | JNull => false
  | JBool b => b
  | JNum (NFin q) => negb (Qeq_bool q 0)
  | JNum (NInf _) => true
  | JNum NNaN => false
  | JStr s => negb (String.eqb s "")
  | JArr _ => true
  | JObj _ => true
  end.


(** Own-property lookup in the field list of an object. *)
Fixpoint assoc_get {A : Type} (fields : list (string * A)) (key : string) : option A :=
  match fields with
  | [] => None
  | (k, v) :: rest => if String.eqb k key then Some v else assoc_get rest key
  end.

(** Assignment to a property: an existing key keeps its position. *)
Fixpoint assoc_set {A : Type} (fields : list (string * A)) (key : string) (v : A)
  : list (string * A) :=
  match fields with
  | [] => [(key, v)]
  | (k, old) :: rest =>
      if String.eqb k key then (k, v) :: rest else (k, old) :: assoc_set rest key v
  end.

(** [v.key] for a key that no prototype defines ([type], [payload], [pid],
    [events], ...).  Arrays, strings, numbers and booleans have no such
    property.  On [null] the access raises; every call site below either
    guards against a falsy receiver first or handles [JNull] itself. *)
Definition get_prop (v : json) (key : string) : option json :=
  match v with
  | JObj fields => assoc_get fields key
  | _ => None
  end.

(** [String(v)] raises a [TypeError] instead of returning.  The conversion
    of an object calls its [toString], and an own [toString] of a value
    decoded from JSON is never a function; the conversion of an array
    converts its elements, and so does [join]. *)
Fixpoint toString_raises (v : json) : bool :=
  match v with
  | JObj fields => existsb (fun field => String.eqb (fst field) "toString") fields
  | JArr items => existsb toString_raises items
  | _ => false
  end.

(** [Array.isArray(v) ? v : []] *)
Definition array_or_empty (v : option json) : list json :=
  match v with
  | Some (JArr items) => items
  | _ => []
  end.

(** [v || ''] *)
Definition or_empty (v : option json) : json :=
  match v with
  | Some x => if truthy x then x else JStr ""
  | None => JStr ""
  end.

(** ** Strings *)

Definition newline : ascii := "010"%char.
Definition dquote : ascii := "034"%char.

(** Writes a text that holds double quotes: every apostrophe of [s] stands
    for a double quote. *)
Fixpoint dq (s : string) : string :=
  match s with
  | EmptyString => EmptyString
  | String c rest => String (if Ascii.eqb c "'" then dquote else c) (dq rest)
  end.

(** White space of ECMAScript: the code points that [String.prototype.trim]
    strips and that the class [\s] of a regular expression matches
    (WhiteSpace and LineTerminator).  A text is held as the bytes of its
    UTF-8 encoding, so a white-space character is one, two or three bytes:
    - U+0009 to U+000D and U+0020: one byte;
    - U+00A0: [C2 A0];
    - U+1680: [E1 9A 80];
    - U+2000 to U+200A, U+2028, U+2029, U+202F: [E2 80 80] to [E2 80 8A],
      [E2 80 A8], [E2 80 A9], [E2 80 AF];
    - U+205F: [E2 81 9F];
    - U+3000: [E3 80 80];
    - U+FEFF: [EF BB BF]. *)
Definition is_ws (c : ascii) : bool :=
  let n := nat_of_ascii c in
  ((9 <=? n)%nat && (n <=? 13)%nat) || (n =? 32)%nat.

Definition is_ws2 (c1 c2 : ascii) : bool :=
  (nat_of_ascii c1 =? 194)%nat && (nat_of_ascii c2 =? 160)%nat.

Definition is_ws3 (c1 c2 c3 : ascii) : bool :=
  let n1 := nat_of_ascii c1 in
  let n2 := nat_of_ascii c2 in
  let n3 := nat_of_ascii c3 in
  ((n1 =? 225)%nat && (n2 =? 154)%nat && (n3 =? 128)%nat)
  || ((n1 =? 226)%nat && (n2 =? 128)%nat
      && (((128 <=? n3)%nat && (n3 <=? 138)%nat)
          || (n3 =? 168)%nat || (n3 =? 169)%nat || (n3 =? 175)%nat))
  || ((n1 =? 226)%nat && (n2 =? 129)%nat && (n3 =? 159)%nat)
  || ((n1 =? 227)%nat && (n2 =? 128)%nat && (n3 =? 128)%nat)
  || ((n1 =? 239)%nat && (n2 =? 187)%nat && (n3 =? 191)%nat).

(** The text without the white space at its start. *)
Fixpoint ltrim (s : string) : string :=
  match s with
  | EmptyString => EmptyString
  | String c1 r1 =>
      if is_ws c1 then ltrim r1
      else match r1 with
           | EmptyString => s
           | String c2 r2 =>
               if is_ws2 c1 c2 then ltrim r2
               else match r2 with
                    | EmptyString => s
                    | String c3 r3 => if is_ws3 c1 c2 c3 then ltrim r3 else s
                    end
           end
  end.

(** The text holds white space only. *)
Fixpoint only_ws (s : string) : bool :=
  match s with
  | EmptyString => true
  | String c1 r1 =>
      if is_ws c1 then only_ws r1
      else match r1 with
           | EmptyString => false
           | String c2 r2 =>
               if is_ws2 c1 c2 then only_ws r2
               else match r2 with
                    | EmptyString => false
                    | String c3 r3 => if is_ws3 c1 c2 c3 then only_ws r3 else false
                    end
           end
  end.

(** The text without the white space at its end: it is cut where only
    white space follows. *)
Fixpoint rtrim (s : string) : string :=
  match s with
  | EmptyString => EmptyString
  | String c rest => if only_ws s then EmptyString else String c (rtrim rest)
  end.

(** [lo <= c <= hi] on a byte *)
Definition in_range (lo hi : nat) (c : ascii) : bool :=
  (lo <=? nat_of_ascii c)%nat && (nat_of_ascii c <=? hi)%nat.

(** The second byte that may follow the lead byte [c1] of a sequence of
    three or four bytes: no overlong form, no surrogate, nothing beyond
    U+10FFFF. *)
Definition utf8_second (c1 c2 : ascii) : bool :=
  let n1 := nat_of_ascii c1 in
  if (n1 =? 224)%nat then in_range 160 191 c2
  else if (n1 =? 237)%nat then in_range 128 159 c2
  else if (n1 =? 240)%nat then in_range 144 191 c2
  else if (n1 =? 244)%nat then in_range 128 143 c2
  else in_range 128 191 c2.

(** The bytes are well-formed UTF-8: [Buffer.toString('utf8')] decodes
    them without a replacement character, and encoding the result gives
    the bytes back. *)
Fixpoint utf8_valid (s : string) : bool :=
  match s with
  | EmptyString => true
  | String c1 r1 =>
      if in_range 0 127 c1 then utf8_valid r1
      else match r1 with
           | EmptyString => false
           | String c2 r2 =>
               if in_range 194 223 c1 then in_range 128 191 c2 && utf8_valid r2
               else match r2 with
                    | EmptyString => false
                    | String c3 r3 =>
                        if in_range 224 239 c1
                        then utf8_second c1 c2 && in_range 128 191 c3 && utf8_valid r3
                        else match r3 with
                             | EmptyString => false
                             | String c4 r4 =>
                                 in_range 240 244 c1 && utf8_second c1 c2
                                 && in_range 128 191 c3 && in_range 128 191 c4
                                 && utf8_valid r4
                             end
                    end
           end
  end.

(** [s.trim()] *)
Definition trim (s : string) : string := rtrim (ltrim s).

(** [!s.trim()] *)
Definition is_blank (s : string) : bool := String.eqb (trim s) "".

(** [s.split('\n')]: never empty; a trailing newline yields a final [""]. *)
Fixpoint split_lines (s : string) : list string :=
  match s with
  | EmptyString => [EmptyString]
  | String c rest =>
      if Ascii.eqb c newline then EmptyString :: split_lines rest
      else match split_lines rest with
           | first :: others => String c first :: others
           | [] => [String c EmptyString]
           end
  end.

(** [parts.join(sep)] on strings *)
Fixpoint join (sep : string) (parts : list string) : string :=
  match parts with
  | [] => ""
  | [p] => p
  | p :: rest => p +:+ sep +:+ join sep rest
  end.

(** [lines.pop()]: the last fragment and the fragments before it. *)
Definition pop_last (l : list string) : list string * option string :=
  (removelast l, last l).

Definition has_newline (s : string) : bool :=
  existsb (Ascii.eqb newline) (list_ascii_of_string s).

(** ** The JavaScript runtime interface

    The built-ins the bridge calls.  [JSON_parse] returns [None] where
    [JSON.parse] raises a [SyntaxError]; [RegExp_new] returns [None] where
    the [RegExp] constructor raises; [Date_parse] returns [None] for NaN and
    the epoch milliseconds otherwise; [Date_now k] is what the call of
    [Date.now()] in the [k]-th duplicate check of a run returns. *)

Class Runtime : Type := {
  JSON_parse : string -> option json;
  JSON_stringify : json -> string;
  Number_toString : jsnum -> string;
  String_toNumber : string -> jsnum;
  Date_parse : string -> option Z;
  Date_now : nat -> Z;
  regex : Type;
  RegExp_new : string -> option regex;
  RegExp_test : regex -> string -> bool
}.

(** ** A reference runtime

    A concrete instance of [Runtime], used to evaluate the bridge on
    example inputs.  It implements JSON per RFC 8259 on byte strings,
    decimal number literals, ISO-8601 UTC timestamps and the literal
    fragment of regular expressions. *)

Module Ref.

Definition is_digit (c : ascii) : bool :=
  let n := nat_of_ascii c in (48 <=? n)%nat && (n <=? 57)%nat.

Definition digit_val (c : ascii) : Z := Z.of_nat (nat_of_ascii c) - 48.

Definition is_json_ws (c : ascii) : bool :=
  let n := nat_of_ascii c in
  (n =? 32)%nat || (n =? 9)%nat || (n =? 10)%nat || (n =? 13)%nat.

Fixpoint skip_ws (s : list ascii) : list ascii :=
  match s with
  | c :: rest => if is_json_ws c then skip_ws rest else s
  | [] => []
  end.

(** Reads a run of decimal digits: the accumulated value, how many digits
    were read, and the rest. *)
Fixpoint take_digits (acc : Z) (count : nat) (s : list ascii) : Z * nat * list ascii :=
  match s with
  | c :: rest =>
      if is_digit c then take_digits (10 * acc + digit_val c) (S count) rest
      else (acc, count, s)
  | [] => (acc, count, [])
  end.

(** [mant * 10^e] as an exact rational *)
Definition decimal (mant e : Z) : Q :=
  if 0 <=? e then inject_Z (mant * 10 ^ e) else Qmake mant (Z.to_pos (10 ^ (- e))).

(** An optional exponent part: [e] or [E], an optional sign, digits. *)
Definition take_exponent (s : list ascii) : option (Z * list ascii) :=
  match s with
  | c :: rest =>
      if Ascii.eqb c "e" || Ascii.eqb c "E" then
        let '(neg, rest1) :=
          match rest with
          | "-"%char :: r => (true, r)
          | "+"%char :: r => (false, r)
          | _ => (false, rest)
          end in
        let '(v, n, rest2) := take_digits 0 0 rest1 in
        if (n =? 0)%nat then None else Some (if neg then - v else v, rest2)
      else Some (0, s)
  | [] => Some (0, [])
  end.

(** A JSON number: an optional minus sign, an integer part without
    leading zeros, an optional fraction and an optional exponent. *)
Definition parse_number (s : list ascii) : option (jsnum * list ascii) :=
  let '(neg, s1) :=
    match s with
    | "-"%char :: r => (true, r)
    | _ => (false, s)
    end in
  '(ip, s2) ←
    match s1 with
    | "0"%char :: r => Some (0, r)
    | c :: _ =>
        if is_digit c then let '(v, _, r) := take_digits 0 0 s1 in Some (v, r) else None
    | [] => None
    end;
  '(mant, fdigits, s3) ←
    match s2 with
    | "."%char :: r =>
        let '(v, n, r') := take_digits ip 0 r in
        if (n =? 0)%nat then None else Some (v, n, r')
    | _ => Some (ip, 0%nat, s2)
    end;
  '(e, s4) ← take_exponent s3;
  Some (NFin (decimal (if neg then - mant else mant) (e - Z.of_nat fdigits)), s4).

Definition hex_val (c : ascii) : option Z :=
  let n := Z.of_nat (nat_of_ascii c) in
  if (48 <=? n) && (n <=? 57) then Some (n - 48)
  else if (65 <=? n) && (n <=? 70) then Some (n - 55)
  else if (97 <=? n) && (n <=? 102) then Some (n - 87)
  else None.

Definition byte (z : Z) : ascii := ascii_of_nat (Z.to_nat z).

(** UTF-8 bytes of a code point of the basic plane, most significant byte
    last because the string body is accumulated in reverse. *)
Definition utf8_rev (cp : Z) : list ascii :=
  if cp <? 128 then [byte cp]
  else if cp <? 2048 then [byte (128 + cp mod 64); byte (192 + cp / 64)]
  else [byte (128 + cp mod 64); byte (128 + (cp / 64) mod 64); byte (224 + cp / 4096)].

Definition unescape (c : ascii) : option ascii :=
  if Ascii.eqb c dquote then Some dquote
  else if Ascii.eqb c "\" then Some "\"%char
  else if Ascii.eqb c "/" then Some "/"%char
  else if Ascii.eqb c "b" then Some "008"%char
  else if Ascii.eqb c "f" then Some "012"%char
  else if Ascii.eqb c "n" then Some "010"%char
  else if Ascii.eqb c "r" then Some "013"%char
  else if Ascii.eqb c "t" then Some "009"%char
  else None.

(** The body of a string literal, after the opening quote. *)
Fixpoint parse_string_body (acc : list ascii) (s : list ascii) : option (string * list ascii) :=
  match s with
  | [] => None
  | c :: rest =>
      if Ascii.eqb c dquote then Some (string_of_list_ascii (rev acc), rest)
      else if Ascii.eqb c "\" then
        match rest with
        | "u"%char :: h1 :: h2 :: h3 :: h4 :: rest' =>
            a ← hex_val h1; b ← hex_val h2; c' ← hex_val h3; d ← hex_val h4;
            parse_string_body (utf8_rev (((a * 16 + b) * 16 + c') * 16 + d) ++ acc) rest'
        | e :: rest' =>
            ch ← unescape e; parse_string_body (ch :: acc) rest'
        | [] => None
        end
      else if (nat_of_ascii c <? 32)%nat then None
      else parse_string_body (c :: acc) rest
  end.

Section Containers.
Variable parse_value : list ascii -> option (json * list ascii).

(** The elements of an array, positioned at the start of an element. *)
Fixpoint parse_elements (fuel : nat) (acc : list json) (s : list ascii)
  : option (list json * list ascii) :=
  match fuel with
  | O => None
  | S fuel' =>
      '(v, rest) ← parse_value s;
      match skip_ws rest with
      | ","%char :: rest' => parse_elements fuel' (v :: acc) rest'
      | "]"%char :: rest' => Some (rev (v :: acc), rest')
      | _ => None
      end
  end.

(** The members of an object, positioned before a key.  A repeated key
    overwrites the earlier value and keeps its position. *)
Fixpoint parse_members (fuel : nat) (acc : list (string * json)) (s : list ascii)
  : option (list (string * json) * list ascii) :=
  match fuel with
  | O => None
  | S fuel' =>
      match skip_ws s with
      | "034"%char :: rest =>
          '(key, rest1) ← parse_string_body [] rest;
          match skip_ws rest1 with
          | ":"%char :: rest2 =>
              '(v, rest3) ← parse_value rest2;
              match skip_ws rest3 with
              | ","%char :: rest4 => parse_members fuel' (assoc_set acc key v) rest4
              | "}"%char :: rest4 => Some (assoc_set acc key v, rest4)
              | _ => None
              end
          | _ => None
          end
      | _ => None
      end
  end.
End Containers.

Fixpoint parse_value (fuel : nat) (s : list ascii) : option (json * list ascii) :=
  match fuel with
  | O => None
  | S fuel' =>
      match skip_ws s with
      | "{"%char :: rest =>
          match skip_ws rest with
          | "}"%char :: rest' => Some (JObj [], rest')
          | _ =>
              '(fields, rest') ← parse_members (parse_value fuel') fuel' [] rest;
              Some (JObj fields, rest')
          end
      | "["%char :: rest =>
          match skip_ws rest with
          | "]"%char :: rest' => Some (JArr [], rest')
          | _ =>
              '(items, rest') ← parse_elements (parse_value fuel') fuel' [] rest;
              Some (JArr items, rest')
          end
      | "034"%char :: rest =>
          '(str, rest') ← parse_string_body [] rest; Some (JStr str, rest')
      | "t"%char :: "r"%char :: "u"%char :: "e"%char :: rest => Some (JBool true, rest)
      | "f"%char :: "a"%char :: "l"%char :: "s"%char :: "e"%char :: rest => Some (JBool false, rest)
      | "n"%char :: "u"%char :: "l"%char :: "l"%char :: rest => Some (JNull, rest)
      | other =>
          '(n, rest) ← parse_number other; Some (JNum n, rest)
      end
  end.

(** [JSON.parse(text)]; [None] stands for the [SyntaxError]. *)
Definition JSON_parse (text : string) : option json :=
  let s := list_ascii_of_string text in
  '(v, rest) ← parse_value (S (List.length s)) s;
  match skip_ws rest with
  | [] => Some v
  | _ => None
  end.

(** Decimal digits of a non-negative integer. *)
Fixpoint digits_of (fuel : nat) (n : Z) (acc : string) : string :=
  match fuel with
  | O => acc
  | S fuel' =>
      let acc' := String (byte (48 + n mod 10)) acc in
      if n <? 10 then acc' else digits_of fuel' (n / 10) acc'
  end.

Definition Z_to_string (z : Z) : string :=
  if z <? 0 then "-" +:+ digits_of (S (Z.to_nat (Z.log2 (- z)))) (- z) ""
  else digits_of (S (Z.to_nat (Z.log2 z))) z "".

(** The least [k <= fuel] with [num * 10^k] divisible by [den]. *)
Fixpoint decimal_places (fuel : nat) (k : Z) (num den : Z) : Z :=
  match fuel with
  | O => k
  | S fuel' => if (num * 10 ^ k) mod den =? 0 then k else decimal_places fuel' (k + 1) num den
  end.

Fixpoint pad_zeros (fuel width : nat) (s : string) : string :=
  match fuel with
  | O => s
  | S fuel' => if (String.length s <? width)%nat then pad_zeros fuel' width ("0" +:+ s) else s
  end.

(** [String(n)]: integers and finite decimals in positional notation
    (fractions are cut after 17 places). *)
Definition Number_toString (n : jsnum) : string :=
  match n with
  | NNaN => "NaN"
  | NInf neg => if neg then "-Infinity" else "Infinity"
  | NFin q =>
      let num := Qnum q in
      let den := Zpos (Qden q) in
      if num mod den =? 0 then Z_to_string (num / den)
      else
        let k := decimal_places 17 0 (Z.abs num) den in
        let scaled := Z.abs num * 10 ^ k / den in
        (if num <? 0 then "-" else "") +:+ Z_to_string (scaled / 10 ^ k) +:+ "." +:+
        pad_zeros (Z.to_nat k) (Z.to_nat k) (Z_to_string (scaled mod 10 ^ k))
  end.

Definition hex_digit (z : Z) : ascii :=
  if z <? 10 then byte (48 + z) else byte (87 + z).

(** A string literal as [JSON.stringify] writes it. *)
Fixpoint quote_body (s : string) : string :=
  match s with
  | EmptyString => String dquote ""
  | String c rest =>
      let n := Z.of_nat (nat_of_ascii c) in
      (if Ascii.eqb c dquote then String "\" (String dquote "")
       else if Ascii.eqb c "\" then "\\"
       else if n =? 8 then "\b"
       else if n =? 9 then "\t"
       else if n =? 10 then "\n"
       else if n =? 12 then "\f"
       else if n =? 13 then "\r"
       else if n <? 32 then "\u00" +:+ String (hex_digit (n / 16)) (String (hex_digit (n mod 16)) "")
       else String c "") +:+ quote_body rest
  end.

Definition quote (s : string) : string := String dquote (quote_body s).

(** [JSON.stringify(v)] without indentation. *)
Fixpoint JSON_stringify (v : json) : string :=
  match v with
  | JNull => "null"
  | JBool b => if b then "true" else "false"
  | JNum n => match n with NFin _ => Number_toString n | _ => "null" end
  | JStr s => quote s
  | JArr items => "[" +:+ join "," (map JSON_stringify items) +:+ "]"
  | JObj fields =>
      "{" +:+
      join "," (map (fun kv => match kv with (k, x) => quote k +:+ ":" +:+ JSON_stringify x end)
                    fields) +:+
      "}"
  end.

(** [Number(text)] for decimal literals, [Infinity] and the empty string;
    every other text is NaN. *)
Definition String_toNumber (text : string) : jsnum :=
  let s := list_ascii_of_string (trim text) in
  match s with
  | [] => NFin 0
  | _ =>
      let '(neg, s1) :=
        match s with
        | "-"%char :: r => (true, r)
        | "+"%char :: r => (false, r)
        | _ => (false, s)
        end in
      if String.eqb (string_of_list_ascii s1) "Infinity" then NInf neg
      else
        let '(ip, n1, s2) := take_digits 0 0 s1 in
        let '(mant, n2, s3) :=
          match s2 with
          | "."%char :: r => take_digits ip 0 r
          | _ => (ip, 0%nat, s2)
          end in
        if (n1 + n2 =? 0)%nat then NNaN
        else match take_exponent s3 with
             | Some (e, []) => NFin (decimal (if neg then - mant else mant) (e - Z.of_nat n2))
             | _ => NNaN
             end
  end.

(** Days since 1970-01-01 of a proleptic Gregorian date. *)
Definition days_from_civil (y m d : Z) : Z :=
  let y' := if m <=? 2 then y - 1 else y in
  let era := y' / 400 in
  let yoe := y' - era * 400 in
  let doy := (153 * (if 2 <? m then m - 3 else m + 9) + 2) / 5 + d - 1 in
  let doe := yoe * 365 + yoe / 4 - yoe / 100 + doy in
  era * 146097 + doe - 719468.

Definition days_in_month (y m : Z) : Z :=
  if m =? 2 then
    (if ((y mod 4 =? 0) && negb (y mod 100 =? 0)) || (y mod 400 =? 0) then 29 else 28)
  else if (m =? 4) || (m =? 6) || (m =? 9) || (m =? 11) then 30
  else 31.

(** Exactly [n] decimal digits. *)
Fixpoint fixed_digits (n : nat) (acc : Z) (s : list ascii) : option (Z * list ascii) :=
  match n with
  | O => Some (acc, s)
  | S n' =>
      match s with
      | c :: rest => if is_digit c then fixed_digits n' (10 * acc + digit_val c) rest else None
      | [] => None
      end
  end.

Definition expect (c : ascii) (s : list ascii) : option (list ascii) :=
  match s with
  | c' :: rest => if Ascii.eqb c c' then Some rest else None
  | [] => None
  end.

(** [Date.parse(text)] for [YYYY-MM-DDTHH:MM:SS(.sss)Z]; every other
    text is NaN. *)
Definition Date_parse (text : string) : option Z :=
  '(y, s1) ← fixed_digits 4 0 (list_ascii_of_string text);
  s2 ← expect "-" s1;
  '(m, s3) ← fixed_digits 2 0 s2;
  s4 ← expect "-" s3;
  '(d, s5) ← fixed_digits 2 0 s4;
  s6 ← expect "T" s5;
  '(hh, s7) ← fixed_digits 2 0 s6;
  s8 ← expect ":" s7;
  '(mm, s9) ← fixed_digits 2 0 s8;
  s10 ← expect ":" s9;
  '(ss, s11) ← fixed_digits 2 0 s10;
  '(ms, s12) ←
    match s11 with
    | "."%char :: r => fixed_digits 3 0 r
    | _ => Some (0, s11)
    end;
  match s12 with
  | ["Z"%char] =>
      if (1 <=? m) && (m <=? 12) && (1 <=? d) && (d <=? days_in_month y m) &&
         (hh <=? 23) && (mm <=? 59) && (ss <=? 59)
      then Some ((((days_from_civil y m d * 24 + hh) * 60 + mm) * 60 + ss) * 1000 + ms)
      else None
  | _ => None
  end.

(** Regular expressions of the literal fragment: an optional leading [^],
    literal characters and [.], an optional trailing [$]. *)
Record regex : Type := {
  re_bol : bool;
  re_eol : bool;
  re_body : list (option ascii)
}.

Definition is_meta (c : ascii) : bool :=
  existsb (Ascii.eqb c) (list_ascii_of_string "\^$*+?()[]{}|").

Fixpoint compile_body (s : list ascii) : option (bool * list (option ascii)) :=
  match s with
  | [] => Some (false, [])
  | ["$"%char] => Some (true, [])
  | c :: rest =>
      if is_meta c then None
      else
        '(eol, body) ← compile_body rest;
        Some (eol, (if Ascii.eqb c "." then None else Some c) :: body)
  end.

(** [new RegExp(pattern)]; a pattern outside the fragment is rejected. *)
Definition RegExp_new (pattern : string) : option regex :=
  let s := list_ascii_of_string pattern in
  let '(bol, s1) :=
    match s with
    | "^"%char :: r => (true, r)
    | _ => (false, s)
    end in
  '(eol, body) ← compile_body s1;
  Some {| re_bol := bol; re_eol := eol; re_body := body |}.

Fixpoint match_here (eol : bool) (body : list (option ascii)) (s : list ascii) : bool :=
  match body with
  | [] => if eol then match s with [] => true | _ => false end else true
  | p :: body' =>
      match s with
      | [] => false
      | c :: rest =>
          match p with
          | Some lit => Ascii.eqb lit c
          | None => negb (Ascii.eqb c "010" || Ascii.eqb c "013")
          end && match_here eol body' rest
      end
  end.

Fixpoint search (eol : bool) (body : list (option ascii)) (s : list ascii) : bool :=
  match_here eol body s ||
  match s with
  | [] => false
  | _ :: rest => search eol body rest
  end.

(** [re.test(text)] *)
Definition RegExp_test (re : regex) (text : string) : bool :=
  let s := list_ascii_of_string text in
  if re_bol re then match_here (re_eol re) (re_body re) s
  else search (re_eol re) (re_body re) s.

End Ref.

(** The reference runtime, with a clock that advances one millisecond per
    reading. *)
Definition ref_runtime : Runtime := {|
  JSON_parse := Ref.JSON_parse;
  JSON_stringify := Ref.JSON_stringify;
  Number_toString := Ref.Number_toString;
  String_toNumber := Ref.String_toNumber;
  Date_parse := Ref.Date_parse;
  Date_now := fun k => 1772272800000 + Z.of_nat k;
  regex := Ref.regex;
  RegExp_new := Ref.RegExp_new;
  RegExp_test := Ref.RegExp_test
|}.

(** ** Errors *)

Inductive error : Type :=
| TypeError (msg : string)
| ManifestSyntaxError (path : string)
| FsError (code : string).

Inductive outcome (A : Type) : Type :=
| Ok (a : A)
| Throw (e : error).
Arguments Ok {A} a.
Arguments Throw {A} e.

(** ** Constants *)

Definition BRIDGE_MANIFEST_RELATIVE_PATH : string := "plugins/claude-bridge/manifest.json".
Definition RECENT_EVENT_TTL_MS : Z := 30000.
Definition RECENT_EVENT_MAX : nat := 2000.

Definition CODEX_EVENT_MAP : list (string * list string) :=
  [ ("exec_approval_request", ["PermissionRequest"]);
    ("apply_patch_approval_request", ["PermissionRequest"]);
    ("request_user_input", ["PermissionRequest"]);
    ("task_started", ["TaskStarted"]);
    ("session_configured", ["TaskStarted"]);
    ("task_complete", ["TaskComplete"; "Stop"]);
    ("error", ["ToolError"]);
    ("warning", ["ToolError"]);
    ("turn_aborted", ["ToolError"]);
    ("stream_error", ["ToolError"]);
    ("mcp_startup_complete", ["MCPStartupComplete"]) ].

(** [CODEX_EVENT_MAP] is an object literal, so [CODEX_EVENT_MAP[rawType]]
    also finds the properties every object inherits from
    [Object.prototype]: eleven functions and the [__proto__] accessor.  All
    of them are truthy and none is iterable. *)
Definition Object_prototype_keys : list string :=
  [ "constructor"; "__defineGetter__"; "__defineSetter__"; "hasOwnProperty";
    "__lookupGetter__"; "__lookupSetter__"; "isPrototypeOf"; "propertyIsEnumerable";
    "toString"; "valueOf"; "__proto__"; "toLocaleString" ].

Inductive map_entry : Type :=
| Own (names : list string)
| Inherited
| Absent.

(** [CODEX_EVENT_MAP[rawType]] *)
Definition CODEX_EVENT_MAP_get (rawType : string) : map_entry :=
  match assoc_get CODEX_EVENT_MAP rawType with
  | Some names => Own names
  | None => if existsb (String.eqb rawType) Object_prototype_keys then Inherited else Absent
  end.

(** ** Records *)

Record Manifest : Type := {
  manifestPath : string;
  plugins : list json;
  topHooks : list json
}.

Record EventRecord : Type := {
  rawType : string;
  payload : json;
  eventTimestampSec : option Z
}.

(** One call of [runHookCommand]: the rule it comes from, the shell
    command, the timeout handed to [spawnSync] and the context
    environment. *)
Record HookCall : Type := {
  hc_eventName : string;
  hc_command : string;
  hc_timeoutSec : jsnum;
  hc_timeoutMs : jsnum;
  hc_env : list (string * json)
}.

Record Options : Type := {
  codexHome : string;
  projectRoot : option string;
  since : option jsnum;
  emitStop : bool
}.

(** The per-run state object.  [recentEvents] is a [Map]: its entries are
    kept in insertion order and setting an existing key keeps its place. *)
Record State : Type := {
  offsets : gmap string nat;
  remainders : gmap string string;
  recentEvents : list (string * Z);
  sinceEpochSec : option jsnum
}.

(** What a run has done so far: how many duplicate checks have read the
    clock, and the hook commands run, oldest first. *)
Record World : Type := {
  checks : nat;
  hooks : list HookCall
}.

(** The session files as [collectSessionFiles] lists them, each with the
    bytes it holds when it is processed. *)
Definition Files : Type := list (string * string).

(** ** The bridge *)

Section Bridge.
Context `{R : Runtime}.

(** [String(v)], as [JSON.parse] and [new RegExp] apply it to an argument
    that is not a string: the text that the conversion returns when it
    returns, that is when [toString_raises v] is [false]. *)
Fixpoint js_toString (v : json) : string :=
  match v with
  | JNull => "null"
  | JBool b => if b then "true" else "false"
  | JNum n => Number_toString n
  | JStr s => s
  | JArr items =>
      join "," (map (fun x => match x with JNull => "" | _ => js_toString x end) items)
  | JObj _ => "[object Object]"
  end.

(** [items.join(sep)]: [null] elements print as the empty string.  The
    call raises when the conversion of an element does. *)
Definition array_join (sep : string) (items : list json) : string :=
  join sep (map (fun x => match x with JNull => "" | _ => js_toString x end) items).

(** [v && typeof v === 'object'] *)
Definition is_object (v : option json) : bool :=
  match v with
  | Some (JArr _) | Some (JObj _) => true
  | _ => false
  end.

(** The own enumerable properties that [{...v}] copies. *)
Definition spread (v : json) : list (string * json) :=
  match v with
  | JObj fields => fields
  | JArr items => imap (fun i x => (Ref.Z_to_string (Z.of_nat i), x)) items
  | _ => []
  end.

(** *** Manifest *)

(** [readJsonIfExists]: [file] is the content of the file, [None] when it
    does not exist.  The result [JNull] stands for [null]. *)
Definition readJsonIfExists (filePath : string) (file : option string) : outcome json :=
  match file with
  | None => Ok JNull
  | Some raw =>
      if is_blank raw then Ok JNull
      else match JSON_parse raw with
           | Some v => Ok v
           | None => Throw (ManifestSyntaxError filePath)
           end
  end.

Definition readManifest (codexHome : string) (file : option string) : outcome Manifest :=
  let manifestPath := codexHome +:+ "/" +:+ BRIDGE_MANIFEST_RELATIVE_PATH in
  match readJsonIfExists manifestPath file with
  | Throw e => Throw e
  | Ok manifest =>
      if negb (is_object (Some manifest)) then
        Ok {| manifestPath := manifestPath; plugins := []; topHooks := [] |}
      else
        Ok {| manifestPath := manifestPath;
              plugins := array_or_empty (get_prop manifest "plugins");
              topHooks := array_or_empty (get_prop manifest "topHooks") |}
  end.

(** The empty rule set. *)
Definition emptyManifest (codexHome : string) : Manifest :=
  {| manifestPath := codexHome +:+ "/" +:+ BRIDGE_MANIFEST_RELATIVE_PATH;
     plugins := [];
     topHooks := [] |}.

(** *** Event normalizer *)

Definition parseEventTimestampSec (parsed : json) : option Z :=
  if negb (is_object (Some parsed)) then None
  else match get_prop parsed "timestamp" with
       | Some (JStr ts) =>
           if is_blank ts then None
           else match Date_parse ts with
                | Some ms => Some (ms / 1000)
                | None => None
                end
       | _ => None
       end.

(** The text that [JSON.parse(payload.arguments || '{}')] decodes. *)
Definition arguments_text (payload : json) : string :=
  match get_prop payload "arguments" with
  | Some a => if truthy a then js_toString a else "{}"
  | None => "{}"
  end.

Definition parseCodexEvent (line : string) : option EventRecord :=
  match JSON_parse line with
  | None => None
  | Some parsed =>
      if negb (is_object (Some parsed)) then None
      else
        match get_prop parsed "type" with
        | Some (JStr type) =>
            if String.eqb type "event_msg" then
              match get_prop parsed "payload" with
              | Some payload =>
                  if negb (is_object (Some payload)) then None
                  else match get_prop payload "type" with
                       | Some (JStr rawType) =>
                           Some {| rawType := rawType;
                                   payload := payload;
                                   eventTimestampSec := parseEventTimestampSec parsed |}
                       | _ => None
                       end
              | None => None
              end
            else if String.eqb type "response_item" then
              match get_prop parsed "payload" with
              | Some payload =>
                  if negb (is_object (Some payload)) then None
                  else
                    match get_prop payload "type" with
                    | Some (JStr ptype) =>
                        if negb (String.eqb ptype "function_call") then None
                        else
                          let toolName :=
                            match get_prop payload "name" with
                            | Some (JStr name) => name
                            | _ => ""
                            end in
                          if String.eqb toolName "" then None
                          else
                            match JSON_parse (arguments_text payload) with
                            | None => None
                            | Some toolArgs =>
                                if negb (is_object (Some toolArgs)) then None
                                else
                                  match get_prop toolArgs "sandbox_permissions" with
                                  | Some (JStr perm) =>
                                      if negb (String.eqb perm "require_escalated") then None
                                      else
                                        let rawType :=
                                          if String.eqb toolName "apply_patch"
                                          then "apply_patch_approval_request"
                                          else "exec_approval_request" in
                                        let call_id :=
                                          match get_prop payload "call_id" with
                                          | Some (JStr id) => id
                                          | _ => ""
                                          end in
                                        Some {| rawType := rawType;
                                                payload :=
                                                  JObj (assoc_set
                                                          (assoc_set (spread toolArgs) "tool_name"
                                                                     (JStr toolName))
                                                          "call_id" (JStr call_id));
                                                eventTimestampSec := parseEventTimestampSec parsed |}
                                  | _ => None
                                  end
                            end
                    | _ => None
                    end
              | None => None
              end
            else None
        | _ => None
        end
  end.

(** *** Event name mapper *)

(** [[...(CODEX_EVENT_MAP[rawType] || []), rawType]]: spreading an
    inherited property raises a [TypeError]. *)
Definition mapEventNames (rawType : string) : outcome (list string) :=
  match CODEX_EVENT_MAP_get rawType with
  | Own mapped => Ok (mapped ++ [rawType])
  | Absent => Ok [rawType]
  | Inherited => Throw (TypeError "mapped is not iterable")
  end.

(** *** Rule matching *)

Definition string_part (v : option json) : list string :=
  match v with
  | Some (JStr s) => [s]
  | _ => []
  end.

(** [buildMatcherText], where it returns: [executeEvent] tests
    [buildMatcherText_raises] before it takes the text. *)
Definition buildMatcherText (eventRecord : EventRecord) : string :=
  let payload := if truthy (payload eventRecord) then payload eventRecord else JObj [] in
  let parts :=
    [rawType eventRecord]
    ++ string_part (get_prop payload "tool_name")
    ++ match get_prop payload "command" with
       | Some (JArr items) => [array_join " " items]
       | Some (JStr s) => [s]
       | _ => []
       end
    ++ string_part (get_prop payload "reason")
    ++ string_part (get_prop payload "justification")
    ++ string_part (get_prop payload "call_id") in
  join " " parts.

(** [buildMatcherText] raises a [TypeError] instead of returning: the
    command is an array and [payload.command.join(' ')] raises. *)
Definition buildMatcherText_raises (eventRecord : EventRecord) : bool :=
  let payload := if truthy (payload eventRecord) then payload eventRecord else JObj [] in
  match get_prop payload "command" with
  | Some (JArr items) => existsb toString_raises items
  | _ => false
  end.

(** The [catch] covers the conversion of the matcher to a pattern as well
    as its compilation. *)
Definition matchesRule (matcher : option json) (text : string) : bool :=
  match matcher with
  | None => true
  | Some m =>
      if negb (truthy m) then true
      else if toString_raises m then false
      else match RegExp_new (js_toString m) with
           | Some re => RegExp_test re text
           | None => false
           end
  end.

Definition safeStringValue (value : option json) : string :=
  match value with
  | None | Some JNull => ""
  | Some (JStr s) => s
  | Some (JNum n) => Number_toString n
  | Some (JBool b) => if b then "true" else "false"
  | Some other => JSON_stringify other
  end.

(** *** Hook dispatcher *)

Definition getAllHookSources (manifest : Manifest) : list json :=
  plugins manifest ++ topHooks manifest.

(** The body of the loop over [commands]. *)
Definition commandCalls (source : json) (eventName : string) (names : list string)
    (matcherText : string) (eventRecord : EventRecord) (projectRoot : option string)
    (commandDef : json) : list HookCall :=
  if negb (truthy commandDef) then []
  else match get_prop commandDef "command" with
       | Some (JStr command) =>
           if is_blank command then []
           else
             let timeout :=
               match get_prop commandDef "timeout" with
               | Some (JNum n) => if Number_isFinite n then n else NFin 10
               | _ => NFin 10
               end in
             [ {| hc_eventName := eventName;
                  hc_command := command;
                  hc_timeoutSec := timeout;
                  hc_timeoutMs := num_scale (Math_max (NFin 1) timeout) 1000;
                  hc_env :=
                    [ ("CLAUDE_PLUGIN_ROOT", or_empty (get_prop source "rootPath"));
                      ("CLAUDE_PROJECT_ROOT", JStr (default "" projectRoot));
                      ("CRS_EVENT_TYPE", JStr (default "" (head names)));
                      ("CRS_EVENT_RAW_TYPE", JStr (rawType eventRecord));
                      ("CRS_EVENT_MATCHER_TEXT", JStr matcherText);
                      ("CRS_EVENT_REASON",
                       JStr (safeStringValue (get_prop (payload eventRecord) "reason")));
                      ("CRS_CALL_ID",
                       JStr (safeStringValue (get_prop (payload eventRecord) "call_id"))) ] |} ]
       | _ => []
       end.

(** The body of the loop over [events]. *)
Definition ruleCalls (source : json) (names : list string) (matcherText : string)
    (eventRecord : EventRecord) (projectRoot : option string) (eventDef : json)
  : list HookCall :=
  if negb (truthy eventDef) then []
  else match get_prop eventDef "eventName" with
       | Some (JStr eventName) =>
           if negb (existsb (String.eqb eventName) names) then []
           else if negb (matchesRule (get_prop eventDef "matcher") matcherText) then []
           else
             flat_map (commandCalls source eventName names matcherText eventRecord projectRoot)
                      (array_or_empty (get_prop eventDef "commands"))
       | _ => []
       end.

(** The loop over [sources]: reading [source.events] of a [null] source
    raises, after the calls of the sources before it were made. *)
Fixpoint sourceCalls (names : list string) (matcherText : string)
    (eventRecord : EventRecord) (projectRoot : option string) (sources : list json)
  : list HookCall * outcome unit :=
  match sources with
  | [] => ([], Ok tt)
  | JNull :: _ => ([], Throw (TypeError "Cannot read properties of null (reading 'events')"))
  | source :: rest =>
      let calls :=
        flat_map (ruleCalls source names matcherText eventRecord projectRoot)
                 (array_or_empty (get_prop source "events")) in
      let '(calls', result) := sourceCalls names matcherText eventRecord projectRoot rest in
      (calls ++ calls', result)
  end.

Definition executeEvent (manifest : Manifest) (eventRecord : EventRecord)
    (projectRoot : option string) : list HookCall * outcome unit :=
  match mapEventNames (rawType eventRecord) with
  | Throw e => ([], Throw e)
  | Ok names =>
      if buildMatcherText_raises eventRecord
      then ([], Throw (TypeError "Cannot convert object to primitive value"))
      else sourceCalls names (buildMatcherText eventRecord) eventRecord projectRoot
                       (getAllHookSources manifest)
  end.

(** *** Dedup cache *)

(** The eviction loop over [recentEvents.entries()].  Every entry the
    loop visits before it breaks is deleted, so what remains is a suffix
    of the entries; [recentEvents.size] is the length of that suffix. *)
Fixpoint trimRecentEvents (nowMs : Z) (entries : list (string * Z)) : list (string * Z) :=
  match entries with
  | [] => []
  | (key, seenAt) :: rest =>
      if (RECENT_EVENT_TTL_MS <? nowMs - seenAt)
         || (RECENT_EVENT_MAX <? List.length entries)%nat
      then trimRecentEvents nowMs rest
      else entries
  end.

(** [recordAndCheckDuplicateEvent], given the reading [nowMs] of
    [Date.now()]: the verdict and the cache afterwards. *)
Definition recordAndCheckDuplicateEvent (recentEvents : list (string * Z)) (nowMs : Z)
    (signature : string) : bool * list (string * Z) :=
  let lastSeenMs := assoc_get recentEvents signature in
  let recentEvents1 := assoc_set recentEvents signature nowMs in
  let recentEvents2 :=
    if (RECENT_EVENT_MAX <? List.length recentEvents1)%nat
    then trimRecentEvents nowMs recentEvents1
    else recentEvents1 in
  (match lastSeenMs with
   | Some seen => nowMs - seen <=? RECENT_EVENT_TTL_MS
   | None => false
   end,
   recentEvents2).

(** A run of duplicate checks, each with its signature and the clock
    reading it takes: the cache afterwards. *)
Definition runChecks (recentEvents : list (string * Z)) (checks : list (string * Z))
  : list (string * Z) :=
  fold_left (fun recent c => snd (recordAndCheckDuplicateEvent recent (snd c) (fst c)))
            checks recentEvents.

(** *** Incremental tailer *)

Definition primeSessionOffsets (files : list string) (state : State) : State :=
  fold_left
    (fun st filePath =>
       match offsets st !! filePath with
       | Some _ => st
       | None =>
           {| offsets := <[filePath := 0%nat]> (offsets st);
              remainders := <[filePath := ""]> (remainders st);
              recentEvents := recentEvents st;
              sinceEpochSec := sinceEpochSec st |}
       end)
    files state.

(** The replay floor: the event is older than [--since]. *)
Definition beforeSince (since : option jsnum) (timestampSec : option Z) : bool :=
  match since, timestampSec with
  | Some s, Some t => Number_isFinite s && num_lt (NFin 0) s && num_lt (num_of_Z t) s
  | _, _ => false
  end.

(** What the body of the loop over [lines] decides for one line. *)
Inductive line_decision : Type :=
| SkipBlank
| SkipUnparsed
| SkipOld
| Deduped
| Dispatched (eventRecord : EventRecord).

(** The body of the loop over [lines]. *)
Definition processLine (manifest : Manifest) (projectRoot : option string) (line : string)
    (state : State) (world : World) : line_decision * outcome unit * State * World :=
  if is_blank line then (SkipBlank, Ok tt, state, world)
  else match parseCodexEvent line with
       | None => (SkipUnparsed, Ok tt, state, world)
       | Some eventRecord =>
           if beforeSince (sinceEpochSec state) (eventTimestampSec eventRecord)
           then (SkipOld, Ok tt, state, world)
           else
             let '(duplicate, recent) :=
               recordAndCheckDuplicateEvent (recentEvents state) (Date_now (checks world)) line in
             let state' :=
               {| offsets := offsets state;
                  remainders := remainders state;
                  recentEvents := recent;
                  sinceEpochSec := sinceEpochSec state |} in
             if duplicate
             then (Deduped, Ok tt, state',
                   {| checks := S (checks world); hooks := hooks world |})
             else
               let '(calls, result) := executeEvent manifest eventRecord projectRoot in
               (Dispatched eventRecord, result, state',
                {| checks := S (checks world); hooks := hooks world ++ calls |})
       end.

(** The loop over [lines]; an exception ends it.  The decisions taken
    are returned in order. *)
Fixpoint processLines (manifest : Manifest) (projectRoot : option string)
    (lines : list string) (state : State) (world : World)
  : list line_decision * outcome unit * State * World :=
  match lines with
  | [] => ([], Ok tt, state, world)
  | line :: rest =>
      match processLine manifest projectRoot line state world with
      | (d, Ok _, state', world') =>
          let '(ds, result, state'', world'') :=
            processLines manifest projectRoot rest state' world' in
          (d :: ds, result, state'', world'')
      | (d, Throw e, state', world') => ([d], Throw e, state', world')
      end
  end.

(** The offset and remainder the pass starts from: the stored ones, or
    [0] and [''] when the file is shorter than the stored offset. *)
Definition startPosition (filePath : string) (size : nat) (state : State) : nat * string :=
  let currentOffset := default 0%nat (offsets state !! filePath) in
  let remainder := default "" (remainders state !! filePath) in
  if (size <? currentOffset)%nat then (0%nat, "") else (currentOffset, remainder).

(** [processSessionFile]: [content] is what the file holds; its length
    is [stat.size]. *)
Definition processSessionFile (filePath : string) (content : string) (state : State)
    (manifest : Manifest) (projectRoot : option string) (world : World)
  : list line_decision * outcome unit * State * World :=
  let size := String.length content in
  let '(currentOffset, remainder) := startPosition filePath size state in
  if (size =? currentOffset)%nat then ([], Ok tt, state, world)
  else
    let chunkSize := (size - currentOffset)%nat in
    let buffer := substring currentOffset chunkSize content in
    let text := remainder +:+ buffer in
    let '(lines, popped) := pop_last (split_lines text) in
    let remainder' := default "" popped in
    match processLines manifest projectRoot lines state world with
    | (ds, Ok _, state', world') =>
        (ds, Ok tt,
         {| offsets := <[filePath := size]> (offsets state');
            remainders := <[filePath := remainder']> (remainders state');
            recentEvents := recentEvents state';
            sinceEpochSec := sinceEpochSec state' |},
         world')
    | failed => failed
    end.

(** The loop over the session files of one pass. *)
Fixpoint processFiles (files : Files) (state : State) (manifest : Manifest)
    (projectRoot : option string) (world : World) : outcome unit * State * World :=
  match files with
  | [] => (Ok tt, state, world)
  | (filePath, content) :: rest =>
      match processSessionFile filePath content state manifest projectRoot world with
      | (_, Ok _, state', world') => processFiles rest state' manifest projectRoot world'
      | (_, Throw e, state', world') => (Throw e, state', world')
      end
  end.

(** *** Run loop *)

Definition initialState (options : Options) : State :=
  {| offsets := ∅; remainders := ∅; recentEvents := []; sinceEpochSec := since options |}.

Definition initialWorld : World := {| checks := 0; hooks := [] |}.

(** The event that [--emit-stop] synthesises. *)
Definition stopEvent : EventRecord :=
  {| rawType := "Stop"; payload := JObj []; eventTimestampSec := None |}.

(** [runOnce]: [manifestFile] is the content of the manifest file, if it
    exists, and [files] what [collectSessionFiles] returns.  The result
    is how the run ended and the hook commands it ran. *)
Definition runOnce (options : Options) (manifestFile : option string) (files : Files)
  : outcome unit * list HookCall :=
  match readManifest (codexHome options) manifestFile with
  | Throw e => (Throw e, [])
  | Ok manifest =>
      match processFiles files (initialState options) manifest (projectRoot options)
                         initialWorld with
      | (Throw e, _, world) => (Throw e, hooks world)
      | (Ok _, _, world) =>
          if emitStop options then
            let '(calls, result) := executeEvent manifest stopEvent (projectRoot options) in
            (result, hooks world ++ calls)
          else (Ok tt, hooks world)
      end
  end.

End Bridge.

(** ** Watch lock manager *)

(** How [writeLock] ended: the exclusive create succeeded, it failed with
    [EEXIST], or it failed with another error. *)
Inductive write_result : Type :=
| Written
| AlreadyExists
| WriteFailed (e : error).

(** The file-system calls on the lock path, as the lock manager makes
    them. *)
Inductive lock_op : Type :=
| OpWrite
| OpRead
| OpUnlink.

Definition is_write (op : lock_op) : bool :=
  match op with
  | OpWrite => true
  | _ => false
  end.

(** The environment of the lock manager: the lock file and the process
    table, in a world [W] that other processes share.  Each operation
    returns what the bridge observes and the world afterwards; nothing is
    assumed about what other processes do in between.
    - [fs_writeLock payload]: [mkdirSync], [openSync(lockPath, 'wx')],
      [writeFileSync], [closeSync];
    - [fs_readLock]: [readFileSync(lockPath)], [None] when it raises;
    - [fs_unlinkLock]: [unlinkSync(lockPath)], [false] when it raises;
    - [proc_kill0 pid]: whether [process.kill(pid, 0)] returns normally;
    - [reap]: what [cleanupCompetingWatchers] does to the world. *)
Class LockEnv (W : Type) : Type := {
  fs_writeLock : string -> W -> write_result * W;
  fs_readLock : W -> option string * W;
  fs_unlinkLock : W -> bool * W;
  proc_kill0 : Z -> W -> bool;
  reap : W -> W
}.

(** A world without other actors: one lock file and a fixed set of live
    processes. *)
Record SeqWorld : Type := {
  lockFile : option string;
  liveProcesses : list Z
}.

Definition seq_env : LockEnv SeqWorld := {|
  fs_writeLock := fun payload w =>
    match lockFile w with
    | Some _ => (AlreadyExists, w)
    | None => (Written, {| lockFile := Some payload; liveProcesses := liveProcesses w |})
    end;
  fs_readLock := fun w => (lockFile w, w);
  fs_unlinkLock := fun w =>
    match lockFile w with
    | Some _ => (true, {| lockFile := None; liveProcesses := liveProcesses w |})
    | None => (false, w)
    end;
  proc_kill0 := fun pid w => existsb (Z.eqb pid) (liveProcesses w);
  reap := fun w => w
|}.

(** A world in which another process re-creates the lock file right after
    it is unlinked. *)
Definition racing_env : LockEnv SeqWorld := {|
  fs_writeLock := fun payload w =>
    match lockFile w with
    | Some _ => (AlreadyExists, w)
    | None => (Written, {| lockFile := Some payload; liveProcesses := liveProcesses w |})
    end;
  fs_readLock := fun w => (lockFile w, w);
  fs_unlinkLock := fun w =>
    match lockFile w with
    | Some _ => (true, {| lockFile := Some (dq "{'pid':4242}"); liveProcesses := liveProcesses w |})
    | None => (false, w)
    end;
  proc_kill0 := fun pid w => existsb (Z.eqb pid) (liveProcesses w);
  reap := fun w => w
|}.

Section WatchLock.
Context `{R : Runtime}.
Context {W : Type} `{E : LockEnv W}.

(** [process.pid] *)
Variable pid : Z.
(** [new Date().toISOString()] at acquisition *)
Variable createdAt : string.

Definition isProcessAlive (p : option jsnum) (w : W) : bool :=
  match p with
  | Some n =>
      if negb (Number_isInteger n) || negb (num_lt (NFin 0) n) then false
      else match num_to_Z n with
           | Some z => proc_kill0 z w
           | None => false
           end
  | None => false
  end.

(** [parseWatchLockPid]: the recorded PID, [None] for [null]. *)
Definition parseWatchLockPid (rawText : string) : option jsnum :=
  if is_blank rawText then None
  else
    let fallback :=
      let numeric := String_toNumber (trim rawText) in
      if Number_isInteger numeric then Some numeric else None in
    match JSON_parse rawText with
    | None => fallback
    | Some JNull => fallback
    | Some parsed =>
        match get_prop parsed "pid" with
        | Some (JNum n) => if Number_isInteger n then Some n else None
        | _ => None
        end
    end.

Definition lockPayload : string :=
  JSON_stringify (JObj [("pid", JNum (num_of_Z pid)); ("createdAt", JStr createdAt)]).

(** [acquireWatchLock]: [Ok true] when the release handle is returned,
    [Ok false] when [null] is, with the world afterwards and the calls
    made on the lock path. *)
Definition acquireWatchLock (w : W) : outcome bool * W * list lock_op :=
  match fs_writeLock lockPayload w with
  | (Written, w1) => (Ok true, w1, [OpWrite])
  | (WriteFailed e, w1) => (Throw e, w1, [OpWrite])
  | (AlreadyExists, w1) =>
      let '(existingRaw, w2) := fs_readLock w1 in
      let stale :=
        match existingRaw with
        | Some raw => negb (isProcessAlive (parseWatchLockPid raw) w2)
        | None => true
        end in
      if negb stale then (Ok false, w2, [OpWrite; OpRead])
      else
        let '(unlinked, w3) := fs_unlinkLock w2 in
        if negb unlinked then (Ok false, w3, [OpWrite; OpRead; OpUnlink])
        else match fs_writeLock lockPayload w3 with
             | (Written, w4) => (Ok true, w4, [OpWrite; OpRead; OpUnlink; OpWrite])
             | (_, w4) => (Ok false, w4, [OpWrite; OpRead; OpUnlink; OpWrite])
             end
  end.

(** The release handle; [released] is the flag the closure keeps. *)
Definition releaseWatchLock (released : bool) (w : W) : bool * W * list lock_op :=
  if released then (true, w, [])
  else
    let '(existingRaw, w1) := fs_readLock w in
    match existingRaw with
    | Some raw =>
        match parseWatchLockPid raw with
        | Some existingPid =>
            if num_strict_eq existingPid (num_of_Z pid) then
              let '(_, w2) := fs_unlinkLock w1 in (true, w2, [OpRead; OpUnlink])
            else (true, w1, [OpRead])
        | None => (true, w1, [OpRead])
        end
    | None => (true, w1, [OpRead])
    end.

(** The passes of the watch loop; an exception ends it. *)
Fixpoint watchPasses (passes : list Files) (state : State) (manifest : Manifest)
    (projectRoot : option string) (world : World) : outcome unit * State * World :=
  match passes with
  | [] => (Ok tt, state, world)
  | files :: rest =>
      match processFiles files (primeSessionOffsets (map fst files) state) manifest
                         projectRoot world with
      | (Ok _, state', world') => watchPasses rest state' manifest projectRoot world'
      | failed => failed
      end
  end.

(** What [watch] reports: whether the loop was entered, how it ended, the
    hook commands run, the calls on the lock path and the world. *)
Record WatchRun : Type := {
  entered : bool;
  result : outcome unit;
  commands : list HookCall;
  lockOps : list lock_op;
  finalWorld : W
}.

(** [watch]: [initialFiles] is what [collectSessionFiles] returns before
    the loop and [passes] what it returns in each iteration, up to and
    including the one after which the stop flag is found set. *)
Definition watch (options : Options) (manifestFile : option string) (initialFiles : Files)
    (passes : list Files) (w : W) : WatchRun :=
  match readManifest (codexHome options) manifestFile with
  | Throw e =>
      {| entered := false; result := Throw e; commands := []; lockOps := []; finalWorld := w |}
  | Ok manifest =>
      let w0 := reap w in
      match acquireWatchLock w0 with
      | (Throw e, w1, ops) =>
          {| entered := false; result := Throw e; commands := []; lockOps := ops;
             finalWorld := w1 |}
      | (Ok false, w1, ops) =>
          {| entered := false; result := Ok tt; commands := []; lockOps := ops;
             finalWorld := w1 |}
      | (Ok true, w1, ops) =>
          let state := primeSessionOffsets (map fst initialFiles) (initialState options) in
          let '(res, _, world) :=
            watchPasses passes state manifest (projectRoot options) initialWorld in
          let '(_, w2, ops') := releaseWatchLock false w1 in
          {| entered := true; result := res; commands := hooks world;
             lockOps := ops ++ ops'; finalWorld := w2 |}
      end
  end.

End WatchLock.

(** ** The eviction policy in the words of the specification

    Entries older than the TTL are purged first; if the cache is still
    over capacity, entries are evicted in insertion order until it is not. *)

Definition purgeThenEvict (nowMs : Z) (entries : list (string * Z)) : list (string * Z) :=
  let fresh :=
    List.filter (fun e => negb (RECENT_EVENT_TTL_MS <? nowMs - snd e)) entries in
  skipn (List.length fresh - RECENT_EVENT_MAX) fresh.

Definition recordAndCheckDuplicateEvent_spec (recentEvents : list (string * Z)) (nowMs : Z)
    (signature : string) : bool * list (string * Z) :=
  let lastSeenMs := assoc_get recentEvents signature in
  let recentEvents1 := assoc_set recentEvents signature nowMs in
  (match lastSeenMs with
   | Some seen => nowMs - seen <=? RECENT_EVENT_TTL_MS
   | None => false
   end,
   if (RECENT_EVENT_MAX <? List.length recentEvents1)%nat
   then purgeThenEvict nowMs recentEvents1
   else recentEvents1).

(** ** Example inputs

    The manifest and the session log of the repository's bridge test, and
    variations of them. *)

Module Fixture.

Definition home : string := "/home/u/.codex".

Definition sessionPath : string := "/home/u/.codex/sessions/2026/02/28/session.jsonl".

(** One rule, for [TaskComplete], with one command. *)
Definition manifestOneRule : string :=
  dq "{'version':1,'projectRoot':null,'plugins':[{'id':'home:demo','sourceType':'home','name':'demo','rootPath':'/home/u/.codex/plugins/claude-home/demo','events':[{'eventName':'TaskComplete','matcher':null,'commands':[{'command':'echo X >> out.log','timeout':10}]}]}],'topHooks':[]}".

(** A rule for [Stop] and a rule for [TaskComplete]. *)
Definition manifestStopAndComplete : string :=
  dq "{'version':1,'projectRoot':null,'plugins':[{'id':'home:demo-stop-plugin','sourceType':'home','name':'demo-stop-plugin','rootPath':'/home/u/.codex/plugins/claude-home/demo-stop-plugin','events':[{'eventName':'Stop','matcher':null,'commands':[{'command':'echo stop >> stop.log','timeout':10}]},{'eventName':'TaskComplete','matcher':null,'commands':[{'command':'echo complete >> task-complete.log','timeout':10}]}]}],'topHooks':[]}".

Definition taskStarted : string :=
  dq "{'type':'event_msg','timestamp':'2026-02-28T10:00:00.000Z','payload':{'type':'task_started'}}".

Definition agentMessage1 : string :=
  dq "{'type':'event_msg','timestamp':'2026-02-28T10:00:01.000Z','payload':{'type':'agent_message'}}".

Definition agentMessage2 : string :=
  dq "{'type':'event_msg','timestamp':'2026-02-28T10:00:02.000Z','payload':{'type':'agent_message'}}".

Definition taskComplete : string :=
  dq "{'type':'event_msg','timestamp':'2026-02-28T10:00:03.000Z','payload':{'type':'task_complete'}}".

(** A tool call that asks for escalation. *)
Definition escalatedCall : string :=
  dq "{'type':'response_item','timestamp':'2026-02-28T10:00:04.000Z','payload':{'type':'function_call','name':'shell','arguments':'{\'command\':[\'rm\',\'-rf\',\'/tmp\'],\'sandbox_permissions\':\'require_escalated\',\'justification\':\'cleanup\'}','call_id':'call_1'}}".

Definition nl : string := String newline "".

Definition sessionLog : string :=
  taskStarted +:+ nl +:+ agentMessage1 +:+ nl +:+ agentMessage2 +:+ nl +:+ taskComplete +:+ nl.

Definition onceOptions : Options :=
  {| codexHome := home; projectRoot := None; since := None; emitStop := false |}.

(** [--emit-stop] with a replay floor later than every record of the log. *)
Definition stopOptions : Options :=
  {| codexHome := home; projectRoot := None; since := Some (num_of_Z 1772272900);
     emitStop := true |}.

(** A lock file written by process 4242. *)
Definition foreignLock : string :=
  dq "{'pid':4242,'createdAt':'2026-02-28T09:00:00.000Z'}".

Definition heldByLive : SeqWorld :=
  {| lockFile := Some foreignLock; liveProcesses := [4242; 7] |}.

Definition heldByDead : SeqWorld :=
  {| lockFile := Some foreignLock; liveProcesses := [7] |}.

Definition lockTime : string := "2026-02-28T10:00:00.000Z".

(** Two thousand distinct signatures. *)
Definition signature (i : nat) : string := "line-" +:+ Ref.Z_to_string (Z.of_nat i).

Definition otherLines (seenAt : Z) : list (string * Z) :=
  map (fun i => (signature i, seenAt)) (seq 0 2000).

(** The line [first] is checked at time 0, then two thousand other lines
    at time 1. *)
Definition burst : list (string * Z) := ("first", 0) :: otherLines 1.

(** The line [first] is checked at time 0, then 1999 other lines at time
    0; at time 100000 the line [first] is seen again. *)
Definition agedCache : list (string * Z) :=
  runChecks [] (("first", 0) :: firstn 1999 (otherLines 0) ++ [("first", 100000)]).

End Fixture.

(** ** Reaper of competing watchers

    [cleanupCompetingWatchers] scans the tail of the debug log for other
    watchers of the same Codex home and project and sends them [SIGTERM].
    The model returns the PIDs that [process.kill] is called on, in order;
    a failing [process.kill] is caught by the code and changes nothing. *)

Module Reaper.

Definition WATCH_CLEANUP_LOG_TAIL_BYTES : Z := 32 * 1024 * 1024.
Definition WATCH_CLEANUP_ACTIVITY_WINDOW_MS : Z := 6 * 60 * 60 * 1000.

(** [a <= b] on numbers (false as soon as one side is NaN) *)
Definition num_le (a b : jsnum) : bool :=
  match a, b with
  | NFin p, NFin q => Qle_bool p q
  | NFin _, NInf neg => negb neg
  | NInf neg, NFin _ => neg
  | NInf s, NInf t => s || negb t
  | _, _ => false
  end.

(** What the scan remembers of a PID. *)
Record PidState : Type := {
  lastTsMs : Z;
  isWatch : bool;
  isStopped : bool;
  codexHome : string;
  projectRoot : string
}.

Definition freshState : PidState :=
  {| lastTsMs := 0; isWatch := false; isStopped := false; codexHome := ""; projectRoot := "" |}.

(** [pidState.get(pid)] *)
Fixpoint map_get (entries : list (Z * PidState)) (pid : Z) : option PidState :=
  match entries with
  | [] => None
  | (k, v) :: rest => if Z.eqb k pid then Some v else map_get rest pid
  end.

(** The entry of [pid] after the loop body: a new PID is appended by
    [pidState.set], a known one is updated in place. *)
Fixpoint map_set (entries : list (Z * PidState)) (pid : Z) (v : PidState)
  : list (Z * PidState) :=
  match entries with
  | [] => [(pid, v)]
  | (k, old) :: rest =>
      if Z.eqb k pid then (k, v) :: rest else (k, old) :: map_set rest pid v
  end.

(** [readTailText]: [file] is the content of the file, [None] when it does
    not exist. *)
Definition readTailText (file : option string) (maxBytes : Z) : string :=
  match file with
  | None => ""
  | Some content =>
      let size := Z.of_nat (String.length content) in
      if size <=? 0 then ""
      else
        let readBytes := Z.max 0 (Z.min maxBytes size) in
        if readBytes <=? 0 then ""
        else substring (Z.to_nat (size - readBytes)) (Z.to_nat readBytes) content
  end.

(** [v === s] for a string literal [s] *)
Definition is_string (v : option json) (s : string) : bool :=
  match v with
  | Some (JStr x) => String.eqb x s
  | _ => false
  end.

(** [typeof v === 'string' ? v : ''] *)
Definition string_or_empty (v : option json) : string :=
  match v with
  | Some (JStr x) => x
  | _ => ""
  end.

Section Scan.
Context `{R : Runtime}.

(** [Number(v)] raises a [TypeError] instead of returning: the conversion
    of an object or an array goes through its conversion to a string. *)
Definition toNumber_raises (v : option json) : bool :=
  match v with
  | Some x => toString_raises x
  | None => false
  end.

(** [Number(v)], where it returns; [None] stands for [undefined]. *)
Definition js_toNumber (v : option json) : jsnum :=
  match v with
  | None => NNaN
  | Some JNull => NFin 0
  | Some (JBool b) => if b then NFin 1 else NFin 0
  | Some (JNum n) => n
  | Some (JStr s) => String_toNumber s
  | Some other => String_toNumber (js_toString other)
  end.

Definition parseLogTimestampMs (rawValue : option json) : option Z :=
  match rawValue with
  | Some (JStr s) => if is_blank s then None else Date_parse s
  | _ => None
  end.

(** The state of a PID after one of its records. *)
Definition updateState (record : json) (state : PidState) : PidState :=
  let tsMs := default 0 (parseLogTimestampMs (get_prop record "ts")) in
  let lastTsMs' := if lastTsMs state <? tsMs then tsMs else lastTsMs state in
  if is_string (get_prop record "kind") "bridge-start"
     && is_string (get_prop record "mode") "watch"
  then {| lastTsMs := lastTsMs';
          isWatch := true;
          isStopped := false;
          codexHome := string_or_empty (get_prop record "codexHome");
          projectRoot := string_or_empty (get_prop record "projectRoot") |}
  else if is_string (get_prop record "kind") "bridge-stop"
          && is_string (get_prop record "mode") "watch"
  then {| lastTsMs := lastTsMs';
          isWatch := isWatch state;
          isStopped := true;
          codexHome := codexHome state;
          projectRoot := projectRoot state |}
  else {| lastTsMs := lastTsMs';
          isWatch := isWatch state;
          isStopped := isStopped state;
          codexHome := codexHome state;
          projectRoot := projectRoot state |}.

(** The PID a record counts for: [None] when the loop skips the record. *)
Definition recordPid (ownPid : Z) (record : json) : option Z :=
  let pid := js_toNumber (get_prop record "pid") in
  if negb (Number_isInteger pid) || num_le pid (NFin 0) || num_strict_eq pid (num_of_Z ownPid)
  then None
  else num_to_Z pid.

(** The body of the loop over the lines of the tail.  Reading [record.pid]
    of a line that decodes to [null] raises, and so does [Number] of a PID
    that cannot be converted; neither is inside the [try]. *)
Definition scanLine (ownPid : Z) (line : string) (pidState : list (Z * PidState))
  : outcome (list (Z * PidState)) :=
  if is_blank line then Ok pidState
  else match JSON_parse line with
       | None => Ok pidState
       | Some JNull => Throw (TypeError "Cannot read properties of null (reading 'pid')")
       | Some record =>
           if toNumber_raises (get_prop record "pid")
           then Throw (TypeError "Cannot convert object to primitive value")
           else
             match recordPid ownPid record with
             | None => Ok pidState
             | Some pid =>
                 let state := default freshState (map_get pidState pid) in
                 Ok (map_set pidState pid (updateState record state))
             end
       end.

Fixpoint scanLines (ownPid : Z) (lines : list string) (pidState : list (Z * PidState))
  : outcome (list (Z * PidState)) :=
  match lines with
  | [] => Ok pidState
  | line :: rest =>
      match scanLine ownPid line pidState with
      | Ok pidState' => scanLines ownPid rest pidState'
      | Throw e => Throw e
      end
  end.

(** The tests of the loop over [pidState.entries()]. *)
Definition isCandidate (home : string) (project : option string) (nowMs : Z)
    (state : PidState) : bool :=
  isWatch state
  && negb (isStopped state)
  && String.eqb (codexHome state) home
  && String.eqb (projectRoot state) (default "" project)
  && negb (WATCH_CLEANUP_ACTIVITY_WINDOW_MS <? nowMs - lastTsMs state).

(** [cleanupCompetingWatchers]: [debugLogPath] is [None] for [null],
    [debugLog] the content of the file at that path, [nowMs] what
    [Date.now()] returns after the scan.  The result lists the PIDs that
    [SIGTERM] is sent to. *)
Definition cleanupCompetingWatchers (ownPid : Z) (home : string) (project : option string)
    (debugLogPath : option string) (debugLog : option string) (nowMs : Z)
  : outcome (list Z) :=
  match debugLogPath with
  | None => Ok []
  | Some logPath =>
      if String.eqb logPath "" then Ok []
      else
        let tailText := readTailText debugLog WATCH_CLEANUP_LOG_TAIL_BYTES in
        if is_blank tailText then Ok []
        else match scanLines ownPid (split_lines tailText) [] with
             | Throw e => Throw e
             | Ok pidState =>
                 Ok (map fst (List.filter
                                (fun entry => isCandidate home project nowMs (snd entry))
                                pidState))
             end
  end.

End Scan.

(** A debug log as the bridge writes it: a watcher 4242 of the fixture's
    home that never stopped, a watcher 4300 that stopped, a one-shot run
    4400 and the start of the running process 7. *)
Definition debugLog : string :=
  join (String newline "")
    [ dq "{'ts':'2026-02-28T09:00:00.000Z','pid':4242,'kind':'bridge-start','mode':'watch','codexHome':'/home/u/.codex','projectRoot':''}";
      dq "{'ts':'2026-02-28T09:00:01.000Z','pid':4300,'kind':'bridge-start','mode':'watch','codexHome':'/home/u/.codex','projectRoot':''}";
      dq "{'ts':'2026-02-28T09:00:02.000Z','pid':4242,'kind':'watch-initialized','trackedFileCount':1}";
      dq "{'ts':'2026-02-28T09:30:00.000Z','pid':4300,'kind':'bridge-stop','mode':'watch'}";
      dq "{'ts':'2026-02-28T09:40:00.000Z','pid':4400,'kind':'bridge-start','mode':'once','codexHome':'/home/u/.codex','projectRoot':''}";
      dq "{'ts':'2026-02-28T10:00:00.000Z','pid':7,'kind':'bridge-start','mode':'watch','codexHome':'/home/u/.codex','projectRoot':''}";
      "" ].

(** 2026-02-28T10:00:00.500Z *)
Definition now : Z := 1772272800500.

End Reaper.

(** ** Command line of the bridge *)

Module Cli.

(** [s.slice(n)] *)
Definition slice_from (n : nat) (s : string) : string :=
  substring n (String.length s - n) s.

(** How [parseArgs] ends: with the options, or with the error that names
    the argument it does not know. *)
Inductive parsed (A : Type) : Type :=
| Parsed (options : A)
| UnknownArgument (arg : string).
Arguments Parsed {A} options.
Arguments UnknownArgument {A} arg.

Record Options : Type := {
  codexHome : option string;
  projectRoot : option string;
  since : option jsnum;
  watch : bool;
  pollMs : jsnum;
  emitStop : bool;
  quiet : bool;
  debugLog : bool;
  debugLogPath : option string
}.

Definition defaults : Options :=
  {| codexHome := None;
     projectRoot := None;
     since := None;
     watch := false;
     pollMs := num_of_Z 600;
     emitStop := false;
     quiet := true;
     debugLog := true;
     debugLogPath := None |}.

(** The flags and prefixes the loop knows. *)
Definition known (arg : string) : bool :=
  String.eqb arg "--watch"
  || String.eqb arg "--emit-stop"
  || String.eqb arg "--verbose"
  || String.eqb arg "--debug-log"
  || String.eqb arg "--no-debug-log"
  || String.prefix "--debug-log=" arg
  || String.prefix "--codex-home=" arg
  || String.prefix "--project-root=" arg
  || String.prefix "--since=" arg
  || String.prefix "--poll-ms=" arg.

Section ParseArgs.
Context `{R : Runtime}.

(** [path.resolve] *)
Variable path_resolve : string -> string.
(** [path.join] of two segments *)
Variable path_join : string -> string -> string.

(** The body of the loop over [argv]. *)
Definition parseArg (options : Options) (arg : string) : parsed Options :=
  if String.eqb arg "--watch" then
    Parsed {| codexHome := codexHome options; projectRoot := projectRoot options;
              since := since options; watch := true; pollMs := pollMs options;
              emitStop := emitStop options; quiet := quiet options;
              debugLog := debugLog options; debugLogPath := debugLogPath options |}
  else if String.eqb arg "--emit-stop" then
    Parsed {| codexHome := codexHome options; projectRoot := projectRoot options;
              since := since options; watch := watch options; pollMs := pollMs options;
              emitStop := true; quiet := quiet options;
              debugLog := debugLog options; debugLogPath := debugLogPath options |}
  else if String.eqb arg "--verbose" then
    Parsed {| codexHome := codexHome options; projectRoot := projectRoot options;
              since := since options; watch := watch options; pollMs := pollMs options;
              emitStop := emitStop options; quiet := false;
              debugLog := debugLog options; debugLogPath := debugLogPath options |}
  else if String.eqb arg "--debug-log" then
    Parsed {| codexHome := codexHome options; projectRoot := projectRoot options;
              since := since options; watch := watch options; pollMs := pollMs options;
              emitStop := emitStop options; quiet := quiet options;
              debugLog := true; debugLogPath := debugLogPath options |}
  else if String.eqb arg "--no-debug-log" then
    Parsed {| codexHome := codexHome options; projectRoot := projectRoot options;
              since := since options; watch := watch options; pollMs := pollMs options;
              emitStop := emitStop options; quiet := quiet options;
              debugLog := false; debugLogPath := debugLogPath options |}
  else if String.prefix "--debug-log=" arg then
    Parsed {| codexHome := codexHome options; projectRoot := projectRoot options;
              since := since options; watch := watch options; pollMs := pollMs options;
              emitStop := emitStop options; quiet := quiet options;
              debugLog := true;
              debugLogPath := Some (path_resolve (slice_from 12 arg)) |}
  else if String.prefix "--codex-home=" arg then
    Parsed {| codexHome := Some (path_resolve (slice_from 13 arg));
              projectRoot := projectRoot options;
              since := since options; watch := watch options; pollMs := pollMs options;
              emitStop := emitStop options; quiet := quiet options;
              debugLog := debugLog options; debugLogPath := debugLogPath options |}
  else if String.prefix "--project-root=" arg then
    Parsed {| codexHome := codexHome options;
              projectRoot := Some (path_resolve (slice_from 15 arg));
              since := since options; watch := watch options; pollMs := pollMs options;
              emitStop := emitStop options; quiet := quiet options;
              debugLog := debugLog options; debugLogPath := debugLogPath options |}
  else if String.prefix "--since=" arg then
    let raw := String_toNumber (slice_from 8 arg) in
    if Number_isFinite raw && num_lt (NFin 0) raw then
      Parsed {| codexHome := codexHome options; projectRoot := projectRoot options;
                since := Some raw; watch := watch options; pollMs := pollMs options;
                emitStop := emitStop options; quiet := quiet options;
                debugLog := debugLog options; debugLogPath := debugLogPath options |}
    else Parsed options
  else if String.prefix "--poll-ms=" arg then
    let raw := String_toNumber (slice_from 10 arg) in
    if Number_isFinite raw && Reaper.num_le (NFin 200) raw then
      Parsed {| codexHome := codexHome options; projectRoot := projectRoot options;
                since := since options; watch := watch options; pollMs := raw;
                emitStop := emitStop options; quiet := quiet options;
                debugLog := debugLog options; debugLogPath := debugLogPath options |}
    else Parsed options
  else UnknownArgument arg.

(** The loop over [argv], from the options reached so far. *)
Fixpoint parseArgsFrom (options : Options) (argv : list string) : parsed Options :=
  match argv with
  | [] => Parsed options
  | arg :: rest =>
      match parseArg options arg with
      | Parsed options' => parseArgsFrom options' rest
      | UnknownArgument a => UnknownArgument a
      end
  end.

Definition parseArgs (argv : list string) : parsed Options := parseArgsFrom defaults argv.

(** [resolveDebugLogPath]: [envPath] is
    [process.env.CODEX_PLUGIN_BRIDGE_DEBUG_LOG_PATH], [None] when unset;
    the result is [None] for [null]. *)
Definition resolveDebugLogPath (options : Options) (envPath : option string)
    (home : string) : option string :=
  if negb (debugLog options) then None
  else match debugLogPath options with
       | Some p => if String.eqb p "" then
                     match envPath with
                     | Some e => if is_blank e then Some (path_join home "log/plugin-bridge.log")
                                 else Some (path_resolve e)
                     | None => Some (path_join home "log/plugin-bridge.log")
                     end
                   else Some p
       | None =>
           match envPath with
           | Some e => if is_blank e then Some (path_join home "log/plugin-bridge.log")
                       else Some (path_resolve e)
           | None => Some (path_join home "log/plugin-bridge.log")
           end
       end.

End ParseArgs.

(** [path.resolve] and [path.join] on absolute, normalised paths. *)
Definition resolve_absolute (p : string) : string := p.
Definition join_plain (a b : string) : string := a +:+ "/" +:+ b.

End Cli.

(** ** Runtime sync: hook definitions for the bridge

    [parseHookDefinitions] of the sync script turns a Claude hook
    configuration into the rules that the bridge manifest carries.  The
    warnings it pushes are returned beside the rules. *)

Module Sync.

Inductive warning : Type :=
| MissingHooksObject (hookConfigPath : string)
| EventNotArray (hookConfigPath : string) (eventName : string).

Section Hooks.
Context `{R : Runtime}.

(** The body of the loop over [hooks]: the command pushed for one hook,
    if any. *)
Definition hookCommand (hook : json) : list json :=
  if negb (truthy hook) then []
  else if negb (Reaper.is_string (get_prop hook "type") "command") then []
  else match get_prop hook "command" with
       | Some (JStr command) =>
           if is_blank command then []
           else
             let timeout :=
               match get_prop hook "timeout" with
               | Some (JNum n) =>
                   if Number_isFinite n && num_lt (NFin 0) n then n else num_of_Z 10
               | _ => num_of_Z 10
               end in
             [JObj [("command", JStr command); ("timeout", JNum timeout)]]
       | _ => []
       end.

(** The body of the loop over [eventRules]: the rule pushed for one
    [eventRule], if any.  Reading [eventRule.matcher] of [null] raises. *)
Definition ruleSpec (eventName : string) (eventRule : json) : outcome (list json) :=
  match eventRule with
  | JNull => Throw (TypeError "Cannot read properties of null (reading 'matcher')")
  | _ =>
      let matcher :=
        match get_prop eventRule "matcher" with
        | Some (JStr m) => if is_blank m then JNull else JStr (trim m)
        | _ => JNull
        end in
      let hooks := array_or_empty (get_prop eventRule "hooks") in
      let commands := flat_map hookCommand hooks in
      if (List.length commands =? 0)%nat then Ok []
      else Ok [JObj [("eventName", JStr eventName);
                     ("matcher", matcher);
                     ("commands", JArr commands)]]
  end.

Fixpoint ruleSpecs (eventName : string) (eventRules : list json) : outcome (list json) :=
  match eventRules with
  | [] => Ok []
  | eventRule :: rest =>
      match ruleSpec eventName eventRule with
      | Throw e => Throw e
      | Ok specs =>
          match ruleSpecs eventName rest with
          | Throw e => Throw e
          | Ok specs' => Ok (specs ++ specs')
          end
      end
  end.

(** The loop over [Object.entries(hooksObject)]. *)
Fixpoint eventSpecs (hookConfigPath : string) (entries : list (string * json))
  : outcome (list json * list warning) :=
  match entries with
  | [] => Ok ([], [])
  | (eventName, eventRules) :: rest =>
      match eventRules with
      | JArr rules =>
          match ruleSpecs eventName rules with
          | Throw e => Throw e
          | Ok specs =>
              match eventSpecs hookConfigPath rest with
              | Throw e => Throw e
              | Ok (specs', warnings) => Ok (specs ++ specs', warnings)
              end
          end
      | _ =>
          match eventSpecs hookConfigPath rest with
          | Throw e => Throw e
          | Ok (specs', warnings) =>
              Ok (specs', EventNotArray hookConfigPath eventName :: warnings)
          end
      end
  end.

(** [parseHookDefinitions]: [file] is the content of the file at
    [hookConfigPath], [None] when it does not exist. *)
Definition parseHookDefinitions (hookConfigPath : string) (file : option string)
  : outcome (list json * list warning) :=
  match readJsonIfExists hookConfigPath file with
  | Throw e => Throw e
  | Ok hookConfig =>
      if negb (is_object (Some hookConfig)) then Ok ([], [])
      else match get_prop hookConfig "hooks" with
           | Some (JObj entries) => eventSpecs hookConfigPath entries
           | _ => Ok ([], [MissingHooksObject hookConfigPath])
           end
  end.

End Hooks.

(** A hook configuration with a rule for [Stop] that has one usable
    command, one hook of another type and one blank command, and a rule
    for [TaskComplete] with a padded matcher. *)
Definition hooksJson : string :=
  dq "{'hooks':{'Stop':[{'hooks':[{'type':'command','command':'echo stop','timeout':5},{'type':'prompt','command':'ignored'},{'type':'command','command':'  '}]}],'TaskComplete':[{'matcher':' task_complete ','hooks':[{'type':'command','command':'echo done'}]}],'Broken':7}}".

End Sync.

(** ** Runtime sync: target names *)

Module Names.

Definition slash : ascii := "047"%char.
Definition backslash : ascii := "092"%char.

(** [s.replace(/[\\/]/g, '-')] *)
Fixpoint replace_separators (s : string) : string :=
  match s with
  | EmptyString => EmptyString
  | String c rest =>
      String (if Ascii.eqb c slash || Ascii.eqb c backslash then "-"%char else c)
             (replace_separators rest)
  end.

Section Names.
Context `{R : Runtime}.

(** [sanitizePathSegment]: [None] stands for [undefined]. *)
Definition sanitizePathSegment (value : option json) (fallback : string) : string :=
  let text :=
    match value with
    | Some v => if truthy v then js_toString v else ""
    | None => ""
    end in
  let cleaned := trim (replace_separators text) in
  if String.eqb cleaned "" then fallback else cleaned.

(** The name that the [while] loop tries for [index]. *)
Definition indexedName (baseName : string) (index : Z) : string :=
  baseName +:+ "-" +:+ Number_toString (num_of_Z index).

(** The [while] loop of [resolveUniqueName], for at most [fuel] rounds:
    the first index from [index] on whose name is free. *)
Fixpoint firstFreeIndex (fuel : nat) (baseName : string) (usedNames : gset string)
    (index : Z) : option Z :=
  match fuel with
  | O => None
  | S fuel' =>
      if decide (indexedName baseName index ∈ usedNames)
      then firstFreeIndex fuel' baseName usedNames (index + 1)
      else Some index
  end.

(** [resolveUniqueName]: the name and the set after [usedNames.add].  The
    loop gets one round more than there are used names; [None] says that it
    did not end within them. *)
Definition resolveUniqueName (baseName : string) (usedNames : gset string)
  : option (string * gset string) :=
  if decide (baseName ∈ usedNames) then
    match firstFreeIndex (S (size usedNames)) baseName usedNames 2 with
    | Some index =>
        Some (indexedName baseName index, {[indexedName baseName index]} ∪ usedNames)
    | None => None
    end
  else Some (baseName, {[baseName]} ∪ usedNames).

(** The loop of [collectPluginSkillMappings] over the directories that
    [listDirectories] returns, each with whether it holds a [SKILL.md]:
    the pairs of source name and target name, and the directories
    skipped with a warning. *)
Fixpoint skillMappings (dirs : list (string * bool)) (usedTargets : gset string)
  : option (list (string * string) * list string) :=
  match dirs with
  | [] => Some ([], [])
  | (sourceName, hasSkillFile) :: rest =>
      if negb hasSkillFile then
        match skillMappings rest usedTargets with
        | Some (mappings, skipped) => Some (mappings, sourceName :: skipped)
        | None => None
        end
      else
        let normalizedTarget := sanitizePathSegment (Some (JStr sourceName)) sourceName in
        match resolveUniqueName normalizedTarget usedTargets with
        | Some (targetName, usedTargets') =>
            match skillMappings rest usedTargets' with
            | Some (mappings, skipped) => Some ((sourceName, targetName) :: mappings, skipped)
            | None => None
            end
        | None => None
        end
  end.

Definition collectPluginSkillMappings (dirs : list (string * bool))
  : option (list (string * string) * list string) :=
  skillMappings dirs ∅.

(** [getPluginKeyName] *)
Definition getPluginKeyName (pluginKey : option json) : string :=
  match pluginKey with
  | Some (JStr key) =>
      match index 0 "@" key with
      | Some atIndex => if (0 <? atIndex)%nat then substring 0 atIndex key else key
      | None => key
      end
  | _ => ""
  end.

End Names.

End Names.

(** ** Installer of the zsh hook

    The text that [install-codex-zsh-hook.js] writes to the [.zshrc]: the
    managed block between the two markers is replaced on [install], or
    appended when there is none, and cut out on [remove]. *)

Module Installer.

Definition nl : string := String newline "".
Definition blankLine : string := String newline (String newline "").

Definition startMarker : string := "# >>> codex-claude-sync >>>".
Definition endMarker : string := "# <<< codex-claude-sync <<<".

Definition block : string :=
  join nl
    [ "# >>> codex-claude-sync >>>";
      "# Auto-sync ~/.claude (+ project .claude) into Codex before launching Codex.";
      "# Set CODEX_SYNC_DISABLE=1 to temporarily skip sync.";
      "# Set CODEX_PLUGIN_BRIDGE_DISABLE=1 to temporarily disable plugin hooks bridge.";
      "codex() {";
      dq "  local first_arg='${1-}'";
      "  local codex_home";
      "  local sync_script";
      "  local bridge_script";
      dq "  local bridge_pid=''";
      dq "  local bridge_since=''";
      "";
      dq "  case '$first_arg' in";
      "    -h|--help|-V|--version|completion|login|logout|features)";
      dq "      command codex '$@'";
      "      return $?";
      "      ;;";
      "  esac";
      "";
      dq "  codex_home='${CODEX_HOME:-$HOME/.codex}'";
      dq "  sync_script='$codex_home/scripts/sync-claude-to-codex.js'";
      dq "  bridge_script='$codex_home/scripts/codex-plugin-bridge.js'";
      "";
      dq "  if [[ '${CODEX_SYNC_DISABLE:-0}' != '1' ]]; then";
      dq "    if command -v node >/dev/null 2>&1 && [[ -f '$sync_script' ]]; then";
      dq "      node '$sync_script' --check >/dev/null 2>&1 || node '$sync_script' >/dev/null 2>&1";
      "    fi";
      "  fi";
      "";
      dq "  if [[ '${CODEX_PLUGIN_BRIDGE_DISABLE:-0}' != '1' ]]; then";
      dq "    if command -v node >/dev/null 2>&1 && [[ -f '$bridge_script' ]]; then";
      dq "      bridge_since='$(date +%s)'";
      dq "      node '$bridge_script' --watch --since='$bridge_since' --codex-home='$codex_home' --project-root='$PWD' >/dev/null 2>&1 &";
      dq "      bridge_pid='$!'";
      "    fi";
      "  fi";
      "";
      dq "  command codex '$@'";
      "  local codex_rc=$?";
      "";
      dq "  if [[ -n '$bridge_pid' ]]; then";
      dq "    node '$bridge_script' --emit-stop --codex-home='$codex_home' --project-root='$PWD' >/dev/null 2>&1 || true";
      dq "    kill '$bridge_pid' >/dev/null 2>&1 || true";
      dq "    wait '$bridge_pid' >/dev/null 2>&1 || true";
      "  fi";
      "";
      "  return $codex_rc";
      "}";
      "# <<< codex-claude-sync <<<" ].

(** [findManagedBlock]: [None] for [null]. *)
Definition findManagedBlock (text startMarker endMarker : string) : option (nat * nat) :=
  match index 0 startMarker text with
  | None => None
  | Some start =>
      match index start endMarker text with
      | None => None
      | Some endStart =>
          let end_ := (endStart + String.length endMarker)%nat in
          match get end_ text with
          | Some c => if Ascii.eqb c newline then Some (start, S end_) else Some (start, end_)
          | None => Some (start, end_)
          end
      end
  end.

(** [parts.filter(Boolean)] on strings *)
Definition nonEmpty (parts : list string) : list string :=
  List.filter (fun part => negb (String.eqb part "")) parts.

(** The text written in [install] mode. *)
Definition install (block startMarker endMarker currentText : string) : string :=
  match findManagedBlock currentText startMarker endMarker with
  | Some (start, end_) =>
      let before := rtrim (substring 0 start currentText) in
      let after := ltrim (Cli.slice_from end_ currentText) in
      join blankLine (nonEmpty [before; block; after]) +:+ nl
  | None =>
      if negb (is_blank currentText)
      then rtrim currentText +:+ blankLine +:+ block +:+ nl
      else block +:+ nl
  end.

(** The text written in [remove] mode; [None] when nothing is written. *)
Definition remove (startMarker endMarker currentText : string) : option string :=
  match findManagedBlock currentText startMarker endMarker with
  | None => None
  | Some (start, end_) =>
      let before := rtrim (substring 0 start currentText) in
      let after := ltrim (Cli.slice_from end_ currentText) in
      match nonEmpty [before; after] with
      | [] => Some ""
      | parts => Some (join blankLine parts +:+ nl)
      end
  end.

(** A [.zshrc] before the first install. *)
Definition zshrc : string :=
  "export PATH=$HOME/bin:$PATH" +:+ nl +:+ "alias ll=ls" +:+ nl +:+ nl.

End Installer.

(** * Properties *)

(** ** Association lists *)

Section AssocFacts.
Context {A : Type}.
Implicit Types (l : list (string * A)) (k : string) (x : A).

Lemma assoc_get_set_eq l k x : assoc_get (assoc_set l k x) k = Some x.
Proof.
  induction l as [|[k' o] l IH]; simpl.
  - rewrite String.eqb_refl. reflexivity.
  - destruct (String.eqb_spec k' k) as [->|Hne]; simpl.
    + rewrite String.eqb_refl. reflexivity.
    + destruct (String.eqb_spec k' k); [contradiction | exact IH].
Qed.

Lemma assoc_get_set_ne l k k' x :
  k <> k' -> assoc_get (assoc_set l k x) k' = assoc_get l k'.
Proof.
  intros Hne. induction l as [|[k0 o] l IH]; simpl.
  - destruct (String.eqb_spec k k'); [contradiction | reflexivity].
  - destruct (String.eqb_spec k0 k) as [->|Hk]; simpl.
    + destruct (String.eqb_spec k k'); [contradiction | reflexivity].
    + destruct (String.eqb_spec k0 k'); [reflexivity | exact IH].
Qed.

(** Setting a key that is present changes no length; setting a new key
    appends one entry. *)
Lemma assoc_set_length l k x :
  List.length (assoc_set l k x)
  = match assoc_get l k with
    | Some _ => List.length l
    | None => S (List.length l)
    end.
Proof.
  induction l as [|[k' o] l IH]; simpl; [reflexivity|].
  destruct (String.eqb_spec k' k); simpl; [reflexivity|].
  rewrite IH. destruct (assoc_get l k); reflexivity.
Qed.

Lemma assoc_set_new l k x :
  assoc_get l k = None -> assoc_set l k x = l ++ [(k, x)].
Proof.
  induction l as [|[k' o] l IH]; simpl; [reflexivity|].
  destruct (String.eqb_spec k' k); [discriminate|].
  intros H. rewrite IH by exact H. reflexivity.
Qed.

End AssocFacts.

(** ** Event name mapper *)

Section MapperFacts.
Context `{R : Runtime}.

(** Whenever the mapper returns, the raw type closes the list. *)
Lemma mapEventNames_last (rawType : string) (names : list string) :
  mapEventNames rawType = Ok names -> last names = Some rawType.
Proof.
  unfold mapEventNames.
  destruct (CODEX_EVENT_MAP_get rawType) as [mapped| |]; intros H; inversion H; subst.
  - apply last_snoc.
  - reflexivity.
Qed.

(** The mapper returns exactly on the raw types that are not the name of
    an inherited property. *)
Lemma mapEventNames_returns (rawType : string) :
  existsb (String.eqb rawType) Object_prototype_keys = false ->
  exists names, mapEventNames rawType = Ok names /\ In rawType names.
Proof.
  intros Hkey. unfold mapEventNames, CODEX_EVENT_MAP_get.
  destruct (assoc_get CODEX_EVENT_MAP rawType) as [mapped|].
  - exists (mapped ++ [rawType]). split; [reflexivity|].
    apply in_or_app. right. left. reflexivity.
  - rewrite Hkey. exists [rawType]. split; [reflexivity | left; reflexivity].
Qed.

(** Name-mapping fan-out: one [task_complete] record reaches a rule
    written for [TaskComplete] and a rule written for [Stop]. *)
Lemma mapEventNames_task_complete :
  mapEventNames "task_complete" = Ok ["TaskComplete"; "Stop"; "task_complete"].
Proof. reflexivity. Qed.

End MapperFacts.

(** C7, at the input where the code departs from it.  The raw type
    [constructor] is not a key of the table, but the table inherits a
    property of that name, so the mapper raises instead of returning a
    list that holds the raw type; a session log with one such record ends
    a once-mode run with that exception. *)
Theorem mapEventNames_inherited_key_raises :
  mapEventNames "constructor" = Throw (TypeError "mapped is not iterable")
  /\ (forall names, mapEventNames "constructor" <> Ok names)
  /\ @runOnce ref_runtime Fixture.onceOptions None
       [(Fixture.sessionPath,
         dq "{'type':'event_msg','payload':{'type':'constructor'}}" +:+ Fixture.nl)]
     = (Throw (TypeError "mapped is not iterable"), []).
Proof.
  split; [reflexivity|]. split; [intros names H; discriminate H|].
  vm_compute. reflexivity.
Qed.

(** ** Hook dispatcher *)

Section DispatcherFacts.
Context `{R : Runtime}.

Lemma existsb_eqb_In (x : string) (l : list string) :
  existsb (String.eqb x) l = true <-> In x l.
Proof.
  rewrite existsb_exists. split.
  - intros [y [Hin Heq]]. apply String.eqb_eq in Heq. subst. exact Hin.
  - intros Hin. exists x. split; [exact Hin | apply String.eqb_refl].
Qed.

(** A call made for a rule carries the rule's [eventName]. *)
Lemma commandCalls_eventName source eventName names text eventRecord projectRoot commandDef call :
  In call (commandCalls source eventName names text eventRecord projectRoot commandDef) ->
  hc_eventName call = eventName.
Proof.
  unfold commandCalls.
  destruct (truthy commandDef); simpl; [|tauto].
  destruct (get_prop commandDef "command") as [[]|]; simpl; try tauto.
  destruct (is_blank s); simpl; [tauto|].
  intros [<-|[]]. reflexivity.
Qed.

(** A rule only fires under one of the expanded names. *)
Lemma ruleCalls_eventName source names text eventRecord projectRoot eventDef call :
  In call (ruleCalls source names text eventRecord projectRoot eventDef) ->
  In (hc_eventName call) names
  /\ get_prop eventDef "eventName" = Some (JStr (hc_eventName call))
  /\ matchesRule (get_prop eventDef "matcher") text = true.
Proof.
  unfold ruleCalls.
  destruct (truthy eventDef); simpl; [|tauto].
  destruct (get_prop eventDef "eventName") as [[]|]; simpl; try tauto.
  destruct (existsb (String.eqb s) names) eqn:Hin; simpl; [|tauto].
  destruct (matchesRule (get_prop eventDef "matcher") text) eqn:Hm; simpl; [|tauto].
  intros Hcall. apply in_flat_map in Hcall as [commandDef [_ Hcall]].
  apply commandCalls_eventName in Hcall. subst s.
  split; [apply existsb_eqb_In; exact Hin | split; reflexivity].
Qed.

Lemma sourceCalls_eventName names text eventRecord projectRoot sources call :
  In call (fst (sourceCalls names text eventRecord projectRoot sources)) ->
  In (hc_eventName call) names.
Proof.
  induction sources as [|source rest IH]; simpl; [tauto|].
  destruct (sourceCalls names text eventRecord projectRoot rest) as [calls' result'].
  assert (Hstep :
    In call (flat_map (ruleCalls source names text eventRecord projectRoot)
                      (array_or_empty (get_prop source "events")) ++ calls') ->
    In (hc_eventName call) names).
  { intros Hin. apply in_app_or in Hin as [Hin|Hin].
    - apply in_flat_map in Hin as [eventDef [_ Hin]].
      apply ruleCalls_eventName in Hin. tauto.
    - apply IH. exact Hin. }
  destruct source; simpl; try exact Hstep. tauto.
Qed.

(** A rule in force runs each of its commands. *)
Lemma ruleCalls_fires source names text eventRecord projectRoot eventDef eventName :
  truthy eventDef = true ->
  get_prop eventDef "eventName" = Some (JStr eventName) ->
  In eventName names ->
  matchesRule (get_prop eventDef "matcher") text = true ->
  ruleCalls source names text eventRecord projectRoot eventDef
  = flat_map (commandCalls source eventName names text eventRecord projectRoot)
             (array_or_empty (get_prop eventDef "commands")).
Proof.
  intros Ht He Hin Hm. unfold ruleCalls. rewrite Ht, He. simpl.
  apply existsb_eqb_In in Hin. rewrite Hin, Hm. reflexivity.
Qed.

(** A rule written for another name stays silent. *)
Lemma ruleCalls_other_name source names text eventRecord projectRoot eventDef eventName :
  get_prop eventDef "eventName" = Some (JStr eventName) ->
  ~ In eventName names ->
  ruleCalls source names text eventRecord projectRoot eventDef = [].
Proof.
  intros He Hnot. unfold ruleCalls. rewrite He.
  destruct (truthy eventDef); [simpl|reflexivity].
  destruct (existsb (String.eqb eventName) names) eqn:Hin; [|reflexivity].
  apply existsb_eqb_In in Hin. contradiction.
Qed.

End DispatcherFacts.

(** [join] of an array of strings joins the strings. *)
Lemma array_join_strings `{R : Runtime} (sep : string) (words : list string) :
  array_join sep (map JStr words) = join sep words.
Proof.
  unfold array_join. f_equal. induction words as [|w words IH]; [reflexivity|].
  cbn [map]. f_equal. exact IH.
Qed.

(** C9.  A rule without a matcher (absent, [null] or the empty string)
    matches every text.  A matcher that does not compile matches no text,
    and no exception leaves [matchesRule]; a matcher that compiles matches
    exactly when the regular expression matches the text.  A rule in force
    for the event runs its commands exactly when its matcher matches the
    text the dispatcher hands over.  That text is [buildMatcherText] of
    the event: the raw type, the tool name, the command, the reason, the
    justification and the call identifier, those that are strings, joined
    by spaces.  A command that is an array is joined by spaces first: its
    strings as they are, [null] as the empty text, other elements as
    [String] prints them.  A field that is neither a string nor, for the
    command, an array is left out, and an event without a payload has its
    raw type as its text. *)
Theorem matchesRule_gating `{R : Runtime} (text : string) :
  (matchesRule None text = true
   /\ matchesRule (Some JNull) text = true
   /\ matchesRule (Some (JStr "")) text = true)
  /\ (forall pattern, pattern <> "" -> RegExp_new pattern = None ->
      matchesRule (Some (JStr pattern)) text = false)
  /\ (forall pattern re, pattern <> "" -> RegExp_new pattern = Some re ->
      matchesRule (Some (JStr pattern)) text = RegExp_test re text)
  /\ (forall source names eventRecord projectRoot eventDef eventName,
      truthy eventDef = true ->
      get_prop eventDef "eventName" = Some (JStr eventName) ->
      In eventName names ->
      ruleCalls source names text eventRecord projectRoot eventDef
      = if matchesRule (get_prop eventDef "matcher") text
        then flat_map (commandCalls source eventName names text eventRecord projectRoot)
                      (array_or_empty (get_prop eventDef "commands"))
        else [])
  /\ (forall rawType tool command reason justification call_id,
      buildMatcherText
        {| rawType := rawType;
           payload := JObj [("tool_name", JStr tool); ("command", JStr command);
                            ("reason", JStr reason); ("justification", JStr justification);
                            ("call_id", JStr call_id)];
           eventTimestampSec := None |}
      = join " " [rawType; tool; command; reason; justification; call_id])
  /\ (forall rawType tool words reason justification call_id,
      buildMatcherText
        {| rawType := rawType;
           payload := JObj [("tool_name", JStr tool); ("command", JArr (map JStr words));
                            ("reason", JStr reason); ("justification", JStr justification);
                            ("call_id", JStr call_id)];
           eventTimestampSec := None |}
      = join " " [rawType; tool; join " " words; reason; justification; call_id])
  /\ (forall rawType words,
      buildMatcherText
        {| rawType := rawType;
           payload := JObj [("command", JArr (map JStr words))];
           eventTimestampSec := None |}
      = join " " [rawType; join " " words])
  /\ (forall rawType word,
      buildMatcherText
        {| rawType := rawType;
           payload := JObj [("command",
                             JArr [JStr word; JNull; JBool true; JArr [JStr word; JStr word]])];
           eventTimestampSec := None |}
      = join " " [rawType; word; ""; "true"; word +:+ "," +:+ word])
  /\ (forall rawType n b,
      buildMatcherText
        {| rawType := rawType;
           payload := JObj [("tool_name", JNum n); ("command", JBool b);
                            ("reason", JNull); ("justification", JArr []);
                            ("call_id", JObj [])];
           eventTimestampSec := None |}
      = rawType)
  /\ (forall rawType,
      buildMatcherText {| rawType := rawType; payload := JObj []; eventTimestampSec := None |}
      = rawType
      /\ buildMatcherText {| rawType := rawType; payload := JNull; eventTimestampSec := None |}
         = rawType).
Proof.
  split; [repeat split|].
  split.
  { intros pattern Hne Hnew. unfold matchesRule. simpl.
    destruct (String.eqb_spec pattern ""); [contradiction|]. simpl.
    rewrite Hnew. reflexivity. }
  split.
  { intros pattern re Hne Hnew. unfold matchesRule. simpl.
    destruct (String.eqb_spec pattern ""); [contradiction|]. simpl.
    rewrite Hnew. reflexivity. }
  split.
  { intros source names eventRecord projectRoot eventDef eventName Ht He Hin.
    destruct (matchesRule (get_prop eventDef "matcher") text) eqn:Hm.
    + apply ruleCalls_fires; assumption.
    + unfold ruleCalls. rewrite Ht, He. simpl.
      apply existsb_eqb_In in Hin. rewrite Hin, Hm. reflexivity. }
  split; [reflexivity|].
  split.
  { intros raw tool words reason justification call_id.
    unfold buildMatcherText. cbn [payload rawType truthy get_prop assoc_get String.eqb
      Ascii.eqb Bool.eqb string_part app].
    rewrite array_join_strings. reflexivity. }
  split.
  { intros raw words.
    unfold buildMatcherText. cbn [payload rawType truthy get_prop assoc_get String.eqb
      Ascii.eqb Bool.eqb string_part app].
    rewrite array_join_strings. reflexivity. }
  split; [reflexivity|].
  split; [reflexivity|].
  intros rawType. split; reflexivity.
Qed.

(** The matcher-gating example of the specification, on the reference
    runtime: on an approval request for [rm -rf /tmp] the matcher
    [^deploy] does not match and the matcher [rm -rf] does. *)
Example matcher_gating_example :
  let eventRecord :=
    {| rawType := "exec_approval_request";
       payload := JObj [("command", JArr [JStr "rm"; JStr "-rf"; JStr "/tmp"])];
       eventTimestampSec := None |} in
  @buildMatcherText ref_runtime eventRecord = "exec_approval_request rm -rf /tmp"
  /\ @matchesRule ref_runtime (Some (JStr "^deploy")) (@buildMatcherText ref_runtime eventRecord) = false
  /\ @matchesRule ref_runtime (Some (JStr "rm -rf")) (@buildMatcherText ref_runtime eventRecord) = true.
Proof. vm_compute. repeat split. Qed.

Lemma matchesRule_gating_witness :
  @buildMatcherText ref_runtime
    {| rawType := "exec_approval_request";
       payload := JObj [("command", JArr [JStr "rm"; JStr "-rf"; JStr "/tmp"])];
       eventTimestampSec := None |}
  = "exec_approval_request rm -rf /tmp"
  /\ @matchesRule ref_runtime (Some (JStr "(")) "exec_approval_request rm -rf /tmp" = false
  /\ @matchesRule ref_runtime (Some (JStr "^deploy")) "exec_approval_request rm -rf /tmp"
     = false
  /\ @matchesRule ref_runtime (Some (JStr "rm -rf")) "exec_approval_request rm -rf /tmp" = true.
Proof.
  pose proof (@matchesRule_gating ref_runtime "exec_approval_request rm -rf /tmp")
    as (_ & Hbad & Hgood & _ & _ & _ & Hwords & _).
  split; [exact (Hwords "exec_approval_request" ["rm"; "-rf"; "/tmp"])|].
  split; [apply Hbad; [discriminate | reflexivity]|].
  split.
  - rewrite (Hgood "^deploy" {| Ref.re_bol := true; Ref.re_eol := false;
                                Ref.re_body := map Some (list_ascii_of_string "deploy") |});
      [reflexivity | discriminate | reflexivity].
  - rewrite (Hgood "rm -rf" {| Ref.re_bol := false; Ref.re_eol := false;
                               Ref.re_body := map Some (list_ascii_of_string "rm -rf") |});
      [reflexivity | discriminate | reflexivity].
Defined.

(** ** The synthesised terminal event *)

(** C10.  Under [--emit-stop], once the manifest is read and the pass over
    the session files is complete, [runOnce] dispatches one more event: its
    raw type is [Stop] and its payload is empty.  The calls of that
    dispatch are those of [executeEvent] on the manifest alone: neither
    the replay floor nor the duplicate cache left by the pass is consulted.
    The table has no entry for [Stop], so its expanded names are [Stop]
    only, every command run for it belongs to a rule named [Stop], and a
    rule named [TaskComplete] runs nothing. *)
Theorem emit_stop_dispatch `{R : Runtime} (options : Options) (manifestFile : option string)
    (files : Files) (manifest : Manifest) (state : State) (world : World) :
  emitStop options = true ->
  readManifest (codexHome options) manifestFile = Ok manifest ->
  processFiles files (initialState options) manifest (projectRoot options) initialWorld
  = (Ok tt, state, world) ->
  let dispatch := executeEvent manifest stopEvent (projectRoot options) in
  rawType stopEvent = "Stop"
  /\ payload stopEvent = JObj []
  /\ mapEventNames "Stop" = Ok ["Stop"]
  /\ CODEX_EVENT_MAP_get "Stop" = Absent
  /\ runOnce options manifestFile files = (snd dispatch, hooks world ++ fst dispatch)
  /\ dispatch = sourceCalls ["Stop"] "Stop" stopEvent (projectRoot options)
                            (getAllHookSources manifest)
  /\ (forall call, In call (fst dispatch) -> hc_eventName call = "Stop")
  /\ (forall source eventDef,
      get_prop eventDef "eventName" = Some (JStr "TaskComplete") ->
      ruleCalls source ["Stop"] "Stop" stopEvent (projectRoot options) eventDef = []).
Proof.
  intros Hemit Hmanifest Hfiles dispatch.
  assert (Hdispatch : dispatch = sourceCalls ["Stop"] "Stop" stopEvent (projectRoot options)
                                             (getAllHookSources manifest)) by reflexivity.
  repeat split; try reflexivity.
  - unfold runOnce. rewrite Hmanifest, Hfiles, Hemit.
    fold dispatch. destruct dispatch as [calls result]. reflexivity.
  - intros call Hin. rewrite Hdispatch in Hin.
    apply sourceCalls_eventName in Hin. destruct Hin as [Hin|[]]. symmetry. exact Hin.
  - intros source eventDef He.
    apply (ruleCalls_other_name _ _ _ _ _ _ "TaskComplete"); [exact He|].
    intros [Hin|[]]. discriminate Hin.
Qed.

Lemma emit_stop_dispatch_witness :
  map hc_eventName
      (snd (@runOnce ref_runtime Fixture.stopOptions (Some Fixture.manifestStopAndComplete)
                     [(Fixture.sessionPath, Fixture.sessionLog)]))
  = ["Stop"].
Proof.
  edestruct (@emit_stop_dispatch ref_runtime Fixture.stopOptions
               (Some Fixture.manifestStopAndComplete)
               [(Fixture.sessionPath, Fixture.sessionLog)])
    as (_ & _ & _ & _ & Hrun & _).
  - reflexivity.
  - vm_compute. reflexivity.
  - vm_compute. reflexivity.
  - rewrite Hrun. vm_compute. reflexivity.
Defined.

(** ** Event normalizer *)

Section NormalizerFacts.
Context `{R : Runtime}.



End NormalizerFacts.



(** ** Manifest *)

(** C3 as stated fails: a manifest file that holds malformed JSON makes
    [readManifest] raise, and the once-mode run ends with that error
    before any session file is read. *)
Lemma readManifest_malformed_raises :
  Ref.JSON_parse "{" = None
  /\ @readManifest ref_runtime Fixture.home (Some "{")
     = Throw (ManifestSyntaxError "/home/u/.codex/plugins/claude-bridge/manifest.json")
  /\ @readManifest ref_runtime Fixture.home (Some "{") <> Ok (emptyManifest Fixture.home)
  /\ @runOnce ref_runtime Fixture.onceOptions (Some "{")
       [(Fixture.sessionPath, Fixture.sessionLog)]
     = (Throw (ManifestSyntaxError "/home/u/.codex/plugins/claude-bridge/manifest.json"), []).
Proof.
  split; [reflexivity|]. split; [reflexivity|]. split; [|reflexivity].
  vm_compute. discriminate.
Qed.

(** C3, amended.  A manifest file that is absent, blank (nothing but white
    space, the byte order mark U+FEFF and the no-break space U+00A0
    included, as [String.prototype.trim] has it), or holds JSON
    that is not an object or array reads as the empty rule set, without an
    error; a file that holds an object without [plugins] or [topHooks]
    arrays reads as empty lists for them; a file that is not blank and
    holds malformed JSON raises an error that names the file. *)
Theorem readManifest_fallbacks `{R : Runtime} (codexHome : string) :
  readManifest codexHome None = Ok (emptyManifest codexHome)
  /\ (forall raw, is_blank raw = true ->
      readManifest codexHome (Some raw) = Ok (emptyManifest codexHome))
  /\ (forall raw v, is_blank raw = false -> JSON_parse raw = Some v ->
      is_object (Some v) = false ->
      readManifest codexHome (Some raw) = Ok (emptyManifest codexHome))
  /\ (forall raw v, is_blank raw = false -> JSON_parse raw = Some v ->
      is_object (Some v) = true ->
      readManifest codexHome (Some raw)
      = Ok {| manifestPath := manifestPath (emptyManifest codexHome);
              plugins := array_or_empty (get_prop v "plugins");
              topHooks := array_or_empty (get_prop v "topHooks") |})
  /\ (forall raw, is_blank raw = false -> JSON_parse raw = None ->
      readManifest codexHome (Some raw)
      = Throw (ManifestSyntaxError (manifestPath (emptyManifest codexHome)))).
Proof.
  unfold readManifest, readJsonIfExists, emptyManifest. cbn [manifestPath].
  repeat apply conj.
  - reflexivity.
  - intros raw Hblank. rewrite Hblank. reflexivity.
  - intros raw v Hblank Hparse Hobj. rewrite Hblank, Hparse, Hobj. reflexivity.
  - intros raw v Hblank Hparse Hobj. rewrite Hblank, Hparse, Hobj. reflexivity.
  - intros raw Hblank Hparse. rewrite Hblank, Hparse. reflexivity.
Qed.

Lemma readManifest_fallbacks_witness :
  @readManifest ref_runtime Fixture.home (Some "   ") = Ok (emptyManifest Fixture.home)
  /\ @readManifest ref_runtime Fixture.home
       (Some (String "239" (String "187" (String "191"
          (String "194" (String "160" (String "226" (String "128" (String "168"
             (String "010" ""))))))))))
     = Ok (emptyManifest Fixture.home)
  /\ @readManifest ref_runtime Fixture.home (Some "null") = Ok (emptyManifest Fixture.home)
  /\ @readManifest ref_runtime Fixture.home (Some "{")
     = Throw (ManifestSyntaxError (manifestPath (emptyManifest Fixture.home))).
Proof.
  pose proof (@readManifest_fallbacks ref_runtime Fixture.home)
    as (_ & Hblank & Hother & _ & Hbad).
  split; [apply Hblank; reflexivity|].
  split; [apply Hblank; reflexivity|].
  split; [apply (Hother "null" JNull); reflexivity|].
  apply Hbad; reflexivity.
Defined.

(** ** Dedup cache *)

Section CacheFacts.

Implicit Types (l : list (string * Z)) (k : string).

Lemma assoc_get_None_keys l k : assoc_get l k = None <-> ~ In k (map fst l).
Proof.
  induction l as [|[k' v] l IH]; cbn; [tauto|].
  destruct (String.eqb_spec k' k) as [->|Hne].
  - split; [discriminate | intros H; exfalso; apply H; left; reflexivity].
  - rewrite IH. split; [intros H [Heq|Hin]; [contradiction | exact (H Hin)] | tauto].
Qed.

Lemma assoc_get_app l1 l2 k :
  assoc_get (l1 ++ l2) k
  = match assoc_get l1 k with
    | Some v => Some v
    | None => assoc_get l2 k
    end.
Proof.
  induction l1 as [|[k' v] l1 IH]; cbn; [reflexivity|].
  destruct (String.eqb k' k); [reflexivity | exact IH].
Qed.

Lemma assoc_set_keys l k (v : Z) :
  map fst (assoc_set l k v)
  = match assoc_get l k with
    | Some _ => map fst l
    | None => map fst l ++ [k]
    end.
Proof.
  induction l as [|[k' o] l IH]; cbn; [reflexivity|].
  destruct (String.eqb_spec k' k) as [->|Hne]; cbn; [reflexivity|].
  rewrite IH. destruct (assoc_get l k); reflexivity.
Qed.

Lemma capacity_positive : (1 <= RECENT_EVENT_MAX)%nat.
Proof. apply Nat.leb_le. vm_compute. reflexivity. Qed.

End CacheFacts.

Section DedupFacts.

Implicit Types (recent entries : list (string * Z)) (nowMs : Z) (signature : string)
  (seen : list string).

(** The eviction loop leaves a suffix of the entries, within capacity,
    whose first entry is within the TTL; every entry it deletes is older
    than the TTL or is deleted while the cache is over capacity. *)
Lemma trimRecentEvents_spec nowMs entries :
  exists dropped,
    entries = dropped ++ trimRecentEvents nowMs entries
    /\ (forall (i : nat) key seenAt, dropped !! i = Some (key, seenAt) ->
        RECENT_EVENT_TTL_MS < nowMs - seenAt
        \/ (RECENT_EVENT_MAX < List.length entries - i)%nat)
    /\ (List.length (trimRecentEvents nowMs entries) <= RECENT_EVENT_MAX)%nat
    /\ match trimRecentEvents nowMs entries with
       | [] => True
       | (_, seenAt) :: _ => nowMs - seenAt <= RECENT_EVENT_TTL_MS
       end.
Proof.
  induction entries as [|[key seenAt] rest IH].
  - exists []. repeat split; simpl; try lia. intros i k t H. discriminate H.
  - cbn [trimRecentEvents].
    destruct (Z.ltb_spec RECENT_EVENT_TTL_MS (nowMs - seenAt)) as [Hold|Hfresh];
      destruct (Nat.ltb_spec RECENT_EVENT_MAX (List.length ((key, seenAt) :: rest)))
        as [Hover|Hfits]; cbn [orb].
    1, 2, 3:
      destruct IH as (dropped & Hsplit & Hwhy & Hlen & Hhead);
      exists ((key, seenAt) :: dropped);
      (split; [cbn [app]; congruence|]);
      (split; [|split; assumption]);
      intros [|i] k t Hi; cbn in Hi;
      [ inversion Hi; subst; first [left; assumption | right; simpl in *; lia]
      | destruct (Hwhy i k t Hi) as [H|H]; [left; exact H | right; simpl in *; lia] ].
    exists []. repeat split; try assumption. intros i k t H. discriminate H.
Qed.

(** The verdict of a check depends on the last-seen time alone. *)
Lemma recordAndCheck_verdict recent nowMs signature :
  fst (recordAndCheckDuplicateEvent recent nowMs signature)
  = match assoc_get recent signature with
    | Some seen => nowMs - seen <=? RECENT_EVENT_TTL_MS
    | None => false
    end.
Proof. reflexivity. Qed.

(** Within capacity a check only records the time of the signature. *)
Lemma recordAndCheck_within_capacity recent nowMs signature :
  (List.length (assoc_set recent signature nowMs) <= RECENT_EVENT_MAX)%nat ->
  snd (recordAndCheckDuplicateEvent recent nowMs signature) = assoc_set recent signature nowMs.
Proof.
  intros Hfits. unfold recordAndCheckDuplicateEvent. cbn [snd].
  destruct (Nat.ltb_spec RECENT_EVENT_MAX (List.length (assoc_set recent signature nowMs)));
    [lia | reflexivity].
Qed.


(** A cache whose signatures are all among [seen] holds no more entries
    than [seen] holds different signatures. *)
Lemma cache_within_distinct recent seen :
  NoDup (map fst recent) -> incl (map fst recent) seen ->
  (List.length recent <= List.length (remove_dups seen))%nat.
Proof.
  intros Hnodup Hincl. rewrite <- (length_map fst recent).
  apply submseteq_length, NoDup_submseteq; [exact Hnodup|].
  intros k Hk. apply elem_of_remove_dups, list_elem_of_In, Hincl, list_elem_of_In, Hk.
Qed.

Lemma assoc_set_NoDup recent signature nowMs :
  NoDup (map fst recent) -> NoDup (map fst (assoc_set recent signature nowMs)).
Proof.
  intros Hnodup. rewrite assoc_set_keys.
  destruct (assoc_get recent signature) eqn:Hget; [exact Hnodup|].
  apply assoc_get_None_keys in Hget.
  apply NoDup_app. split; [exact Hnodup|]. split; [|apply NoDup_singleton].
  intros k Hk Hin. apply list_elem_of_In in Hk. apply list_elem_of_singleton in Hin.
  subst k. contradiction.
Qed.

Lemma assoc_set_incl recent signature nowMs seen :
  incl (map fst recent) seen -> In signature seen ->
  incl (map fst (assoc_set recent signature nowMs)) seen.
Proof.
  intros Hincl Hin. rewrite assoc_set_keys.
  destruct (assoc_get recent signature); [exact Hincl|].
  intros k Hk. apply in_app_or in Hk as [Hk|[<-|[]]]; [apply Hincl; exact Hk|exact Hin].
Qed.

(** No entry is evicted while the signatures cached and checked are no
    more than the capacity. *)
Lemma recordAndCheck_no_eviction recent nowMs signature seen :
  NoDup (map fst recent) -> incl (map fst recent) seen -> In signature seen ->
  (List.length (remove_dups seen) <= RECENT_EVENT_MAX)%nat ->
  snd (recordAndCheckDuplicateEvent recent nowMs signature) = assoc_set recent signature nowMs.
Proof.
  intros Hnodup Hincl Hin Hcap. apply recordAndCheck_within_capacity.
  etransitivity; [|exact Hcap]. apply cache_within_distinct.
  - apply assoc_set_NoDup. exact Hnodup.
  - apply assoc_set_incl; assumption.
Qed.

(** Checks of other signatures then leave the last-seen time of a
    signature alone. *)
Lemma runChecks_no_eviction (between : list (string * Z)) recent signature seen :
  NoDup (map fst recent) -> incl (map fst recent) seen -> incl (map fst between) seen ->
  (List.length (remove_dups seen) <= RECENT_EVENT_MAX)%nat ->
  Forall (fun c => fst c <> signature) between ->
  assoc_get (runChecks recent between) signature = assoc_get recent signature
  /\ NoDup (map fst (runChecks recent between))
  /\ incl (map fst (runChecks recent between)) seen.
Proof.
  revert recent.
  induction between as [|[sig t] between IH]; intros recent Hnodup Hincl Hchecked Hcap Hother.
  - split; [reflexivity|]. split; assumption.
  - inversion Hother as [|c cs Hne Hrest]; subst. cbn [fst] in Hne.
    cbn [runChecks fold_left fst snd].
    assert (Hsig : In sig seen) by (apply Hchecked; left; reflexivity).
    rewrite (recordAndCheck_no_eviction recent t sig seen) by assumption.
    fold (runChecks (assoc_set recent sig t) between).
    destruct (IH (assoc_set recent sig t)) as (Hget & Hnodup' & Hincl').
    + apply assoc_set_NoDup. exact Hnodup.
    + apply assoc_set_incl; assumption.
    + intros k Hk. apply Hchecked. right. exact Hk.
    + exact Hcap.
    + exact Hrest.
    + split; [|split; assumption]. rewrite Hget. apply assoc_get_set_ne. exact Hne.
Qed.

End DedupFacts.

(** C8 as stated fails.  On a cache that is reachable from the empty cache
    (the line [first] seen at time 0, 1999 other lines seen at time 0, the
    line [first] seen again at time 100000), the check of a new line at
    time 100000 pushes the cache over its ceiling.  Purging the entries
    older than the TTL first leaves two entries, the re-seen [first] and
    the new line; the code instead evicts [first], the oldest insertion,
    before it purges anything, and keeps the new line only. *)
Lemma eviction_is_not_purge_first :
  List.length Fixture.agedCache = 2000%nat
  /\ assoc_get Fixture.agedCache "first" = Some 100000
  /\ snd (recordAndCheckDuplicateEvent Fixture.agedCache 100000 "new")
     = [("new", 100000)]
  /\ snd (recordAndCheckDuplicateEvent_spec Fixture.agedCache 100000 "new")
     = [("first", 100000); ("new", 100000)]
  /\ snd (recordAndCheckDuplicateEvent Fixture.agedCache 100000 "new")
     <> snd (recordAndCheckDuplicateEvent_spec Fixture.agedCache 100000 "new").
Proof.
  assert (Hcode : snd (recordAndCheckDuplicateEvent Fixture.agedCache 100000 "new")
                  = [("new", 100000)]) by (vm_compute; reflexivity).
  assert (Hspec : snd (recordAndCheckDuplicateEvent_spec Fixture.agedCache 100000 "new")
                  = [("first", 100000); ("new", 100000)]) by (vm_compute; reflexivity).
  split; [vm_compute; reflexivity|]. split; [vm_compute; reflexivity|].
  split; [exact Hcode|]. split; [exact Hspec|].
  rewrite Hcode, Hspec. discriminate.
Qed.

(** C8, amended.  After any record-and-check operation the cache holds at
    most 2000 entries.  When the insertion pushes it over the ceiling, one
    pass in insertion order deletes each leading entry that is older than
    the TTL or is met while the cache is still over the ceiling, and stops
    at the first entry that is neither; the entries after it are kept. *)
Theorem recordAndCheck_cache_bound (recentEvents : list (string * Z)) (nowMs : Z)
    (signature : string) :
  let inserted := assoc_set recentEvents signature nowMs in
  let after := snd (recordAndCheckDuplicateEvent recentEvents nowMs signature) in
  (List.length after <= RECENT_EVENT_MAX)%nat
  /\ exists dropped,
       inserted = dropped ++ after
       /\ ((List.length inserted <= RECENT_EVENT_MAX)%nat <-> dropped = [])
       /\ (forall (i : nat) key seenAt, dropped !! i = Some (key, seenAt) ->
           RECENT_EVENT_TTL_MS < nowMs - seenAt
           \/ (RECENT_EVENT_MAX < List.length inserted - i)%nat)
       /\ ((RECENT_EVENT_MAX < List.length inserted)%nat ->
           match after with
           | [] => True
           | (_, seenAt) :: _ => nowMs - seenAt <= RECENT_EVENT_TTL_MS
           end).
Proof.
  intros inserted after. subst after. unfold recordAndCheckDuplicateEvent. cbn [snd].
  fold inserted.
  destruct (Nat.ltb_spec RECENT_EVENT_MAX (List.length inserted)) as [Hover|Hfits].
  - destruct (trimRecentEvents_spec nowMs inserted) as (dropped & Hsplit & Hwhy & Hlen & Hhead).
    split; [exact Hlen|]. exists dropped.
    split; [exact Hsplit|]. split; [|split; [exact Hwhy | intros _; exact Hhead]].
    split; [lia|]. intros ->. cbn [app] in Hsplit. rewrite <- Hsplit in Hlen. lia.
  - split; [exact Hfits|]. exists [].
    split; [reflexivity|]. split; [tauto|]. split; [|lia].
    intros i key seenAt H. discriminate H.
Qed.

(** C2 as stated fails.  The line [first] is checked at time 0 and again at
    time 2, well within the TTL; in between, two thousand other lines are
    checked.  The last of them pushes the cache over its ceiling and
    evicts [first], so the second check of [first] finds no entry and the
    line is dispatched twice. *)
Lemma dedup_window_broken_by_eviction :
  fst (recordAndCheckDuplicateEvent [] 0 "first") = false
  /\ 2 - 0 <= RECENT_EVENT_TTL_MS
  /\ assoc_get (runChecks [] Fixture.burst) "first" = None
  /\ fst (recordAndCheckDuplicateEvent (runChecks [] Fixture.burst) 2 "first") = false.
Proof.
  split; [reflexivity|]. split; [vm_compute; discriminate|].
  split; vm_compute; reflexivity.
Qed.

(** C2, amended.  Take two checks of the same line, at clock readings
    [t1] and [t2], with any number of checks of other lines in between,
    while the signatures in the cache and those checked are no more than
    the capacity of 2000 different signatures, so that nothing is evicted.
    The second check reports a duplicate, and the line is not dispatched
    again, exactly when [t2 - t1] is at most the TTL of 30000 ms;
    otherwise it is dispatched again.  Hit or miss, the second check
    records [t2] as the last-seen time, so a third check is compared with
    [t2]. *)
Theorem dedup_window (recentEvents : list (string * Z)) (signature : string) (t1 t2 : Z)
    (between : list (string * Z)) :
  NoDup (map fst recentEvents) ->
  (List.length (remove_dups (map fst recentEvents ++ signature :: map fst between))
   <= RECENT_EVENT_MAX)%nat ->
  Forall (fun c => fst c <> signature) between ->
  let first := recordAndCheckDuplicateEvent recentEvents t1 signature in
  let second := recordAndCheckDuplicateEvent (runChecks (snd first) between) t2 signature in
  RECENT_EVENT_TTL_MS = 30000
  /\ (fst second = true <-> t2 - t1 <= RECENT_EVENT_TTL_MS)
  /\ (fst second = false <-> RECENT_EVENT_TTL_MS < t2 - t1)
  /\ assoc_get (snd second) signature = Some t2
  /\ (forall t3, fst (recordAndCheckDuplicateEvent (snd second) t3 signature)
                 = (t3 - t2 <=? RECENT_EVENT_TTL_MS)).
Proof.
  intros Hnodup Hcap Hother first second.
  set (seen := map fst recentEvents ++ signature :: map fst between) in *.
  assert (Hcached : incl (map fst recentEvents) seen)
    by (intros k Hk; apply in_or_app; left; exact Hk).
  assert (Hsig : In signature seen) by (apply in_or_app; right; left; reflexivity).
  assert (Hchecked : incl (map fst between) seen)
    by (intros k Hk; apply in_or_app; right; right; exact Hk).
  assert (Hfirst : snd first = assoc_set recentEvents signature t1)
    by (apply (recordAndCheck_no_eviction _ _ _ seen); assumption).
  subst second. rewrite Hfirst. clear Hfirst first.
  destruct (runChecks_no_eviction between (assoc_set recentEvents signature t1) signature seen)
    as (Hget & Hnodup' & Hincl');
    [apply assoc_set_NoDup; exact Hnodup|apply assoc_set_incl; assumption
    |exact Hchecked|exact Hcap|exact Hother|].
  rewrite assoc_get_set_eq in Hget.
  set (before := runChecks (assoc_set recentEvents signature t1) between) in *.
  assert (Hverdict : fst (recordAndCheckDuplicateEvent before t2 signature)
                     = (t2 - t1 <=? RECENT_EVENT_TTL_MS))
    by (rewrite recordAndCheck_verdict, Hget; reflexivity).
  assert (Hsecond : snd (recordAndCheckDuplicateEvent before t2 signature)
                    = assoc_set before signature t2)
    by (apply (recordAndCheck_no_eviction _ _ _ seen); assumption).
  split; [reflexivity|].
  split; [rewrite Hverdict; apply Z.leb_le|].
  split; [rewrite Hverdict; apply Z.leb_gt|].
  split; [rewrite Hsecond; apply assoc_get_set_eq|].
  intros t3. rewrite recordAndCheck_verdict, Hsecond, assoc_get_set_eq. reflexivity.
Qed.

Lemma dedup_window_witness :
  fst (recordAndCheckDuplicateEvent
         (runChecks (snd (recordAndCheckDuplicateEvent [] 1000 Fixture.taskComplete))
                    (List.repeat (Fixture.agentMessage1, 2000) 2500))
         31000 Fixture.taskComplete) = true
  /\ fst (recordAndCheckDuplicateEvent
            (runChecks (snd (recordAndCheckDuplicateEvent [] 1000 Fixture.taskComplete))
                       (List.repeat (Fixture.agentMessage1, 2000) 2500))
            31001 Fixture.taskComplete) = false.
Proof.
  assert (Hother : Forall (fun c : string * Z => fst c <> Fixture.taskComplete)
                          (List.repeat (Fixture.agentMessage1, 2000) 2500)).
  { apply List.Forall_forall. intros c Hc. apply repeat_spec in Hc. subst c.
    vm_compute. discriminate. }
  assert (Hcap : (List.length
                    (remove_dups
                       (map fst (@nil (string * Z)) ++ Fixture.taskComplete
                          :: map fst (List.repeat (Fixture.agentMessage1, 2000) 2500)))
                  <= RECENT_EVENT_MAX)%nat)
    by (apply Nat.leb_le; vm_compute; reflexivity).
  pose proof (dedup_window [] Fixture.taskComplete 1000 31000
                (List.repeat (Fixture.agentMessage1, 2000) 2500) ltac:(constructor) Hcap Hother)
    as Hhit.
  pose proof (dedup_window [] Fixture.taskComplete 1000 31001
                (List.repeat (Fixture.agentMessage1, 2000) 2500) ltac:(constructor) Hcap Hother)
    as Hmiss.
  cbv zeta in Hhit, Hmiss.
  destruct Hhit as (_ & Hhit & _). destruct Hmiss as (_ & _ & Hmiss & _).
  split.
  - apply Hhit. vm_compute. discriminate.
  - apply Hmiss. vm_compute. reflexivity.
Defined.

(** ** Incremental tailer *)

Section StringFacts.

Lemma split_lines_nonempty (s : string) : split_lines s <> [].
Proof.
  destruct s as [|c rest]; simpl; [discriminate|].
  destruct (Ascii.eqb c newline); [discriminate|].
  destruct (split_lines rest); discriminate.
Qed.





Lemma pop_last_spec (l : list string) :
  l <> [] -> exists lines r, pop_last l = (lines, Some r) /\ l = lines ++ [r].
Proof.
  intros Hne. destruct (exists_last Hne) as (lines & r & ->).
  exists lines, r. unfold pop_last.
  rewrite removelast_last, last_snoc. split; reflexivity.
Qed.

Lemma append_cons (c : ascii) (a b : string) : String c a +:+ b = String c (a +:+ b).
Proof. reflexivity. Qed.

Lemma substring_all (s : string) : substring 0 (String.length s) s = s.
Proof. induction s as [|c s IH]; [reflexivity|]. cbn. rewrite IH. reflexivity. Qed.

(** The bytes before the offset and the bytes read from it make up the
    file. *)
Lemma substring_split (n : nat) (s : string) :
  (n <= String.length s)%nat ->
  substring 0 n s +:+ substring n (String.length s - n) s = s.
Proof.
  revert s. induction n as [|n IH]; intros s Hn.
  - destruct s as [|c s]; [reflexivity|].
    simpl. rewrite substring_all. reflexivity.
  - destruct s as [|c s]; [cbn in Hn; lia|].
    simpl in Hn. simpl. rewrite append_cons, IH by lia. reflexivity.
Qed.

End StringFacts.

Section TailerFacts.
Context `{R : Runtime}.


(** Processing a line touches the cache only. *)
Lemma processLine_positions manifest projectRoot line state world d result state' world' :
  processLine manifest projectRoot line state world = (d, result, state', world') ->
  offsets state' = offsets state
  /\ remainders state' = remainders state
  /\ sinceEpochSec state' = sinceEpochSec state.
Proof.
  unfold processLine.
  destruct (is_blank line); [intros H; inversion H; auto|].
  destruct (parseCodexEvent line) as [eventRecord|]; [|intros H; inversion H; auto].
  destruct (beforeSince _ _); [intros H; inversion H; auto|].
  destruct (recordAndCheckDuplicateEvent _ _ _) as [duplicate recent].
  destruct duplicate; [intros H; inversion H; auto|].
  destruct (executeEvent manifest eventRecord projectRoot).
  intros H; inversion H; auto.
Qed.

Lemma processLines_positions manifest projectRoot lines state world ds result state' world' :
  processLines manifest projectRoot lines state world = (ds, result, state', world') ->
  offsets state' = offsets state
  /\ remainders state' = remainders state
  /\ sinceEpochSec state' = sinceEpochSec state.
Proof.
  revert state world ds result state' world'.
  induction lines as [|line rest IH]; intros state world ds result state' world'.
  - cbn. intros H; inversion H; auto.
  - cbn [processLines].
    destruct (processLine manifest projectRoot line state world)
      as [[[d r] state1] world1] eqn:Hline.
    apply processLine_positions in Hline as (Ho & Hr & Hs).
    destruct r as [u|e].
    + destruct (processLines manifest projectRoot rest state1 world1)
        as [[[ds1 r1] state2] world2] eqn:Hrest.
      apply IH in Hrest as (Ho' & Hr' & Hs').
      intros H; inversion H; subst. repeat split; congruence.
    + intros H; inversion H; subst. auto.
Qed.


End TailerFacts.


(** Tailing on the reference runtime: a first pass over a log that ends in
    the middle of a line defers that fragment; a second pass over the same
    bytes does nothing; once the rest of the line is appended a third pass
    processes the completed line; and a log that has shrunk is read again
    from its start. *)
Example tailer_passes :
  let manifest := emptyManifest Fixture.home in
  let fragment := dq "{'type':'event_msg','payload':{'type':" in
  let partial := Fixture.taskStarted +:+ Fixture.nl +:+ fragment in
  let grown := partial +:+ dq "'task_complete'}}" +:+ Fixture.nl in
  let pass1 :=
    @processSessionFile ref_runtime Fixture.sessionPath partial
      (initialState Fixture.onceOptions) manifest None initialWorld in
  let state1 := snd (fst pass1) in
  let pass2 :=
    @processSessionFile ref_runtime Fixture.sessionPath partial state1 manifest None
      (snd pass1) in
  let pass3 :=
    @processSessionFile ref_runtime Fixture.sessionPath grown state1 manifest None
      (snd pass1) in
  let pass4 :=
    @processSessionFile ref_runtime Fixture.sessionPath (Fixture.agentMessage1 +:+ Fixture.nl)
      state1 manifest None (snd pass1) in
  map (fun d => match d with Dispatched e => rawType e | _ => "" end) (fst (fst (fst pass1)))
  = ["task_started"]
  /\ offsets state1 !! Fixture.sessionPath = Some (String.length partial)
  /\ remainders state1 !! Fixture.sessionPath = Some fragment
  /\ pass2 = ([], Ok tt, state1, snd pass1)
  /\ map (fun d => match d with Dispatched e => rawType e | _ => "" end) (fst (fst (fst pass3)))
     = ["task_complete"]
  /\ offsets (snd (fst pass3)) !! Fixture.sessionPath = Some (String.length grown)
  /\ remainders (snd (fst pass3)) !! Fixture.sessionPath = Some ""
  /\ map (fun d => match d with Dispatched e => rawType e | _ => "" end) (fst (fst (fst pass4)))
     = ["agent_message"]
  /\ offsets (snd (fst pass4)) !! Fixture.sessionPath
     = Some (String.length (Fixture.agentMessage1 +:+ Fixture.nl)).
Proof. vm_compute. repeat split. Qed.

(** ** Once mode, end to end *)

Section OnceFacts.
Context `{R : Runtime}.



End OnceFacts.

Section ScenarioFacts.
Context `{R : Runtime}.



End ScenarioFacts.




(** ** Watch lock manager *)

(** C1.  In any environment:
    - when the exclusive create finds the lock file and the PID recorded in
      it belongs to a live process, acquisition returns no handle after one
      create and one read, deletes nothing, and [watch] returns without
      entering its loop and without running a hook;
    - when the recorded PID is not alive (or none can be read), the lock
      file is unlinked and, once it is, the create is attempted exactly
      once more; the handle is returned exactly when that attempt
      succeeds; acquisition never makes more than two attempts;
    - release unlinks the lock file exactly when the file can be read and
      the PID recorded in it is the PID of the releasing process, and a
      second call of the handle does nothing. *)
Theorem watch_lock_protocol `{R : Runtime} {W : Type} `{E : LockEnv W}
    (pid : Z) (createdAt : string) :
  (forall w w1 raw w2,
     fs_writeLock (lockPayload pid createdAt) w = (AlreadyExists, w1) ->
     fs_readLock w1 = (Some raw, w2) ->
     isProcessAlive (parseWatchLockPid raw) w2 = true ->
     acquireWatchLock pid createdAt w = (Ok false, w2, [OpWrite; OpRead]))
  /\ (forall w options manifestFile manifest initialFiles passes w1 ops,
        readManifest (codexHome options) manifestFile = Ok manifest ->
        acquireWatchLock pid createdAt (reap w) = (Ok false, w1, ops) ->
        watch pid createdAt options manifestFile initialFiles passes w
        = {| entered := false; result := Ok tt; commands := []; lockOps := ops;
             finalWorld := w1 |})
  /\ (forall w w1 existing w2 unlinked w3 retry w4,
        fs_writeLock (lockPayload pid createdAt) w = (AlreadyExists, w1) ->
        fs_readLock w1 = (existing, w2) ->
        match existing with
        | Some raw => isProcessAlive (parseWatchLockPid raw) w2 = false
        | None => True
        end ->
        fs_unlinkLock w2 = (unlinked, w3) ->
        fs_writeLock (lockPayload pid createdAt) w3 = (retry, w4) ->
        acquireWatchLock pid createdAt w
        = if unlinked
          then (Ok match retry with Written => true | _ => false end, w4,
                [OpWrite; OpRead; OpUnlink; OpWrite])
          else (Ok false, w3, [OpWrite; OpRead; OpUnlink]))
  /\ (forall w, (List.length (List.filter is_write (snd (acquireWatchLock pid createdAt w)))
                 <= 2)%nat)
  /\ (forall w,
        let '(existing, w1) := fs_readLock w in
        let owned :=
          match existing with
          | Some raw =>
              match parseWatchLockPid raw with
              | Some recorded => num_strict_eq recorded (num_of_Z pid)
              | None => false
              end
          | None => false
          end in
        releaseWatchLock pid false w
        = if owned then (true, snd (fs_unlinkLock w1), [OpRead; OpUnlink])
          else (true, w1, [OpRead]))
  /\ (forall w, releaseWatchLock pid true w = (true, w, [])).
Proof.
  repeat apply conj.
  - intros w w1 raw w2 Hwrite Hread Halive. unfold acquireWatchLock.
    rewrite Hwrite, Hread, Halive. reflexivity.
  - intros w options manifestFile manifest initialFiles passes w1 ops Hmanifest Hacquire.
    unfold watch. rewrite Hmanifest, Hacquire. reflexivity.
  - intros w w1 existing w2 unlinked w3 retry w4 Hwrite Hread Hstale Hunlink Hretry.
    unfold acquireWatchLock. rewrite Hwrite, Hread.
    assert (Hs : match existing with
                 | Some raw => negb (isProcessAlive (parseWatchLockPid raw) w2)
                 | None => true
                 end = true).
    { destruct existing as [raw|]; [rewrite Hstale|]; reflexivity. }
    rewrite Hs. cbn [negb]. rewrite Hunlink.
    destruct unlinked; cbn [negb]; [|reflexivity].
    rewrite Hretry. destruct retry; reflexivity.
  - intros w. unfold acquireWatchLock.
    destruct (fs_writeLock (lockPayload pid createdAt) w) as [[| |e] w1]; cbn; try lia.
    destruct (fs_readLock w1) as [existing w2].
    destruct (negb _); cbn; try lia.
    destruct (fs_unlinkLock w2) as [unlinked w3].
    destruct unlinked; cbn; try lia.
    destruct (fs_writeLock (lockPayload pid createdAt) w3) as [[| |e] w4]; cbn; lia.
  - intros w. unfold releaseWatchLock.
    destruct (fs_readLock w) as [[raw|] w1]; [|reflexivity].
    destruct (parseWatchLockPid raw) as [recorded|]; [|reflexivity].
    destruct (num_strict_eq recorded (num_of_Z pid)); [|reflexivity].
    destruct (fs_unlinkLock w1). reflexivity.
  - intros w. reflexivity.
Qed.

Lemma watch_lock_protocol_witness :
  @acquireWatchLock ref_runtime SeqWorld seq_env 7 Fixture.lockTime Fixture.heldByLive
  = (Ok false, Fixture.heldByLive, [OpWrite; OpRead])
  /\ @acquireWatchLock ref_runtime SeqWorld seq_env 7 Fixture.lockTime Fixture.heldByDead
     = (Ok true,
        {| lockFile := Some (@lockPayload ref_runtime 7 Fixture.lockTime);
           liveProcesses := [7] |},
        [OpWrite; OpRead; OpUnlink; OpWrite])
  /\ @acquireWatchLock ref_runtime SeqWorld racing_env 7 Fixture.lockTime Fixture.heldByDead
     = (Ok false,
        {| lockFile := Some (dq "{'pid':4242}"); liveProcesses := [7] |},
        [OpWrite; OpRead; OpUnlink; OpWrite]).
Proof.
  pose proof (@watch_lock_protocol ref_runtime SeqWorld seq_env 7 Fixture.lockTime)
    as (Hlive & _ & Hstale & _).
  pose proof (@watch_lock_protocol ref_runtime SeqWorld racing_env 7 Fixture.lockTime)
    as (_ & _ & Hrace & _).
  split; [|split].
  - apply (Hlive _ Fixture.heldByLive Fixture.foreignLock); reflexivity.
  - apply (Hstale Fixture.heldByDead Fixture.heldByDead (Some Fixture.foreignLock)
                  Fixture.heldByDead true
                  {| lockFile := None; liveProcesses := [7] |} Written);
      try reflexivity.
  - apply (Hrace Fixture.heldByDead Fixture.heldByDead (Some Fixture.foreignLock)
                 Fixture.heldByDead true
                 {| lockFile := Some (dq "{'pid':4242}"); liveProcesses := [7] |}
                 AlreadyExists);
      try reflexivity.
Defined.

(** Lock acquisition and release in a world without other actors: a
    process that finds a stale lock takes it over, runs its passes and
    removes the lock on release; a lock that another process has written
    in the meantime is left in place by the release. *)
Example watch_lock_release_examples :
  let run :=
    @watch ref_runtime SeqWorld seq_env 7 Fixture.lockTime Fixture.onceOptions
           (Some Fixture.manifestOneRule) [] [[(Fixture.sessionPath, Fixture.sessionLog)]]
           Fixture.heldByDead in
  entered run = true
  /\ map hc_command (commands run) = ["echo X >> out.log"]
  /\ lockOps run = [OpWrite; OpRead; OpUnlink; OpWrite; OpRead; OpUnlink]
  /\ lockFile (finalWorld run) = None
  /\ @releaseWatchLock ref_runtime SeqWorld seq_env 7 false Fixture.heldByLive
     = (true, Fixture.heldByLive, [OpRead])
  /\ entered (@watch ref_runtime SeqWorld seq_env 7 Fixture.lockTime Fixture.onceOptions
                     (Some Fixture.manifestOneRule) []
                     [[(Fixture.sessionPath, Fixture.sessionLog)]] Fixture.heldByLive)
     = false.
Proof. vm_compute. repeat split. Qed.

(** What [parseWatchLockPid] reads on the reference runtime: the [pid] of
    a JSON descriptor; nothing from a blank file, from [null], or from a
    bare number (which [JSON.parse] accepts, so the numeric fallback is
    not reached); and the number itself from a text that only [Number]
    accepts. *)
Example parseWatchLockPid_examples :
  @parseWatchLockPid ref_runtime Fixture.foreignLock = Some (num_of_Z 4242)
  /\ @parseWatchLockPid ref_runtime "   " = None
  /\ @parseWatchLockPid ref_runtime "null" = None
  /\ @parseWatchLockPid ref_runtime "4242" = None
  /\ @parseWatchLockPid ref_runtime "+4242" = Some (num_of_Z 4242).
Proof. vm_compute. repeat split. Qed.

(** * Further properties of the bridge *)

(** ** Tailer: repeated and split passes *)

Section TailerPasses.
Context `{R : Runtime}.

(** [processSessionFile] in terms of the position it starts from. *)
Lemma processSessionFile_unfold filePath content state manifest projectRoot world :
  processSessionFile filePath content state manifest projectRoot world
  = let size := String.length content in
    let start := startPosition filePath size state in
    if (size =? fst start)%nat then ([], Ok tt, state, world)
    else
      let text := snd start +:+ substring (fst start) (size - fst start) content in
      let lines := removelast (split_lines text) in
      let remainder := default "" (last (split_lines text)) in
      match processLines manifest projectRoot lines state world with
      | (ds, Ok _, state', world') =>
          (ds, Ok tt,
           {| offsets := <[filePath := size]> (offsets state');
              remainders := <[filePath := remainder]> (remainders state');
              recentEvents := recentEvents state';
              sinceEpochSec := sinceEpochSec state' |},
           world')
      | failed => failed
      end.
Proof.
  unfold processSessionFile. cbv zeta.
  destruct (startPosition filePath (String.length content) state) as [off rem].
  reflexivity.
Qed.

Lemma startPosition_stored filePath size state offset remainder :
  offsets state !! filePath = Some offset ->
  remainders state !! filePath = Some remainder ->
  (offset <= size)%nat ->
  startPosition filePath size state = (offset, remainder).
Proof.
  intros Ho Hr Hle. apply Nat.ltb_ge in Hle.
  unfold startPosition. rewrite Ho, Hr. simpl. rewrite Hle. reflexivity.
Qed.

Lemma startPosition_le filePath size state :
  (fst (startPosition filePath size state) <= size)%nat.
Proof.
  unfold startPosition.
  destruct (Nat.ltb_spec size (default 0%nat (offsets state !! filePath))); cbn [fst]; lia.
Qed.

(** The line loop reads the cache and the replay floor of the state and
    passes the offsets and remainders through. *)
Lemma processLine_frame manifest projectRoot line o r o' r' cache floor world :
  processLine manifest projectRoot line
    {| offsets := o; remainders := r; recentEvents := cache; sinceEpochSec := floor |} world
  = let '(d, res, st, w) :=
      processLine manifest projectRoot line
        {| offsets := o'; remainders := r'; recentEvents := cache; sinceEpochSec := floor |}
        world in
    (d, res,
     {| offsets := o; remainders := r; recentEvents := recentEvents st;
        sinceEpochSec := sinceEpochSec st |}, w).
Proof.
  unfold processLine. cbn [offsets remainders recentEvents sinceEpochSec].
  destruct (is_blank line); [reflexivity|].
  destruct (parseCodexEvent line) as [eventRecord|]; [|reflexivity].
  destruct (beforeSince floor (eventTimestampSec eventRecord)); [reflexivity|].
  destruct (recordAndCheckDuplicateEvent cache (Date_now (checks world)) line)
    as [duplicate recent].
  destruct duplicate; [reflexivity|].
  destruct (executeEvent manifest eventRecord projectRoot). reflexivity.
Qed.

Lemma processLines_frame manifest projectRoot lines o r o' r' cache floor world :
  processLines manifest projectRoot lines
    {| offsets := o; remainders := r; recentEvents := cache; sinceEpochSec := floor |} world
  = let '(ds, res, st, w) :=
      processLines manifest projectRoot lines
        {| offsets := o'; remainders := r'; recentEvents := cache; sinceEpochSec := floor |}
        world in
    (ds, res,
     {| offsets := o; remainders := r; recentEvents := recentEvents st;
        sinceEpochSec := sinceEpochSec st |}, w).
Proof.
  revert cache world. induction lines as [|line rest IH]; intros cache world; [reflexivity|].
  cbn [processLines].
  rewrite (processLine_frame manifest projectRoot line o r o' r').
  destruct (processLine manifest projectRoot line
              {| offsets := o'; remainders := r'; recentEvents := cache;
                 sinceEpochSec := floor |} world) as [[[d res] st] w] eqn:Hline.
  pose proof (processLine_positions _ _ _ _ _ _ _ _ _ Hline) as (Ho & Hr & Hs).
  destruct st as [so sr sc ss]. cbn [offsets remainders sinceEpochSec recentEvents] in *.
  subst so sr ss.
  destruct res as [u|e]; [|reflexivity].
  rewrite IH.
  destruct (processLines manifest projectRoot rest
              {| offsets := o'; remainders := r'; recentEvents := sc;
                 sinceEpochSec := floor |} w) as [[[ds res'] st'] w'].
  reflexivity.
Qed.

(** Processing two runs of lines one after the other is processing their
    concatenation. *)
Lemma processLines_app manifest projectRoot lines1 lines2 state world :
  processLines manifest projectRoot (lines1 ++ lines2) state world
  = match processLines manifest projectRoot lines1 state world with
    | (ds1, Ok _, state1, world1) =>
        let '(ds2, res, state2, world2) :=
          processLines manifest projectRoot lines2 state1 world1 in
        (ds1 ++ ds2, res, state2, world2)
    | failed => failed
    end.
Proof.
  revert state world. induction lines1 as [|line rest IH]; intros state world.
  - cbn [app processLines].
    destruct (processLines manifest projectRoot lines2 state world) as [[[ds res] st] w].
    reflexivity.
  - cbn [app processLines].
    destruct (processLine manifest projectRoot line state world) as [[[d res] st] w].
    destruct res as [u|e]; [|reflexivity].
    rewrite IH.
    destruct (processLines manifest projectRoot rest st w) as [[[ds1 res1] st1] w1].
    destruct res1 as [u1|e1]; [|reflexivity].
    destruct (processLines manifest projectRoot lines2 st1 w1) as [[[ds2 res2] st2] w2].
    reflexivity.
Qed.

End TailerPasses.

Section MoreStringFacts.

Lemma length_append (a b : string) :
  String.length (a +:+ b) = (String.length a + String.length b)%nat.
Proof. induction a as [|c a IH]; [reflexivity|]. rewrite append_cons. cbn. rewrite IH. reflexivity. Qed.

Lemma append_empty_r (a : string) : a +:+ "" = a.
Proof. induction a as [|c a IH]; [reflexivity|]. rewrite append_cons, IH. reflexivity. Qed.

Lemma append_assoc (a b c : string) : (a +:+ b) +:+ c = a +:+ (b +:+ c).
Proof. induction a as [|x a IH]; [reflexivity|]. rewrite !append_cons, IH. reflexivity. Qed.

(** Reading from an offset inside the first part of a text reads the rest
    of the first part and the whole second part. *)
Lemma substring_append_from (n : nat) (a b : string) :
  (n <= String.length a)%nat ->
  substring n (String.length (a +:+ b) - n) (a +:+ b)
  = substring n (String.length a - n) a +:+ b.
Proof.
  revert a. induction n as [|n IH]; intros a Hn.
  - rewrite !Nat.sub_0_r, !substring_all. reflexivity.
  - destruct a as [|c a]; [cbn in Hn; lia|].
    cbn in Hn. rewrite append_cons. cbn [String.length substring Nat.sub].
    apply IH. lia.
Qed.

(** Text appended after a split goes to the last fragment. *)
Lemma split_lines_append (a b : string) (lines : list string) (remainder : string) :
  split_lines a = lines ++ [remainder] ->
  split_lines (a +:+ b) = lines ++ split_lines (remainder +:+ b).
Proof.
  revert lines remainder. induction a as [|c a IH]; intros lines remainder Hsplit.
  - cbn in Hsplit. destruct lines as [|l lines].
    + inversion Hsplit; subst. reflexivity.
    + inversion Hsplit as [[Hl Hrest]]. destruct lines; discriminate Hrest.
  - rewrite append_cons. cbn [split_lines] in *.
    pose proof (split_lines_nonempty a) as Hne.
    destruct (exists_last Hne) as (lines' & remainder' & Ha).
    specialize (IH lines' remainder' Ha).
    destruct (Ascii.eqb c newline) eqn:Hc.
    + rewrite Ha in Hsplit. rewrite IH.
      change ("" :: lines' ++ [remainder']) with (("" :: lines') ++ [remainder']) in Hsplit.
      apply app_inj_tail in Hsplit as [<- <-]. reflexivity.
    + rewrite Ha in Hsplit. rewrite IH.
      destruct lines' as [|f others].
      * cbn [app] in Hsplit. destruct lines as [|l lines].
        -- inversion Hsplit; subst. cbn [app]. rewrite append_cons. cbn [split_lines].
           rewrite Hc. reflexivity.
        -- inversion Hsplit as [[Hl Hrest]]. destruct lines; discriminate Hrest.
      * cbn [app] in Hsplit |- *.
        change (String c f :: others ++ [remainder'])
          with ((String c f :: others) ++ [remainder']) in Hsplit.
        apply app_inj_tail in Hsplit as [<- <-]. reflexivity.
Qed.

End MoreStringFacts.

Section TailerPassFacts.
Context `{R : Runtime}.

Lemma substring_nothing (n : nat) (s : string) : substring n 0 s = "".
Proof.
  revert s. induction n as [|n IH]; intros s; destruct s as [|c s]; try reflexivity.
  cbn [substring]. apply IH.
Qed.

(** After a completed pass the file is at its stored offset. *)
Lemma processSessionFile_settled filePath content state manifest projectRoot world
    ds state' world' :
  processSessionFile filePath content state manifest projectRoot world
  = (ds, Ok tt, state', world') ->
  (String.length content =? fst (startPosition filePath (String.length content) state'))%nat
  = true.
Proof.
  rewrite processSessionFile_unfold. cbv zeta.
  destruct (Nat.eqb_spec (String.length content)
              (fst (startPosition filePath (String.length content) state))) as [Heq|Hne].
  - intros H. inversion H; subst. apply Nat.eqb_eq. exact Heq.
  - destruct (processLines _ _ _ _ _) as [[[ds0 res] st] w].
    destruct res as [u|e]; intros H; inversion H; subst.
    rewrite (startPosition_stored filePath _ _ (String.length content)
               (default "" (last (split_lines
                  (snd (startPosition filePath (String.length content) state) +:+
                   substring (fst (startPosition filePath (String.length content) state))
                     (String.length content -
                      fst (startPosition filePath (String.length content) state)) content)))))
      by (cbn [offsets remainders]; first [apply lookup_insert_eq | lia]).
    apply Nat.eqb_refl.
Qed.

(** A file at its stored offset is left alone. *)
Lemma tailer_idempotent_aux filePath content state manifest projectRoot world :
  (String.length content =? fst (startPosition filePath (String.length content) state))%nat
  = true ->
  processSessionFile filePath content state manifest projectRoot world
  = ([], Ok tt, state, world).
Proof. intros H. rewrite processSessionFile_unfold. cbv zeta. rewrite H. reflexivity. Qed.

End TailerPassFacts.

(** Idempotent tailing: once a pass over a file has completed, a second
    pass over the same bytes reads nothing, takes no decision, runs no hook
    and leaves the state as it is. *)
Theorem tailer_idempotent `{R : Runtime} (filePath content : string) (state : State)
    (manifest : Manifest) (projectRoot : option string) (world : World)
    (ds : list line_decision) (state' : State) (world' : World) :
  processSessionFile filePath content state manifest projectRoot world
  = (ds, Ok tt, state', world') ->
  processSessionFile filePath content state' manifest projectRoot world'
  = ([], Ok tt, state', world').
Proof.
  intros Hpass. apply processSessionFile_settled in Hpass.
  rewrite processSessionFile_unfold. cbv zeta. rewrite Hpass. reflexivity.
Qed.

Lemma tailer_idempotent_witness :
  let pass1 :=
    @processSessionFile ref_runtime Fixture.sessionPath Fixture.sessionLog
      (initialState Fixture.onceOptions) (emptyManifest Fixture.home) None initialWorld in
  List.length (fst (fst (fst pass1))) = 4%nat
  /\ @processSessionFile ref_runtime Fixture.sessionPath Fixture.sessionLog
       (snd (fst pass1)) (emptyManifest Fixture.home) None (snd pass1)
     = ([], Ok tt, snd (fst pass1), snd pass1).
Proof.
  cbv zeta. split; [vm_compute; reflexivity|].
  eapply (@tailer_idempotent ref_runtime Fixture.sessionPath Fixture.sessionLog
            (initialState Fixture.onceOptions) (emptyManifest Fixture.home) None initialWorld).
  vm_compute. reflexivity.
Defined.

(** No lost tail: for a file that only grows, a pass over the first bytes
    followed by a pass over the grown file takes the same decisions, in the
    same order, and runs the same hooks as a single pass over the grown
    file, wherever the first pass stopped, also in the middle of a line,
    as long as it did not stop in the middle of a character: the bytes
    that the first pass reads and the bytes that the file grows by are each
    well-formed UTF-8, so that decoding them apart gives the text that
    decoding them together gives.  When the second pass completes, both
    ways end in the same state; when it raises, both raise the same error
    with the same cache. *)
Theorem tailer_passes_compose `{R : Runtime} (filePath content extra : string) (state : State)
    (manifest : Manifest) (projectRoot : option string) (world : World)
    (ds1 : list line_decision) (state1 : State) (world1 : World) :
  (default 0%nat (offsets state !! filePath) <= String.length content)%nat ->
  utf8_valid (substring (default 0%nat (offsets state !! filePath))
                        (String.length content - default 0%nat (offsets state !! filePath))
                        content) = true ->
  utf8_valid extra = true ->
  processSessionFile filePath content state manifest projectRoot world
  = (ds1, Ok tt, state1, world1) ->
  let '(ds2, res, state2, world2) :=
    processSessionFile filePath (content +:+ extra) state1 manifest projectRoot world1 in
  let single :=
    processSessionFile filePath (content +:+ extra) state manifest projectRoot world in
  match res with
  | Ok _ => single = (ds1 ++ ds2, Ok tt, state2, world2)
  | Throw e =>
      fst single = (ds1 ++ ds2, Throw e, snd (fst single))
      /\ snd single = world2
      /\ recentEvents (snd (fst single)) = recentEvents state2
  end.
Proof.
  intros Hstored _ _ Hpass1.
  pose proof (processSessionFile_settled _ _ _ _ _ _ _ _ _ Hpass1) as Hsettled.
  destruct extra as [|x extra'].
  { rewrite append_empty_r.
    rewrite (tailer_idempotent_aux filePath content state1 manifest projectRoot world1 Hsettled).
    cbv zeta. rewrite app_nil_r. exact Hpass1. }
  set (extra := String x extra') in *.
  assert (Hgrow : (String.length content < String.length (content +:+ extra))%nat)
    by (rewrite length_append; subst extra; cbn [String.length]; lia).
  set (off := default 0%nat (offsets state !! filePath)) in *.
  set (rem := default "" (remainders state !! filePath)).
  assert (Hstart1 : startPosition filePath (String.length content) state = (off, rem)).
  { unfold startPosition. fold off rem.
    destruct (Nat.ltb_spec (String.length content) off); [lia | reflexivity]. }
  assert (Hstart2 : startPosition filePath (String.length (content +:+ extra)) state = (off, rem)).
  { unfold startPosition. fold off rem.
    destruct (Nat.ltb_spec (String.length (content +:+ extra)) off); [lia | reflexivity]. }
  rewrite processSessionFile_unfold in Hpass1. cbv zeta in Hpass1.
  rewrite Hstart1 in Hpass1. cbn [fst snd] in Hpass1.
  destruct (Nat.eqb_spec (String.length content) off) as [Hsame|Hdiff].
  { (* the first pass had nothing to read *)
    inversion Hpass1; subst ds1 state1 world1.
    destruct (processSessionFile filePath (content +:+ extra) state manifest projectRoot world)
      as [[[ds res] st] w] eqn:Hsingle.
    cbv zeta. destruct res as [[]|e]; [reflexivity|]. cbn [fst snd]. auto. }
  rewrite (processSessionFile_unfold filePath (content +:+ extra) state). cbv zeta.
  rewrite Hstart2. cbn [fst snd].
  destruct (Nat.eqb_spec (String.length (content +:+ extra)) off) as [|_]; [lia|].
  rewrite substring_append_from by exact Hstored.
  rewrite <- append_assoc.
  set (text1 := rem +:+ substring off (String.length content - off) content) in *.
  destruct (pop_last_spec (split_lines text1) (split_lines_nonempty text1))
    as (lines1 & r1 & _ & Hsplit1).
  rewrite Hsplit1 in Hpass1. rewrite removelast_last, last_snoc in Hpass1.
  cbn [default] in Hpass1.
  destruct (processLines manifest projectRoot lines1 state world)
    as [[[ds res] st1] w1] eqn:Hlines1.
  destruct res as [[]|e]; [|discriminate Hpass1].
  inversion Hpass1; subst ds state1 w1. clear Hpass1.
  pose proof (processLines_positions _ _ _ _ _ _ _ _ _ Hlines1) as (Ho & Hr & Hs).
  rewrite (split_lines_append text1 extra lines1 r1 Hsplit1).
  destruct (pop_last_spec (split_lines (r1 +:+ extra)) (split_lines_nonempty (r1 +:+ extra)))
    as (lines2 & r2 & _ & Hsplit2).
  rewrite Hsplit2, app_assoc, removelast_last, last_snoc. cbn [default].
  rewrite processLines_app, Hlines1.
  (* the second pass *)
  rewrite processSessionFile_unfold. cbv zeta.
  rewrite (startPosition_stored filePath _ _ (String.length content) r1)
    by (cbn [offsets remainders]; first [apply lookup_insert_eq | lia]).
  cbn [fst snd].
  destruct (Nat.eqb_spec (String.length (content +:+ extra)) (String.length content))
    as [|_]; [lia|].
  rewrite substring_append_from by lia.
  rewrite Nat.sub_diag, substring_nothing.
  change ("" +:+ extra) with extra.
  rewrite Hsplit2, removelast_last, last_snoc. cbn [default].
  destruct st1 as [o1 rm1 c1 s1]. cbn [offsets remainders recentEvents sinceEpochSec] in *.
  rewrite (processLines_frame manifest projectRoot lines2
             (<[filePath:=String.length content]> o1) (<[filePath:=r1]> rm1) o1 rm1).
  destruct (processLines manifest projectRoot lines2
              {| offsets := o1; remainders := rm1; recentEvents := c1;
                 sinceEpochSec := s1 |} world1) as [[[ds2 res2] st2] w2] eqn:Hlines2.
  pose proof (processLines_positions _ _ _ _ _ _ _ _ _ Hlines2) as (Ho2 & Hr2 & Hs2).
  cbn [offsets remainders sinceEpochSec] in Ho2, Hr2, Hs2.
  destruct res2 as [[]|e2].
  - cbn [offsets remainders recentEvents sinceEpochSec].
    rewrite !insert_insert_eq, Ho2, Hr2, Hs2. reflexivity.
  - cbn [fst snd recentEvents]. auto.
Qed.

Lemma tailer_passes_compose_witness :
  let cut := Fixture.taskStarted +:+ Fixture.nl +:+ Fixture.agentMessage1 in
  let rest := Fixture.nl +:+ Fixture.taskComplete +:+ Fixture.nl in
  let pass1 :=
    @processSessionFile ref_runtime Fixture.sessionPath cut
      (initialState Fixture.onceOptions) (emptyManifest Fixture.home) None initialWorld in
  let pass2 :=
    @processSessionFile ref_runtime Fixture.sessionPath (cut +:+ rest)
      (snd (fst pass1)) (emptyManifest Fixture.home) None (snd pass1) in
  @processSessionFile ref_runtime Fixture.sessionPath (cut +:+ rest)
    (initialState Fixture.onceOptions) (emptyManifest Fixture.home) None initialWorld
  = (fst (fst (fst pass1)) ++ fst (fst (fst pass2)), Ok tt, snd (fst pass2), snd pass2)
  /\ List.length (fst (fst (fst pass1))) = 1%nat
  /\ List.length (fst (fst (fst pass2))) = 2%nat.
Proof.
  cbv zeta. split; [|split; vm_compute; reflexivity].
  pose proof (@tailer_passes_compose ref_runtime Fixture.sessionPath
                (Fixture.taskStarted +:+ Fixture.nl +:+ Fixture.agentMessage1)
                (Fixture.nl +:+ Fixture.taskComplete +:+ Fixture.nl)
                (initialState Fixture.onceOptions) (emptyManifest Fixture.home) None
                initialWorld) as Hcompose.
  edestruct (@processSessionFile ref_runtime Fixture.sessionPath
               (Fixture.taskStarted +:+ Fixture.nl +:+ Fixture.agentMessage1)
               (initialState Fixture.onceOptions) (emptyManifest Fixture.home) None
               initialWorld) as [[[ds1 res1] state1] world1] eqn:Hpass1.
  assert (Hres : res1 = Ok tt) by (vm_compute in Hpass1; inversion Hpass1; reflexivity).
  subst res1.
  specialize (Hcompose ds1 state1 world1 ltac:(vm_compute; lia)
                       ltac:(vm_compute; reflexivity) ltac:(vm_compute; reflexivity) eq_refl).
  cbn [fst snd].
  destruct (@processSessionFile ref_runtime Fixture.sessionPath _ state1
              (emptyManifest Fixture.home) None world1) as [[[ds2 res2] state2] world2] eqn:Hpass2.
  assert (Hres2 : res2 = Ok tt).
  { vm_compute in Hpass1. inversion Hpass1; subst. vm_compute in Hpass2.
    inversion Hpass2; reflexivity. }
  subst res2. cbv zeta in Hcompose. exact Hcompose.
Defined.

(** Well-formed and ill-formed bytes: [e] with an acute accent and a
    line separator are well-formed; a lead byte without its continuation,
    an overlong form and a surrogate are not. *)
Example utf8_valid_examples :
  utf8_valid (String "195" (String "169" (String "226" (String "128" (String "168" "a")))))
  = true
  /\ utf8_valid (String "a" (String "195" "")) = false
  /\ utf8_valid (String "192" (String "128" "")) = false
  /\ utf8_valid (String "237" (String "160" (String "128" ""))) = false.
Proof. repeat split. Qed.

(** ** Dedup cache: invariants *)

(** One check keeps the shape of the cache. *)
Lemma recordAndCheck_invariant (recentEvents : list (string * Z)) (nowMs : Z)
    (signature : string) :
  NoDup (map fst recentEvents) ->
  (List.length recentEvents <= RECENT_EVENT_MAX)%nat ->
  let after := snd (recordAndCheckDuplicateEvent recentEvents nowMs signature) in
  NoDup (map fst after)
  /\ (List.length after <= RECENT_EVENT_MAX)%nat
  /\ assoc_get after signature = Some nowMs
  /\ (forall key seenAt, key <> signature ->
      assoc_get after key = Some seenAt -> assoc_get recentEvents key = Some seenAt).
Proof.
  intros Hnodup Hcap after. subst after.
  unfold recordAndCheckDuplicateEvent. cbn [snd].
  set (inserted := assoc_set recentEvents signature nowMs).
  assert (Hkeys : NoDup (map fst inserted)).
  { subst inserted. rewrite assoc_set_keys.
    destruct (assoc_get recentEvents signature) eqn:Hget; [exact Hnodup|].
    apply NoDup_app. split; [exact Hnodup|]. split; [|apply NoDup_singleton].
    intros x Hx Hin. apply list_elem_of_In in Hx, Hin.
    destruct Hin as [<-|[]]. apply assoc_get_None_keys in Hget. contradiction. }
  destruct (Nat.ltb_spec RECENT_EVENT_MAX (List.length inserted)) as [Hover|Hfits].
  - assert (Hnew : assoc_get recentEvents signature = None).
    { subst inserted. rewrite assoc_set_length in Hover.
      destruct (assoc_get recentEvents signature); [lia | reflexivity]. }
    assert (Hins : inserted = recentEvents ++ [(signature, nowMs)])
      by (apply assoc_set_new; exact Hnew).
    destruct (trimRecentEvents_spec nowMs inserted) as (dropped & Hsplit & Hwhy & Hlen & _).
    set (kept := trimRecentEvents nowMs inserted) in *.
    assert (Hlast : exists kept', kept = kept' ++ [(signature, nowMs)]
                                  /\ recentEvents = dropped ++ kept').
    { destruct kept as [|e0 kept0] eqn:Hk0.
      - exfalso. rewrite app_nil_r in Hsplit.
        assert (Hi : dropped !! List.length recentEvents = Some (signature, nowMs)).
        { rewrite <- Hsplit, Hins. rewrite lookup_app_r by lia.
          rewrite Nat.sub_diag. reflexivity. }
        destruct (Hwhy _ _ _ Hi) as [Hold|Hbig].
        + unfold RECENT_EVENT_TTL_MS in Hold. lia.
        + rewrite Hins, length_app in Hbig. cbn [List.length] in Hbig.
          pose proof capacity_positive. lia.
      - assert (Hne : e0 :: kept0 <> []) by discriminate.
        destruct (exists_last Hne) as (kept' & e & Hk). rewrite Hk in *.
        exists kept'. rewrite Hins, app_assoc in Hsplit.
        apply app_inj_tail in Hsplit as [Hr He]. subst e. split; [reflexivity | exact Hr]. }
    destruct Hlast as (kept' & Hkept & Hrecent).
    assert (Hkept_keys : ~ In signature (map fst kept')).
    { apply assoc_get_None_keys in Hnew. rewrite Hrecent, map_app in Hnew.
      intros Hin. apply Hnew. apply in_or_app. right. exact Hin. }
    split; [|split; [exact Hlen|split]].
    + rewrite Hsplit, map_app in Hkeys. apply NoDup_app in Hkeys. tauto.
    + rewrite Hkept, assoc_get_app.
      apply assoc_get_None_keys in Hkept_keys. rewrite Hkept_keys. cbn.
      rewrite String.eqb_refl. reflexivity.
    + intros key seenAt Hne Hget. rewrite Hkept, assoc_get_app in Hget.
      destruct (assoc_get kept' key) as [v|] eqn:Hk.
      * inversion Hget; subst v. rewrite Hrecent, assoc_get_app.
        destruct (assoc_get dropped key) as [v'|] eqn:Hd; [|exact Hk].
        exfalso. rewrite Hrecent, map_app in Hnodup. apply NoDup_app in Hnodup.
        destruct Hnodup as (_ & Hdisj & _).
        apply (Hdisj key); apply list_elem_of_In.
        -- destruct (in_dec string_dec key (map fst dropped)) as [Hin|Hout]; [exact Hin|].
           apply assoc_get_None_keys in Hout. congruence.
        -- destruct (in_dec string_dec key (map fst kept')) as [Hin|Hout]; [exact Hin|].
           apply assoc_get_None_keys in Hout. congruence.
      * cbn in Hget. destruct (String.eqb_spec signature key); [congruence | discriminate].
  - split; [exact Hkeys|]. split; [exact Hfits|]. split.
    + apply assoc_get_set_eq.
    + intros key seenAt Hne Hget. subst inserted.
      rewrite assoc_get_set_ne in Hget by congruence. exact Hget.
Qed.

Lemma runChecks_invariant (checks : list (string * Z)) (recentEvents : list (string * Z)) :
  NoDup (map fst recentEvents) ->
  (List.length recentEvents <= RECENT_EVENT_MAX)%nat ->
  NoDup (map fst (runChecks recentEvents checks))
  /\ (List.length (runChecks recentEvents checks) <= RECENT_EVENT_MAX)%nat.
Proof.
  revert recentEvents. induction checks as [|[sig t] checks IH]; intros recent Hk Hc.
  - split; assumption.
  - cbn [runChecks fold_left fst snd].
    destruct (recordAndCheck_invariant recent t sig Hk Hc) as (Hk' & Hc' & _).
    apply IH; assumption.
Qed.

(** The duplicate cache keeps its shape.  In every cache that a run of
    checks builds from the empty cache the signatures are distinct and
    there are at most 2000 of them; a further check records its signature
    with the time of the check, whether or not it evicts, and every other
    entry it leaves is an entry of the cache before, with its time
    unchanged. *)
Theorem dedup_cache_reachable (checks : list (string * Z)) (nowMs : Z) (signature : string) :
  let cache := runChecks [] checks in
  let after := snd (recordAndCheckDuplicateEvent cache nowMs signature) in
  NoDup (map fst cache)
  /\ (List.length cache <= RECENT_EVENT_MAX)%nat
  /\ assoc_get after signature = Some nowMs
  /\ (forall key seenAt, key <> signature ->
      assoc_get after key = Some seenAt -> assoc_get cache key = Some seenAt).
Proof.
  intros cache after.
  destruct (runChecks_invariant checks []) as [Hk Hc]; [constructor | cbn; lia |].
  fold cache in Hk, Hc.
  destruct (recordAndCheck_invariant cache nowMs signature Hk Hc) as (_ & _ & Hget & Hold).
  repeat split; assumption.
Qed.

(** ** Dispatcher: when it raises, and what it runs *)

Section DispatchFacts.
Context `{R : Runtime}.

Lemma sourceCalls_app names text eventRecord projectRoot (a b : list json) :
  sourceCalls names text eventRecord projectRoot (a ++ b)
  = match sourceCalls names text eventRecord projectRoot a with
    | (calls, Ok _) =>
        let '(calls', res) := sourceCalls names text eventRecord projectRoot b in
        (calls ++ calls', res)
    | failed => failed
    end.
Proof.
  induction a as [|source a IH].
  - cbn. destruct (sourceCalls names text eventRecord projectRoot b). reflexivity.
  - cbn [app sourceCalls]. rewrite IH.
    destruct (sourceCalls names text eventRecord projectRoot a) as [calls res].
    destruct res as [u|e].
    + destruct (sourceCalls names text eventRecord projectRoot b) as [calls' res'].
      destruct source; try reflexivity; rewrite app_assoc; reflexivity.
    + destruct source; reflexivity.
Qed.

Lemma sourceCalls_ok_iff names text eventRecord projectRoot (sources : list json) :
  snd (sourceCalls names text eventRecord projectRoot sources) = Ok tt
  <-> Forall (fun source => source <> JNull) sources.
Proof.
  induction sources as [|source rest IH].
  - cbn. split; [constructor | reflexivity].
  - cbn [sourceCalls].
    destruct (sourceCalls names text eventRecord projectRoot rest) as [calls res].
    cbn [snd] in IH.
    destruct source; cbn [snd];
      try (rewrite IH; split;
           [ intros H; constructor; [discriminate | exact H]
           | intros H; inversion H; assumption ]).
    split; [discriminate | intros H; inversion H; congruence].
Qed.

Lemma commandCalls_well_formed source eventName names text eventRecord projectRoot commandDef :
  Forall (fun call =>
            is_blank (hc_command call) = false
            /\ get_prop commandDef "command" = Some (JStr (hc_command call))
            /\ hc_eventName call = eventName
            /\ exists t : Q,
                 hc_timeoutSec call = NFin t
                 /\ (1000 <= (if Qle_bool t 1 then 1 else t) * inject_Z 1000)%Q
                 /\ hc_timeoutMs call
                    = (if Qle_bool overflow_threshold
                            ((if Qle_bool t 1 then 1 else t) * inject_Z 1000)
                       then NInf false
                       else NFin ((if Qle_bool t 1 then 1 else t) * inject_Z 1000))
                 /\ match get_prop commandDef "timeout" with
                    | Some (JNum (NFin given)) => t = given
                    | _ => t = 10%Q
                    end)
         (commandCalls source eventName names text eventRecord projectRoot commandDef).
Proof.
  unfold commandCalls.
  destruct (truthy commandDef); cbn [negb]; [|constructor].
  destruct (get_prop commandDef "command") as [[]|]; try constructor.
  destruct (is_blank s) eqn:Hblank; constructor; [|constructor].
  cbn [hc_command hc_eventName hc_timeoutSec hc_timeoutMs].
  split; [exact Hblank|]. split; [reflexivity|]. split; [reflexivity|].
  assert (Hfloor : forall t : Q,
             (1000 <= (if Qle_bool t 1 then 1 else t) * inject_Z 1000)%Q).
  { intros t. destruct (Qle_bool t 1) eqn:Hle; [vm_compute; discriminate|].
    assert (Hlt : (1 < t)%Q).
    { apply Qnot_le_lt. intros H. apply Qle_bool_iff in H. congruence. }
    apply Qlt_le_weak in Hlt.
    apply (Qmult_le_compat_r _ _ (inject_Z 1000)) in Hlt; [|vm_compute; discriminate].
    exact Hlt. }
  assert (Hscale : forall t : Q,
             num_scale (Math_max (NFin 1) (NFin t)) 1000
             = (if Qle_bool overflow_threshold
                     ((if Qle_bool t 1 then 1 else t) * inject_Z 1000)
                then NInf false
                else NFin ((if Qle_bool t 1 then 1 else t) * inject_Z 1000))).
  { intros t. pose proof (Hfloor t) as Hge.
    assert (Hmax : Math_max (NFin 1) (NFin t) = NFin (if Qle_bool t 1 then 1 else t))
      by (unfold Math_max, num_lt; destruct (Qle_bool t 1); reflexivity).
    rewrite Hmax. unfold num_scale. cbv zeta.
    set (ms := ((if Qle_bool t 1 then 1 else t) * inject_Z 1000)%Q) in *.
    destruct (Qle_bool overflow_threshold ms); [reflexivity|].
    destruct (Qle_bool ms (- overflow_threshold)) eqn:Hneg; [|reflexivity].
    exfalso. apply Qle_bool_iff in Hneg.
    assert (Hlow : (- overflow_threshold < 1000)%Q) by (vm_compute; reflexivity).
    apply (Qlt_irrefl 1000). eapply Qle_lt_trans; [exact Hge|].
    eapply Qle_lt_trans; [exact Hneg|exact Hlow]. }
  destruct (get_prop commandDef "timeout") as [[| |[given| |]| | |]|];
    cbn [Number_isFinite];
    first [ exists given; split; [reflexivity|]; split; [apply Hfloor|];
            split; [apply Hscale|reflexivity]
          | exists 10%Q; split; [reflexivity|]; split; [apply Hfloor|];
            split; [apply Hscale|reflexivity] ].
Qed.

End DispatchFacts.

(** The dispatcher ends normally exactly when the raw type is not the name
    of a property inherited by the event table, the matcher text can be
    built (the command of the payload is not an array that holds an object
    with a [toString] of its own, on which [join] raises) and no hook source
    of the manifest is [null].  When it does, the commands of the plugin
    sources are run first, then those of the top-level sources. *)
Theorem executeEvent_raises_iff `{R : Runtime} (manifest : Manifest) (eventRecord : EventRecord)
    (projectRoot : option string) :
  (snd (executeEvent manifest eventRecord projectRoot) = Ok tt
   <-> CODEX_EVENT_MAP_get (rawType eventRecord) <> Inherited
       /\ buildMatcherText_raises eventRecord = false
       /\ Forall (fun source => source <> JNull) (plugins manifest ++ topHooks manifest))
  /\ (snd (executeEvent manifest eventRecord projectRoot) = Ok tt ->
      fst (executeEvent manifest eventRecord projectRoot)
      = fst (executeEvent {| manifestPath := manifestPath manifest;
                             plugins := plugins manifest; topHooks := [] |}
                          eventRecord projectRoot)
        ++ fst (executeEvent {| manifestPath := manifestPath manifest;
                                plugins := []; topHooks := topHooks manifest |}
                             eventRecord projectRoot)).
Proof.
  assert (Hnames : forall names,
    (snd (if buildMatcherText_raises eventRecord
          then ([], Throw (TypeError "Cannot convert object to primitive value"))
          else sourceCalls names (buildMatcherText eventRecord) eventRecord projectRoot
                           (plugins manifest ++ topHooks manifest)) = Ok tt
     <-> buildMatcherText_raises eventRecord = false
         /\ Forall (fun source => source <> JNull) (plugins manifest ++ topHooks manifest))
    /\ (snd (if buildMatcherText_raises eventRecord
             then ([], Throw (TypeError "Cannot convert object to primitive value"))
             else sourceCalls names (buildMatcherText eventRecord) eventRecord projectRoot
                              (plugins manifest ++ topHooks manifest)) = Ok tt ->
        fst (if buildMatcherText_raises eventRecord
             then ([], Throw (TypeError "Cannot convert object to primitive value"))
             else sourceCalls names (buildMatcherText eventRecord) eventRecord projectRoot
                              (plugins manifest ++ topHooks manifest))
        = fst (if buildMatcherText_raises eventRecord
               then ([], Throw (TypeError "Cannot convert object to primitive value"))
               else sourceCalls names (buildMatcherText eventRecord) eventRecord projectRoot
                                (plugins manifest ++ []))
          ++ fst (if buildMatcherText_raises eventRecord
                  then ([], Throw (TypeError "Cannot convert object to primitive value"))
                  else sourceCalls names (buildMatcherText eventRecord) eventRecord
                                   projectRoot ([] ++ topHooks manifest)))).
  { intros names. destruct (buildMatcherText_raises eventRecord).
    - split; [split; [discriminate|intros [H _]; discriminate H]|discriminate].
    - split.
      + rewrite sourceCalls_ok_iff. split; [intros H; split; [reflexivity|exact H]|tauto].
      + rewrite app_nil_r. cbn [app]. rewrite sourceCalls_app.
        destruct (sourceCalls _ _ _ _ (plugins manifest)) as [calls res].
        destruct res as [u|e]; [|discriminate].
        destruct (sourceCalls _ _ _ _ (topHooks manifest)) as [calls' res']. reflexivity. }
  unfold executeEvent, getAllHookSources, mapEventNames. cbn [plugins topHooks].
  destruct (CODEX_EVENT_MAP_get (rawType eventRecord)) as [mapped| |].
  - destruct (Hnames (mapped ++ [rawType eventRecord])) as [Hiff Hcalls].
    split; [|exact Hcalls].
    rewrite Hiff. split; [intros H; split; [discriminate|exact H]|tauto].
  - split; [split; [discriminate | intros [H _]; congruence] | discriminate].
  - destruct (Hnames [rawType eventRecord]) as [Hiff Hcalls].
    split; [|exact Hcalls].
    rewrite Hiff. split; [intros H; split; [discriminate|exact H]|tauto].
Qed.

(** An approval request whose command array holds an object with a
    [toString] of its own ends the dispatch before any rule is tried. *)
Example executeEvent_raises_example :
  @executeEvent ref_runtime (emptyManifest Fixture.home)
    {| rawType := "exec_approval_request";
       payload := JObj [("command", JArr [JStr "rm"; JObj [("toString", JNum (NFin 1))]])];
       eventTimestampSec := None |} None
  = ([], Throw (TypeError "Cannot convert object to primitive value")).
Proof. vm_compute. reflexivity. Qed.

(** Whatever the manifest holds, every command the dispatcher runs has a
    text that is not blank, belongs to a rule named by one of the expanded
    names of the event, and is given a finite timeout in seconds.  In
    milliseconds the timeout is that of the rule, or one second when that
    is smaller, times 1000: at least 1000, and positive infinity when the
    product overflows. *)
Theorem hook_calls_well_formed `{R : Runtime} (manifest : Manifest) (eventRecord : EventRecord)
    (projectRoot : option string) :
  Forall (fun call =>
            is_blank (hc_command call) = false
            /\ (exists names, mapEventNames (rawType eventRecord) = Ok names
                              /\ In (hc_eventName call) names)
            /\ exists t : Q,
                 hc_timeoutSec call = NFin t
                 /\ (1000 <= (if Qle_bool t 1 then 1 else t) * inject_Z 1000)%Q
                 /\ hc_timeoutMs call
                    = (if Qle_bool overflow_threshold
                            ((if Qle_bool t 1 then 1 else t) * inject_Z 1000)
                       then NInf false
                       else NFin ((if Qle_bool t 1 then 1 else t) * inject_Z 1000)))
         (fst (executeEvent manifest eventRecord projectRoot)).
Proof.
  unfold executeEvent.
  destruct (mapEventNames (rawType eventRecord)) as [names|e]; [|constructor].
  destruct (buildMatcherText_raises eventRecord); [constructor|].
  generalize (getAllHookSources manifest) as sources.
  induction sources as [|source rest IH]; [constructor|].
  cbn [sourceCalls].
  destruct (sourceCalls names (buildMatcherText eventRecord) eventRecord projectRoot rest)
    as [calls res]. cbn [fst] in IH.
  assert (Hsource :
    Forall (fun call =>
              is_blank (hc_command call) = false
              /\ (exists names0, Ok names = Ok names0 /\ In (hc_eventName call) names0)
              /\ exists t : Q,
                   hc_timeoutSec call = NFin t
                   /\ (1000 <= (if Qle_bool t 1 then 1 else t) * inject_Z 1000)%Q
                   /\ hc_timeoutMs call
                      = (if Qle_bool overflow_threshold
                              ((if Qle_bool t 1 then 1 else t) * inject_Z 1000)
                         then NInf false
                         else NFin ((if Qle_bool t 1 then 1 else t) * inject_Z 1000)))
           (flat_map (ruleCalls source names (buildMatcherText eventRecord) eventRecord
                                projectRoot)
                     (array_or_empty (get_prop source "events")))).
  { apply List.Forall_flat_map. apply List.Forall_forall. intros eventDef _.
    apply List.Forall_forall. intros call Hcall.
    pose proof (ruleCalls_eventName _ _ _ _ _ _ _ Hcall) as (Hin & _ & _).
    unfold ruleCalls in Hcall.
    destruct (truthy eventDef); cbn [negb] in Hcall; [|destruct Hcall].
    destruct (get_prop eventDef "eventName") as [[]|]; try destruct Hcall.
    destruct (existsb (String.eqb s) names); cbn [negb] in Hcall; [|destruct Hcall].
    destruct (matchesRule _ _); cbn [negb] in Hcall; [|destruct Hcall].
    apply in_flat_map in Hcall as (commandDef & _ & Hcall).
    pose proof (commandCalls_well_formed source s names (buildMatcherText eventRecord)
                  eventRecord projectRoot commandDef) as Hwf.
    rewrite List.Forall_forall in Hwf.
    destruct (Hwf call Hcall) as (Hb & _ & _ & t & Ht & Hle & Hms & _).
    split; [exact Hb|]. split; [exists names; split; [reflexivity | exact Hin]|].
    exists t. repeat split; assumption. }
  destruct source; cbn [fst]; try (apply Forall_app; split; assumption).
  constructor.
Qed.

(** A timeout of [1e306] seconds overflows in milliseconds. *)
Example timeout_overflow_example :
  map hc_timeoutMs
      (@commandCalls ref_runtime (JObj []) "Stop" ["Stop"] "Stop" stopEvent None
         (JObj [("command", JStr "true"); ("timeout", JNum (NFin (inject_Z (10 ^ 306))))]))
  = [NInf false].
Proof. vm_compute. reflexivity. Qed.

(** ** Normalizer: the two shapes *)

(** Every event record comes from one of two shapes of line.  From an
    [event_msg] envelope the raw type is the [type] of the payload and the
    payload is handed on unchanged.  From a [response_item] envelope the
    raw type is one of the two approval names, so its expanded names are
    [PermissionRequest] and the raw type.  In both cases the timestamp is
    the one [parseEventTimestampSec] reads from the envelope. *)
Theorem parseCodexEvent_shapes `{R : Runtime} (line : string) (eventRecord : EventRecord) :
  parseCodexEvent line = Some eventRecord ->
  exists parsed fields,
    JSON_parse line = Some parsed
    /\ get_prop parsed "payload" = Some (JObj fields)
    /\ eventTimestampSec eventRecord = parseEventTimestampSec parsed
    /\ ((get_prop parsed "type" = Some (JStr "event_msg")
         /\ assoc_get fields "type" = Some (JStr (rawType eventRecord))
         /\ payload eventRecord = JObj fields)
        \/ (get_prop parsed "type" = Some (JStr "response_item")
            /\ assoc_get fields "type" = Some (JStr "function_call")
            /\ (rawType eventRecord = "apply_patch_approval_request"
                \/ rawType eventRecord = "exec_approval_request")
            /\ mapEventNames (rawType eventRecord)
               = Ok ["PermissionRequest"; rawType eventRecord])).
Proof.
  unfold parseCodexEvent.
  destruct (JSON_parse line) as [parsed|]; [|discriminate].
  destruct (is_object (Some parsed)); cbn [negb]; [|discriminate].
  destruct (get_prop parsed "type") as [[| | |type| |]|] eqn:Htype; try discriminate.
  destruct (String.eqb_spec type "event_msg") as [->|Hne1].
  - destruct (get_prop parsed "payload") as [item|] eqn:Hitem; [|discriminate].
    destruct item as [| | | | |fields]; cbn [is_object negb get_prop]; try discriminate.
    + destruct (assoc_get fields "type") as [[| | |t| |]|] eqn:Ht; try discriminate.
      intros H. inversion H; subst. cbn [rawType payload eventTimestampSec].
      exists parsed, fields.
      split; [reflexivity|]. split; [exact Hitem|]. split; [reflexivity|].
      left. split; [exact Htype|]. split; [exact Ht|reflexivity].
  - destruct (String.eqb_spec type "response_item") as [->|Hne2]; [|discriminate].
    destruct (get_prop parsed "payload") as [item|] eqn:Hitem; [|discriminate].
    destruct item as [| | | | |fields]; cbn [is_object negb get_prop]; try discriminate.
    + destruct (assoc_get fields "type") as [[| | |t| |]|] eqn:Ht; try discriminate.
      destruct (String.eqb_spec t "function_call") as [->|]; cbn [negb]; [|discriminate].
      cbv zeta.
      destruct (String.eqb _ ""); [discriminate|].
      destruct (JSON_parse _) as [toolArgs|]; [|discriminate].
      destruct toolArgs as [| | | |items|toolArgs]; cbn [is_object negb get_prop];
        try discriminate.
      destruct (assoc_get toolArgs "sandbox_permissions") as [[| | |perm| |]|];
        try discriminate.
      destruct (String.eqb perm "require_escalated"); cbn [negb]; [|discriminate].
      intros H. inversion H; subst. cbn [rawType payload eventTimestampSec].
      exists parsed, fields.
      split; [reflexivity|]. split; [exact Hitem|]. split; [reflexivity|].
      right. split; [exact Htype|]. split; [exact Ht|].
      destruct (String.eqb _ "apply_patch"); split; auto.
Qed.

Lemma parseCodexEvent_shapes_witness :
  exists eventRecord,
    @parseCodexEvent ref_runtime Fixture.escalatedCall = Some eventRecord
    /\ mapEventNames (rawType eventRecord) = Ok ["PermissionRequest"; rawType eventRecord].
Proof.
  destruct (@parseCodexEvent ref_runtime Fixture.escalatedCall) as [eventRecord|] eqn:Hparse;
    [|vm_compute in Hparse; discriminate Hparse].
  exists eventRecord. split; [reflexivity|].
  destruct (@parseCodexEvent_shapes ref_runtime Fixture.escalatedCall eventRecord Hparse)
    as (parsed & fields & Hp & _ & _ & [(Htype & _)|(_ & _ & _ & Hnames)]).
  - vm_compute in Hp. inversion Hp; subst. vm_compute in Htype. discriminate Htype.
  - exact Hnames.
Defined.

(** ** Replay floor *)

Section FloorFacts.

Context `{R : Runtime}.

Lemma num_lt_of_Z (a b : Z) : num_lt (num_of_Z a) (num_of_Z b) = (a <? b).
Proof.
  unfold num_lt, num_of_Z.
  destruct (Z.ltb_spec a b) as [Hlt|Hge].
  - destruct (Qle_bool (inject_Z b) (inject_Z a)) eqn:Hle; [|reflexivity].
    apply Qle_bool_iff in Hle. rewrite <- Zle_Qle in Hle. lia.
  - assert (Hle : Qle_bool (inject_Z b) (inject_Z a) = true)
      by (apply Qle_bool_iff; rewrite <- Zle_Qle; exact Hge).
    rewrite Hle. reflexivity.
Qed.

Lemma floor_seconds (ms s : Z) : ms / 1000 < s <-> ms < s * 1000.
Proof.
  pose proof (Z.mod_pos_bound ms 1000 ltac:(lia)).
  pose proof (Z.div_mod ms 1000 ltac:(lia)). lia.
Qed.

(** The timestamp of a record is read from the envelope of its line. *)
Lemma parseCodexEvent_timestamp (line : string) (parsed : json) (eventRecord : EventRecord) :
  JSON_parse line = Some parsed ->
  parseCodexEvent line = Some eventRecord ->
  eventTimestampSec eventRecord =
  match get_prop parsed "timestamp" with
  | Some (JStr ts) =>
      if is_blank ts then None
      else match Date_parse ts with
           | Some ms => Some (ms / 1000)
           | None => None
           end
  | _ => None
  end.
Proof.
  intros Hparse.
  set (expected := match get_prop parsed "timestamp" with Some (JStr _) => _ | _ => _ end).
  assert (Hts : is_object (Some parsed) = true -> parseEventTimestampSec parsed = expected)
    by (unfold parseEventTimestampSec; intros ->; reflexivity).
  clearbody expected.
  unfold parseCodexEvent. rewrite Hparse. clear Hparse.
  destruct (is_object (Some parsed)); cbn [negb]; [|discriminate].
  rewrite (Hts eq_refl). clear Hts. cbv zeta.
  repeat (match goal with
          | |- context [if ?b then _ else _] => destruct b
          | |- context [match ?x with _ => _ end] => destruct x
          end; try discriminate).
  all: intros H; inversion H; reflexivity.
Qed.

Lemma processLine_floor (manifest : Manifest) (projectRoot : option string) (line : string)
    (state : State) (world : World) (eventRecord : EventRecord) :
  is_blank line = false ->
  parseCodexEvent line = Some eventRecord ->
  let run := processLine manifest projectRoot line state world in
  if beforeSince (sinceEpochSec state) (eventTimestampSec eventRecord)
  then run = (SkipOld, Ok tt, state, world)
  else checks (snd run) = S (checks world).
Proof.
  intros Hblank Hparse. unfold processLine. rewrite Hblank, Hparse.
  destruct (beforeSince _ _); [reflexivity|].
  destruct (recordAndCheckDuplicateEvent _ _ _) as [duplicate recent].
  destruct duplicate; [reflexivity|].
  destruct (executeEvent manifest eventRecord projectRoot). reflexivity.
Qed.

End FloorFacts.

(** The replay floor counts whole seconds.  Take a line that normalises to
    an event and a state whose floor is [--since=s] for an integer [s].
    When the envelope of the line carries a timestamp that [Date.parse]
    reads as [ms] milliseconds, the line is dropped, with the state, the
    clock and the hooks left as they were, exactly when [s] is positive
    and [ms] is below [s * 1000]; otherwise the line goes on to the
    duplicate check and takes one clock reading.  A line whose envelope
    has no readable timestamp always goes on to the duplicate check. *)
Theorem replay_floor `{R : Runtime} (manifest : Manifest) (projectRoot : option string)
    (line : string) (state : State) (world : World)
    (parsed : json) (eventRecord : EventRecord) (s : Z) :
  is_blank line = false ->
  JSON_parse line = Some parsed ->
  parseCodexEvent line = Some eventRecord ->
  sinceEpochSec state = Some (num_of_Z s) ->
  let run := processLine manifest projectRoot line state world in
  let dropped := run = (SkipOld, Ok tt, state, world) in
  let checked := checks (snd run) = S (checks world) in
  (forall ts ms,
      get_prop parsed "timestamp" = Some (JStr ts) ->
      is_blank ts = false ->
      Date_parse ts = Some ms ->
      (dropped <-> 0 < s /\ ms < s * 1000) /\ (checked <-> ~ (0 < s /\ ms < s * 1000)))
  /\ (eventTimestampSec eventRecord = None -> checked).
Proof.
  intros Hblank Hjson Hparse Hsince run dropped checked.
  pose proof (processLine_floor manifest projectRoot line state world eventRecord
                Hblank Hparse) as Hrun.
  pose proof (parseCodexEvent_timestamp line parsed eventRecord Hjson Hparse) as Hts.
  fold run in Hrun. rewrite Hsince in Hrun.
  assert (Hchecked_not_dropped : checked -> ~ dropped).
  { unfold checked, dropped. intros Hc Hd. rewrite Hd in Hc. cbn in Hc. lia. }
  split.
  - intros ts ms Hprop Hnonblank Hdate.
    rewrite Hprop, Hnonblank, Hdate in Hts. rewrite Hts in Hrun.
    unfold beforeSince in Hrun.
    change (Number_isFinite (num_of_Z s)) with true in Hrun. cbn [andb] in Hrun.
    change (NFin 0) with (num_of_Z 0) in Hrun. rewrite !num_lt_of_Z in Hrun.
    destruct (Z.ltb_spec 0 s) as [Hs|Hs]; cbn [andb] in Hrun.
    + destruct (Z.ltb_spec (ms / 1000) s) as [Hlt|Hge].
      * apply floor_seconds in Hlt. specialize (Hchecked_not_dropped). tauto.
      * assert (~ ms < s * 1000) by (rewrite <- floor_seconds; lia). tauto.
    + assert (~ 0 < s) by lia. tauto.
  - intros Hnone. rewrite Hnone in Hrun.
    unfold beforeSince in Hrun. exact Hrun.
Qed.

Lemma replay_floor_witness :
  let run := @processLine ref_runtime (emptyManifest Fixture.home) None Fixture.taskStarted
               (initialState Fixture.stopOptions) initialWorld in
  run = (SkipOld, Ok tt, initialState Fixture.stopOptions, initialWorld).
Proof.
  intros run.
  destruct (@JSON_parse ref_runtime Fixture.taskStarted) as [parsed|] eqn:Hjson;
    [|vm_compute in Hjson; discriminate Hjson].
  destruct (@parseCodexEvent ref_runtime Fixture.taskStarted) as [eventRecord|] eqn:Hparse;
    [|vm_compute in Hparse; discriminate Hparse].
  pose proof (@replay_floor ref_runtime (emptyManifest Fixture.home) None Fixture.taskStarted
                (initialState Fixture.stopOptions) initialWorld parsed eventRecord
                1772272900 eq_refl Hjson Hparse eq_refl) as [Hfloor _].
  apply (Hfloor "2026-02-28T10:00:00.000Z" 1772272800000).
  - vm_compute in Hjson. inversion Hjson; subst. reflexivity.
  - reflexivity.
  - reflexivity.
  - lia.
Defined.

(** ** The watch lock in a world without other actors *)

Section SeqLockFacts.

Context `{R : Runtime}.

Lemma Number_isInteger_of_Z (z : Z) : Number_isInteger (num_of_Z z) = true.
Proof. cbn. rewrite Z.mod_1_r. reflexivity. Qed.

Lemma num_to_Z_of_Z (z : Z) : num_to_Z (num_of_Z z) = Some z.
Proof. cbn. rewrite Z.mod_1_r, Z.div_1_r. reflexivity. Qed.

Lemma num_strict_eq_of_Z (a b : Z) : num_strict_eq (num_of_Z a) (num_of_Z b) = (a =? b).
Proof. cbn. unfold Qeq_bool. cbn. rewrite !Z.mul_1_r. reflexivity. Qed.

Lemma kill0_In (p : Z) (procs : list Z) :
  existsb (Z.eqb p) procs = true <-> In p procs.
Proof.
  rewrite existsb_exists. split.
  - intros (x & Hin & Heq). apply Z.eqb_eq in Heq. subst. exact Hin.
  - intros Hin. exists p. split; [exact Hin|apply Z.eqb_refl].
Qed.

Lemma isProcessAlive_seq (p : Z) (w : SeqWorld) :
  0 < p ->
  @isProcessAlive SeqWorld seq_env (Some (num_of_Z p)) w = existsb (Z.eqb p) (liveProcesses w).
Proof.
  intros Hp. unfold isProcessAlive.
  rewrite Number_isInteger_of_Z. change (NFin 0) with (num_of_Z 0).
  rewrite num_lt_of_Z. destruct (Z.ltb_spec 0 p); [|lia].
  cbn [negb orb]. rewrite num_to_Z_of_Z. reflexivity.
Qed.

End SeqLockFacts.

(** Mutual exclusion and release, in a world where only bridge processes
    touch the lock file.  Let the runtime read the holder's PID back from
    the payload it writes.  A process that finds no lock file takes the
    lock with one create.  While the lock file holds the payload of
    [holder], any process that tries to acquire gets no handle and leaves
    the file alone as long as [holder] is alive, and takes the lock over
    (unlink, then a second create) once [holder] is dead.  Releasing by
    [holder] removes the file, so that the world is as before the
    acquisition; releasing by any other PID leaves the file in place. *)
Theorem lock_mutual_exclusion `{R : Runtime} (holder other : Z) (t t' : string)
    (procs : list Z) :
  @parseWatchLockPid R (@lockPayload R holder t) = Some (num_of_Z holder) ->
  0 < holder ->
  let free := {| lockFile := None; liveProcesses := procs |} in
  let held := {| lockFile := Some (@lockPayload R holder t); liveProcesses := procs |} in
  let taken := {| lockFile := Some (@lockPayload R other t'); liveProcesses := procs |} in
  @acquireWatchLock R SeqWorld seq_env holder t free = (Ok true, held, [OpWrite])
  /\ (In holder procs ->
      @acquireWatchLock R SeqWorld seq_env other t' held = (Ok false, held, [OpWrite; OpRead]))
  /\ (~ In holder procs ->
      @acquireWatchLock R SeqWorld seq_env other t' held
      = (Ok true, taken, [OpWrite; OpRead; OpUnlink; OpWrite]))
  /\ @releaseWatchLock R SeqWorld seq_env holder false held = (true, free, [OpRead; OpUnlink])
  /\ (other <> holder ->
      @releaseWatchLock R SeqWorld seq_env other false held = (true, held, [OpRead])).
Proof.
  intros Hread Hpos free held taken.
  split; [reflexivity|].
  assert (Halive : @isProcessAlive SeqWorld seq_env
                     (@parseWatchLockPid R (@lockPayload R holder t)) held
                   = existsb (Z.eqb holder) procs)
    by (rewrite Hread; apply isProcessAlive_seq; exact Hpos).
  split; [|split; [|split]].
  - intros Hin. apply kill0_In in Hin.
    unfold acquireWatchLock. cbn [fs_writeLock seq_env held lockFile fs_readLock].
    rewrite Halive, Hin. reflexivity.
  - intros Hdead.
    assert (Hnot : existsb (Z.eqb holder) procs = false).
    { destruct (existsb (Z.eqb holder) procs) eqn:Hex; [|reflexivity].
      apply kill0_In in Hex. contradiction. }
    unfold acquireWatchLock. cbn [fs_writeLock seq_env held lockFile fs_readLock].
    rewrite Halive, Hnot. reflexivity.
  - unfold releaseWatchLock. cbn [fs_readLock seq_env held lockFile].
    rewrite Hread, num_strict_eq_of_Z, Z.eqb_refl. reflexivity.
  - intros Hne. unfold releaseWatchLock. cbn [fs_readLock seq_env held lockFile].
    rewrite Hread, num_strict_eq_of_Z.
    destruct (Z.eqb_spec holder other) as [Heq|_]; [congruence|reflexivity].
Qed.

Lemma lock_mutual_exclusion_witness :
  @acquireWatchLock ref_runtime SeqWorld seq_env 8 Fixture.lockTime
    {| lockFile := Some (@lockPayload ref_runtime 7 Fixture.lockTime);
       liveProcesses := [7; 8] |}
  = (Ok false,
     {| lockFile := Some (@lockPayload ref_runtime 7 Fixture.lockTime);
        liveProcesses := [7; 8] |},
     [OpWrite; OpRead]).
Proof.
  pose proof (@lock_mutual_exclusion ref_runtime 7 8 Fixture.lockTime Fixture.lockTime [7; 8]
                eq_refl eq_refl) as (_ & Hbusy & _).
  apply Hbusy. left. reflexivity.
Defined.

(** ** Priming of session offsets *)

Section PrimeFacts.

Lemma primeSessionOffsets_cons (filePath : string) (files : list string) (state : State) :
  primeSessionOffsets (filePath :: files) state
  = primeSessionOffsets files (primeSessionOffsets [filePath] state).
Proof. reflexivity. Qed.

Lemma primeSessionOffsets_one (filePath : string) (state : State) :
  primeSessionOffsets [filePath] state
  = match offsets state !! filePath with
    | Some _ => state
    | None =>
        {| offsets := <[filePath := 0%nat]> (offsets state);
           remainders := <[filePath := ""]> (remainders state);
           recentEvents := recentEvents state;
           sinceEpochSec := sinceEpochSec state |}
    end.
Proof. reflexivity. Qed.

Lemma primeSessionOffsets_lookup (files : list string) (state : State) (filePath : string) :
  let primed := primeSessionOffsets files state in
  offsets primed !! filePath
  = match offsets state !! filePath with
    | Some offset => Some offset
    | None => if decide (filePath ∈ files) then Some 0%nat else None
    end
  /\ remainders primed !! filePath
     = match offsets state !! filePath with
       | Some _ => remainders state !! filePath
       | None => if decide (filePath ∈ files) then Some "" else remainders state !! filePath
       end
  /\ recentEvents primed = recentEvents state
  /\ sinceEpochSec primed = sinceEpochSec state.
Proof.
  revert state. induction files as [|f files IH]; intros state primed.
  - subst primed. cbn. destruct (offsets state !! filePath); repeat split; reflexivity.
  - subst primed. rewrite primeSessionOffsets_cons.
    destruct (IH (primeSessionOffsets [f] state)) as (Ho & Hr & Hc & Hs).
    rewrite Ho, Hr, Hc, Hs. clear Ho Hr Hc Hs IH.
    rewrite primeSessionOffsets_one.
    destruct (offsets state !! f) as [o|] eqn:Hf.
    + destruct (offsets state !! filePath) as [o'|] eqn:Hp; [repeat split; reflexivity|].
      assert (filePath <> f) by congruence.
      destruct (decide (filePath ∈ files)) as [Hin|Hout].
      * rewrite !decide_True by (apply elem_of_cons; auto). repeat split; reflexivity.
      * rewrite !decide_False by (rewrite elem_of_cons; tauto). repeat split; reflexivity.
    + cbn [offsets remainders recentEvents sinceEpochSec].
      destruct (decide (filePath = f)) as [->|Hne].
      * rewrite !lookup_insert_eq, Hf.
        rewrite !decide_True by (apply elem_of_cons; auto). repeat split; reflexivity.
      * rewrite !lookup_insert_ne by congruence.
        destruct (offsets state !! filePath) as [o'|]; [repeat split; reflexivity|].
        destruct (decide (filePath ∈ files)) as [Hin|Hout].
        -- rewrite !decide_True by (apply elem_of_cons; auto). repeat split; reflexivity.
        -- rewrite !decide_False by (rewrite elem_of_cons; tauto). repeat split; reflexivity.
Qed.

Lemma primeSessionOffsets_known (files : list string) (state : State) :
  Forall (fun f => is_Some (offsets state !! f)) files ->
  primeSessionOffsets files state = state.
Proof.
  induction 1 as [|f files Hknown _ IH]; [reflexivity|].
  destruct Hknown as [o Hf].
  rewrite primeSessionOffsets_cons, primeSessionOffsets_one, Hf. exact IH.
Qed.

End PrimeFacts.

(** Priming never moves a file that is already tracked.  After
    [primeSessionOffsets], a file that had an offset keeps its offset and
    its remainder, so the next pass resumes where the last one stopped; a
    listed file without an offset starts at offset 0 with an empty
    remainder and is therefore read from its beginning; a file that is
    neither keeps no offset.  The duplicate cache and the replay floor are
    untouched, and priming the same list again changes nothing. *)
Theorem primeSessionOffsets_spec (files : list string) (state : State) (filePath : string) :
  let primed := primeSessionOffsets files state in
  (forall size,
      startPosition filePath size primed
      = if decide (is_Some (offsets state !! filePath))
        then startPosition filePath size state
        else (0%nat, if decide (filePath ∈ files) then ""
                     else default "" (remainders state !! filePath)))
  /\ (is_Some (offsets primed !! filePath)
      <-> is_Some (offsets state !! filePath) \/ filePath ∈ files)
  /\ recentEvents primed = recentEvents state
  /\ sinceEpochSec primed = sinceEpochSec state
  /\ primeSessionOffsets files primed = primed.
Proof.
  intros primed.
  destruct (primeSessionOffsets_lookup files state filePath) as (Ho & Hr & Hc & Hs).
  fold primed in Ho, Hr, Hc, Hs.
  split; [|split; [|split; [|split]]]; try assumption.
  - intros size. unfold startPosition. rewrite Ho, Hr.
    destruct (offsets state !! filePath) as [o|].
    + destruct (decide (is_Some _)) as [_|Hnone]; [reflexivity|].
      exfalso. apply Hnone. eauto.
    + destruct (decide (is_Some _)) as [Hsome|_]; [destruct Hsome; discriminate|].
      cbn [default]. change (size <? 0)%nat with false. cbv iota.
      case_decide; reflexivity.
  - rewrite Ho. destruct (offsets state !! filePath) as [o|].
    + split; eauto.
    + destruct (decide (filePath ∈ files)) as [Hin|Hout].
      * split; eauto.
      * split.
        -- intros Hsome. destruct Hsome; discriminate.
        -- intros [Hsome|Hin]; [destruct Hsome; discriminate|contradiction].
  - apply primeSessionOffsets_known. apply Forall_forall. intros f Hin.
    destruct (primeSessionOffsets_lookup files state f) as (Hof & _).
    fold primed in Hof. rewrite Hof.
    destruct (offsets state !! f); [eauto|].
    rewrite decide_True by exact Hin. eauto.
Qed.

(** * Further properties: the reaper of competing watchers *)

Section BlankFacts.

Lemma append_nil (b : string) : "" +:+ b = b.
Proof. reflexivity. Qed.

Lemma string_length_ind (P : string -> Prop) :
  (forall s, (forall t, (String.length t < String.length s)%nat -> P t) -> P s) ->
  forall s, P s.
Proof.
  intros step s. apply step.
  induction s as [|c s IH]; intros t Ht; cbn in Ht; [lia|].
  apply step. intros u Hu. apply IH. lia.
Qed.

Lemma ltrim_unfold (c1 : ascii) (r1 : string) :
  ltrim (String c1 r1)
  = if is_ws c1 then ltrim r1
    else match r1 with
         | EmptyString => String c1 r1
         | String c2 r2 =>
             if is_ws2 c1 c2 then ltrim r2
             else match r2 with
                  | EmptyString => String c1 r1
                  | String c3 r3 => if is_ws3 c1 c2 c3 then ltrim r3 else String c1 r1
                  end
         end.
Proof. reflexivity. Qed.

Lemma only_ws_unfold (c1 : ascii) (r1 : string) :
  only_ws (String c1 r1)
  = if is_ws c1 then only_ws r1
    else match r1 with
         | EmptyString => false
         | String c2 r2 =>
             if is_ws2 c1 c2 then only_ws r2
             else match r2 with
                  | EmptyString => false
                  | String c3 r3 => if is_ws3 c1 c2 c3 then only_ws r3 else false
                  end
         end.
Proof. reflexivity. Qed.

(** A text starts with a white-space character of one, two or three bytes,
    or with none: then [ltrim] keeps it whole. *)
Lemma ws_ind (P : string -> Prop) :
  P "" ->
  (forall c1 r1, is_ws c1 = true -> P r1 -> P (String c1 r1)) ->
  (forall c1 c2 r2,
      is_ws c1 = false -> is_ws2 c1 c2 = true -> P r2 -> P (String c1 (String c2 r2))) ->
  (forall c1 c2 c3 r3,
      is_ws c1 = false -> is_ws2 c1 c2 = false -> is_ws3 c1 c2 c3 = true -> P r3 ->
      P (String c1 (String c2 (String c3 r3)))) ->
  (forall c1 r1,
      ltrim (String c1 r1) = String c1 r1 -> only_ws (String c1 r1) = false ->
      P (String c1 r1)) ->
  forall s, P s.
Proof.
  intros Hnil H1 H2 H3 Hstop s.
  induction s as [s IH] using string_length_ind.
  destruct s as [|c1 r1]; [exact Hnil|].
  destruct (is_ws c1) eqn:Hc1.
  { apply H1; [exact Hc1|]. apply IH. cbn. lia. }
  destruct r1 as [|c2 r2].
  { apply Hstop; [rewrite ltrim_unfold|rewrite only_ws_unfold]; rewrite Hc1; reflexivity. }
  destruct (is_ws2 c1 c2) eqn:Hc2.
  { apply H2; [exact Hc1|exact Hc2|]. apply IH. cbn. lia. }
  destruct r2 as [|c3 r3].
  { apply Hstop; [rewrite ltrim_unfold|rewrite only_ws_unfold]; rewrite Hc1, Hc2;
      reflexivity. }
  destruct (is_ws3 c1 c2 c3) eqn:Hc3.
  { apply H3; [exact Hc1|exact Hc2|exact Hc3|]. apply IH. cbn. lia. }
  apply Hstop; [rewrite ltrim_unfold|rewrite only_ws_unfold]; rewrite Hc1, Hc2, Hc3;
    reflexivity.
Qed.

Lemma ltrim_ws1 (c1 : ascii) (r1 : string) :
  is_ws c1 = true -> ltrim (String c1 r1) = ltrim r1.
Proof. intros H. rewrite ltrim_unfold, H. reflexivity. Qed.

Lemma ltrim_ws2 (c1 c2 : ascii) (r2 : string) :
  is_ws c1 = false -> is_ws2 c1 c2 = true -> ltrim (String c1 (String c2 r2)) = ltrim r2.
Proof. intros H1 H2. rewrite ltrim_unfold, H1, H2. reflexivity. Qed.

Lemma ltrim_ws3 (c1 c2 c3 : ascii) (r3 : string) :
  is_ws c1 = false -> is_ws2 c1 c2 = false -> is_ws3 c1 c2 c3 = true ->
  ltrim (String c1 (String c2 (String c3 r3))) = ltrim r3.
Proof. intros H1 H2 H3. rewrite ltrim_unfold, H1, H2, H3. reflexivity. Qed.

Lemma only_ws_ws1 (c1 : ascii) (r1 : string) :
  is_ws c1 = true -> only_ws (String c1 r1) = only_ws r1.
Proof. intros H. rewrite only_ws_unfold, H. reflexivity. Qed.

Lemma only_ws_ws2 (c1 c2 : ascii) (r2 : string) :
  is_ws c1 = false -> is_ws2 c1 c2 = true ->
  only_ws (String c1 (String c2 r2)) = only_ws r2.
Proof. intros H1 H2. rewrite only_ws_unfold, H1, H2. reflexivity. Qed.

Lemma only_ws_ws3 (c1 c2 c3 : ascii) (r3 : string) :
  is_ws c1 = false -> is_ws2 c1 c2 = false -> is_ws3 c1 c2 c3 = true ->
  only_ws (String c1 (String c2 (String c3 r3))) = only_ws r3.
Proof. intros H1 H2 H3. rewrite only_ws_unfold, H1, H2, H3. reflexivity. Qed.

(** The bytes of white space: one byte below 128, or a lead byte from 192
    followed by continuation bytes from 128 to 191. *)
Lemma is_ws_range (c : ascii) : is_ws c = true -> (nat_of_ascii c < 128)%nat.
Proof.
  unfold is_ws. cbv zeta.
  rewrite orb_true_iff, andb_true_iff, !Nat.leb_le, Nat.eqb_eq. lia.
Qed.

Lemma is_ws2_range (c1 c2 : ascii) :
  is_ws2 c1 c2 = true ->
  (192 <= nat_of_ascii c1 /\ 128 <= nat_of_ascii c2 < 192)%nat.
Proof. unfold is_ws2. rewrite andb_true_iff, !Nat.eqb_eq. lia. Qed.

Lemma is_ws3_range (c1 c2 c3 : ascii) :
  is_ws3 c1 c2 c3 = true ->
  (192 <= nat_of_ascii c1 /\ 128 <= nat_of_ascii c2 < 192
   /\ 128 <= nat_of_ascii c3 < 192)%nat.
Proof.
  unfold is_ws3. cbv zeta.
  rewrite !orb_true_iff, !andb_true_iff, !orb_true_iff, !andb_true_iff,
    !Nat.eqb_eq, !Nat.leb_le.
  lia.
Qed.

Lemma only_ws_head (c : ascii) (w : string) :
  only_ws (String c w) = true ->
  (nat_of_ascii c < 128 \/ 192 <= nat_of_ascii c)%nat.
Proof.
  rewrite only_ws_unfold. destruct (is_ws c) eqn:Hc.
  - intros _. left. apply is_ws_range. exact Hc.
  - destruct w as [|c2 r2]; [discriminate|].
    destruct (is_ws2 c c2) eqn:Hc2.
    + intros _. right. apply is_ws2_range in Hc2. lia.
    + destruct r2 as [|c3 r3]; [discriminate|].
      destruct (is_ws3 c c2 c3) eqn:Hc3; [|discriminate].
      intros _. right. apply is_ws3_range in Hc3. lia.
Qed.

Lemma ltrim_length (s : string) : (String.length (ltrim s) <= String.length s)%nat.
Proof.
  induction s as [|c1 r1 H1 IH|c1 c2 r2 H1 H2 IH|c1 c2 c3 r3 H1 H2 H3 IH|c1 r1 Hfix _]
    using ws_ind.
  - cbn. lia.
  - rewrite ltrim_ws1 by assumption. cbn [String.length]. lia.
  - rewrite ltrim_ws2 by assumption. cbn [String.length]. lia.
  - rewrite ltrim_ws3 by assumption. cbn [String.length]. lia.
  - rewrite Hfix. lia.
Qed.

Lemma ltrim_idempotent (s : string) : ltrim (ltrim s) = ltrim s.
Proof.
  induction s as [|c1 r1 H1 IH|c1 c2 r2 H1 H2 IH|c1 c2 c3 r3 H1 H2 H3 IH|c1 r1 Hfix _]
    using ws_ind.
  - reflexivity.
  - rewrite ltrim_ws1 by assumption. exact IH.
  - rewrite ltrim_ws2 by assumption. exact IH.
  - rewrite ltrim_ws3 by assumption. exact IH.
  - rewrite !Hfix. reflexivity.
Qed.

Lemma only_ws_ltrim (s : string) : only_ws (ltrim s) = only_ws s.
Proof.
  induction s as [|c1 r1 H1 IH|c1 c2 r2 H1 H2 IH|c1 c2 c3 r3 H1 H2 H3 IH|c1 r1 Hfix _]
    using ws_ind.
  - reflexivity.
  - rewrite ltrim_ws1, only_ws_ws1 by assumption. exact IH.
  - rewrite ltrim_ws2, only_ws_ws2 by assumption. exact IH.
  - rewrite ltrim_ws3, only_ws_ws3 by assumption. exact IH.
  - rewrite Hfix. reflexivity.
Qed.

(** [ltrim] leaves nothing exactly of a text of white space. *)
Lemma ltrim_empty (s : string) : ltrim s = "" <-> only_ws s = true.
Proof.
  induction s as [|c1 r1 H1 IH|c1 c2 r2 H1 H2 IH|c1 c2 c3 r3 H1 H2 H3 IH|c1 r1 Hfix Hnot]
    using ws_ind.
  - split; reflexivity.
  - rewrite ltrim_ws1, only_ws_ws1 by assumption. exact IH.
  - rewrite ltrim_ws2, only_ws_ws2 by assumption. exact IH.
  - rewrite ltrim_ws3, only_ws_ws3 by assumption. exact IH.
  - rewrite Hfix, Hnot. split; discriminate.
Qed.

Lemma rtrim_empty (s : string) : rtrim s = "" <-> only_ws s = true.
Proof.
  destruct s as [|c s]; [split; reflexivity|].
  cbn [rtrim]. destruct (only_ws (String c s)); split; try reflexivity; discriminate.
Qed.

Lemma rtrim_all_ws (s : string) : only_ws s = true -> rtrim s = "".
Proof. apply rtrim_empty. Qed.

Lemma is_blank_all_ws (s : string) : is_blank s = true <-> only_ws s = true.
Proof.
  unfold is_blank, trim. rewrite <- only_ws_ltrim, <- rtrim_empty.
  destruct (String.eqb_spec (rtrim (ltrim s)) ""); split; congruence.
Qed.

Lemma rtrim_nonblank (s : string) : is_blank s = false -> rtrim s <> "".
Proof.
  intros Hblank Hempty. apply rtrim_empty in Hempty.
  apply is_blank_all_ws in Hempty. congruence.
Qed.

Lemma split_lines_cons (c : ascii) (s : string) :
  c <> newline ->
  exists first others,
    split_lines s = first :: others /\ split_lines (String c s) = String c first :: others.
Proof.
  intros Hc. cbn [split_lines].
  destruct (Ascii.eqb_spec c newline) as [|_]; [contradiction|].
  destruct (split_lines s) as [|first others] eqn:Hs.
  - destruct s as [|d s]; [discriminate Hs|]. cbn [split_lines] in Hs.
    destruct (Ascii.eqb d newline); [discriminate Hs|].
    destruct (split_lines s); discriminate Hs.
  - exists first, others. split; reflexivity.
Qed.

Lemma high_not_newline (c : ascii) : (128 <= nat_of_ascii c)%nat -> c <> newline.
Proof. intros H ->. change (nat_of_ascii newline) with 10%nat in H. lia. Qed.

Lemma split_lines_all_ws (s : string) :
  only_ws s = true -> Forall (fun line => only_ws line = true) (split_lines s).
Proof.
  induction s as [|c1 r1 H1 IH|c1 c2 r2 H1 H2 IH|c1 c2 c3 r3 H1 H2 H3 IH|c1 r1 _ Hnot]
    using ws_ind.
  - intros _. constructor; [reflexivity|constructor].
  - rewrite only_ws_ws1 by assumption. intros Hs. specialize (IH Hs).
    destruct (Ascii.eqb_spec c1 newline) as [->|Hne].
    + cbn [split_lines]. rewrite Ascii.eqb_refl. constructor; [reflexivity|exact IH].
    + destruct (split_lines_cons c1 r1 Hne) as (first & others & Hr & ->).
      rewrite Hr in IH. inversion IH; subst.
      constructor; [rewrite only_ws_ws1 by assumption|]; assumption.
  - rewrite only_ws_ws2 by assumption. intros Hs. specialize (IH Hs).
    pose proof (is_ws2_range _ _ H2) as Hrange.
    destruct (split_lines_cons c2 r2) as (first & others & Hr & Hr2);
      [apply high_not_newline; lia|].
    destruct (split_lines_cons c1 (String c2 r2)) as (first' & others' & Hr' & ->);
      [apply high_not_newline; lia|].
    rewrite Hr2 in Hr'. inversion Hr'; subst first' others'.
    rewrite Hr in IH. inversion IH; subst.
    constructor; [rewrite only_ws_ws2 by assumption|]; assumption.
  - rewrite only_ws_ws3 by assumption. intros Hs. specialize (IH Hs).
    pose proof (is_ws3_range _ _ _ H3) as Hrange.
    destruct (split_lines_cons c3 r3) as (first & others & Hr & Hr3);
      [apply high_not_newline; lia|].
    destruct (split_lines_cons c2 (String c3 r3)) as (first2 & others2 & Hr2 & Hr2');
      [apply high_not_newline; lia|].
    destruct (split_lines_cons c1 (String c2 (String c3 r3)))
      as (first1 & others1 & Hr1 & ->); [apply high_not_newline; lia|].
    rewrite Hr3 in Hr2. inversion Hr2; subst first2 others2.
    rewrite Hr2' in Hr1. inversion Hr1; subst first1 others1.
    rewrite Hr in IH. inversion IH; subst.
    constructor; [rewrite only_ws_ws3 by assumption|]; assumption.
  - rewrite Hnot. discriminate.
Qed.

(** The lines of a blank text are blank. *)
Lemma split_lines_blank (s : string) (line : string) :
  is_blank s = true -> In line (split_lines s) -> is_blank line = true.
Proof.
  intros Hs Hin. apply is_blank_all_ws in Hs. apply split_lines_all_ws in Hs.
  rewrite List.Forall_forall in Hs. apply is_blank_all_ws. apply Hs. exact Hin.
Qed.

Lemma only_ws_app (a w : string) :
  only_ws a = true -> only_ws w = true -> only_ws (a +:+ w) = true.
Proof.
  intros Ha Hw. revert Ha.
  induction a as [|c1 r1 H1 IH|c1 c2 r2 H1 H2 IH|c1 c2 c3 r3 H1 H2 H3 IH|c1 r1 _ Hnot]
    using ws_ind; rewrite ?append_cons, ?append_nil.
  - intros _. exact Hw.
  - rewrite !only_ws_ws1 by assumption. exact IH.
  - rewrite !only_ws_ws2 by assumption. exact IH.
  - rewrite !only_ws_ws3 by assumption. exact IH.
  - rewrite Hnot. discriminate.
Qed.

(** White space appended to a text that is not white space only does not
    make it so: no white-space character starts with a continuation byte. *)
Lemma only_ws_append_inv (x w : string) :
  only_ws w = true -> only_ws (x +:+ w) = true -> only_ws x = true.
Proof.
  intros Hw. induction x as [x IH] using string_length_ind.
  destruct x as [|c1 r1]; [reflexivity|].
  rewrite ?append_cons, ?append_nil. rewrite (only_ws_unfold c1 (r1 +:+ w)), (only_ws_unfold c1 r1).
  destruct (is_ws c1) eqn:Hc1; [apply IH; cbn; lia|].
  destruct r1 as [|c2 r2]; rewrite ?append_cons, ?append_nil.
  - destruct w as [|d1 w1]; [discriminate|].
    pose proof (only_ws_head _ _ Hw) as Hd1.
    destruct (is_ws2 c1 d1) eqn:H2; [apply is_ws2_range in H2; lia|].
    destruct w1 as [|d2 w2]; [discriminate|].
    destruct (is_ws3 c1 d1 d2) eqn:H3; [apply is_ws3_range in H3; lia|discriminate].
  - destruct (is_ws2 c1 c2) eqn:Hc2; [apply IH; cbn; lia|].
    destruct r2 as [|c3 r3]; rewrite ?append_cons, ?append_nil.
    + destruct w as [|d1 w1]; [discriminate|].
      pose proof (only_ws_head _ _ Hw) as Hd1.
      destruct (is_ws3 c1 c2 d1) eqn:H3; [apply is_ws3_range in H3; lia|discriminate].
    + destruct (is_ws3 c1 c2 c3); [apply IH; cbn; lia|discriminate].
Qed.

Lemma only_ws_append (x w : string) :
  only_ws w = true -> only_ws (x +:+ w) = only_ws x.
Proof.
  intros Hw. destruct (only_ws x) eqn:Hx.
  - apply only_ws_app; assumption.
  - destruct (only_ws (x +:+ w)) eqn:Hxw; [|reflexivity].
    rewrite (only_ws_append_inv x w Hw Hxw) in Hx. discriminate Hx.
Qed.

(** What [rtrim] cuts is white space at the end. *)
Lemma rtrim_prefix (s : string) :
  exists w, s = rtrim s +:+ w /\ only_ws w = true.
Proof.
  induction s as [|c s (w & Hs & Hw)]; [exists ""; split; reflexivity|].
  cbn [rtrim]. destruct (only_ws (String c s)) eqn:Hall.
  - exists (String c s). split; [reflexivity|exact Hall].
  - exists w. split; [|exact Hw]. rewrite ?append_cons, ?append_nil. f_equal. exact Hs.
Qed.

Lemma rtrim_append_ws (a w : string) :
  only_ws w = true -> rtrim (a +:+ w) = rtrim a.
Proof.
  intros Hw. induction a as [|c a IH]; [exact (rtrim_all_ws w Hw)|].
  rewrite append_cons; cbn [rtrim].
  change (String c (a +:+ w)) with (String c a +:+ w).
  rewrite (only_ws_append (String c a) w Hw), IH. reflexivity.
Qed.

Lemma rtrim_idempotent (s : string) : rtrim (rtrim s) = rtrim s.
Proof.
  destruct (rtrim_prefix s) as (w & Hs & Hw).
  rewrite Hs at 2. symmetry. apply rtrim_append_ws. exact Hw.
Qed.

(** A text that [ltrim] keeps whole starts with no white-space character. *)
Lemma ltrim_fixed_inv (c1 : ascii) (t : string) :
  ltrim (String c1 t) = String c1 t ->
  is_ws c1 = false
  /\ match t with
     | EmptyString => True
     | String c2 t2 =>
         is_ws2 c1 c2 = false
         /\ match t2 with
            | EmptyString => True
            | String c3 _ => is_ws3 c1 c2 c3 = false
            end
     end.
Proof.
  assert (Hshrink : forall r p, p <> "" -> ltrim r <> p +:+ r).
  { intros r p Hp Heq. pose proof (ltrim_length r) as Hlen. rewrite Heq in Hlen.
    rewrite length_append in Hlen. destruct p; [contradiction|cbn in Hlen; lia]. }
  rewrite ltrim_unfold. destruct (is_ws c1).
  { intros H. exfalso. apply (Hshrink t (String c1 "")); [discriminate|exact H]. }
  intros H. split; [reflexivity|].
  destruct t as [|c2 t2]; [exact I|]. destruct (is_ws2 c1 c2).
  { exfalso. apply (Hshrink t2 (String c1 (String c2 ""))); [discriminate|exact H]. }
  split; [reflexivity|].
  destruct t2 as [|c3 t3]; [exact I|]. destruct (is_ws3 c1 c2 c3); [|reflexivity].
  exfalso. apply (Hshrink t3 (String c1 (String c2 (String c3 "")))); [discriminate|exact H].
Qed.

(** A text that starts with no white-space character keeps this when it is
    cut. *)
Lemma ltrim_prefix_fixed (p w : string) :
  ltrim (p +:+ w) = p +:+ w -> p <> "" -> ltrim p = p.
Proof.
  intros Hfix Hp. destruct p as [|c1 r1]; [contradiction|].
  rewrite ?append_cons, ?append_nil in Hfix. apply ltrim_fixed_inv in Hfix as [H1 Hrest].
  rewrite ltrim_unfold, H1. destruct r1 as [|c2 r2]; [reflexivity|].
  rewrite ?append_cons, ?append_nil in Hrest. destruct Hrest as [H2 Hrest]. rewrite H2.
  destruct r2 as [|c3 r3]; [reflexivity|].
  rewrite ?append_cons, ?append_nil in Hrest. rewrite Hrest. reflexivity.
Qed.

(** It also keeps this when a text is appended that starts with no
    continuation byte. *)
Lemma ltrim_append_fixed (a w : string) :
  ltrim a = a -> a <> "" ->
  match w with
  | EmptyString => True
  | String d _ => (nat_of_ascii d < 128 \/ 192 <= nat_of_ascii d)%nat
  end ->
  ltrim (a +:+ w) = a +:+ w.
Proof.
  intros Hfix Ha Hw. destruct a as [|c1 r1]; [contradiction|].
  apply ltrim_fixed_inv in Hfix as [H1 Hrest].
  rewrite ?append_cons, ?append_nil. rewrite ltrim_unfold, H1.
  destruct r1 as [|c2 r2]; rewrite ?append_cons, ?append_nil.
  - destruct w as [|d1 w1]; [reflexivity|].
    destruct (is_ws2 c1 d1) eqn:H2; [apply is_ws2_range in H2; lia|].
    destruct w1 as [|d2 w2]; [reflexivity|].
    destruct (is_ws3 c1 d1 d2) eqn:H3; [apply is_ws3_range in H3; lia|reflexivity].
  - destruct Hrest as [H2 Hrest]. rewrite H2.
    destruct r2 as [|c3 r3]; rewrite ?append_cons, ?append_nil.
    + destruct w as [|d1 w1]; [reflexivity|].
      destruct (is_ws3 c1 c2 d1) eqn:H3; [apply is_ws3_range in H3; lia|reflexivity].
    + rewrite Hrest. reflexivity.
Qed.

(** Trimming a trimmed text changes nothing. *)
Lemma trim_idempotent (s : string) : trim (trim s) = trim s.
Proof.
  unfold trim. destruct (rtrim_prefix (ltrim s)) as (w & Hs & Hw).
  assert (Hfix : ltrim (rtrim (ltrim s)) = rtrim (ltrim s)).
  { destruct (String.eqb_spec (rtrim (ltrim s)) "") as [->|Hne]; [reflexivity|].
    apply (ltrim_prefix_fixed _ w); [|exact Hne].
    rewrite <- Hs. apply ltrim_idempotent. }
  rewrite Hfix. apply rtrim_idempotent.
Qed.

Lemma ltrim_chars (s : string) (c : ascii) :
  In c (list_ascii_of_string (ltrim s)) -> In c (list_ascii_of_string s).
Proof.
  induction s as [|c1 r1 H1 IH|c1 c2 r2 H1 H2 IH|c1 c2 c3 r3 H1 H2 H3 IH|c1 r1 Hfix _]
    using ws_ind.
  - exact id.
  - rewrite ltrim_ws1 by assumption. cbn [list_ascii_of_string In]. tauto.
  - rewrite ltrim_ws2 by assumption. cbn [list_ascii_of_string In]. tauto.
  - rewrite ltrim_ws3 by assumption. cbn [list_ascii_of_string In]. tauto.
  - rewrite Hfix. exact id.
Qed.

Lemma rtrim_chars (s : string) (c : ascii) :
  In c (list_ascii_of_string (rtrim s)) -> In c (list_ascii_of_string s).
Proof.
  induction s as [|x s IH]; cbn [rtrim]; [exact id|].
  destruct (only_ws (String x s)); [intros []|].
  cbn [list_ascii_of_string In]. tauto.
Qed.

Lemma trim_chars (s : string) (c : ascii) :
  In c (list_ascii_of_string (trim s)) -> In c (list_ascii_of_string s).
Proof. intros H. apply ltrim_chars, rtrim_chars. exact H. Qed.

End BlankFacts.

Section ReaperFacts.

Context `{R : Runtime}.

Implicit Types (entries : list (Z * Reaper.PidState)) (pid : Z) (state : Reaper.PidState).

Lemma map_get_set_eq entries pid state :
  Reaper.map_get (Reaper.map_set entries pid state) pid = Some state.
Proof.
  induction entries as [|[k v] entries IH]; cbn.
  - rewrite Z.eqb_refl. reflexivity.
  - destruct (Z.eqb_spec k pid) as [->|Hne]; cbn.
    + rewrite Z.eqb_refl. reflexivity.
    + destruct (Z.eqb_spec k pid); [contradiction|exact IH].
Qed.

Lemma map_get_set_ne entries pid pid' state :
  pid <> pid' ->
  Reaper.map_get (Reaper.map_set entries pid state) pid' = Reaper.map_get entries pid'.
Proof.
  intros Hne. induction entries as [|[k v] entries IH]; cbn.
  - destruct (Z.eqb_spec pid pid'); [contradiction|reflexivity].
  - destruct (Z.eqb_spec k pid) as [->|Hk]; cbn.
    + destruct (Z.eqb_spec pid pid'); [contradiction|reflexivity].
    + destruct (Z.eqb_spec k pid'); [reflexivity|exact IH].
Qed.

Lemma map_get_None_keys entries pid :
  Reaper.map_get entries pid = None <-> ~ In pid (map fst entries).
Proof.
  induction entries as [|[k v] entries IH]; cbn; [tauto|].
  destruct (Z.eqb_spec k pid) as [->|Hne].
  - split; [discriminate | intros H; exfalso; apply H; left; reflexivity].
  - rewrite IH. split; [intros H [Heq|Hin]; [contradiction | exact (H Hin)] | tauto].
Qed.

Lemma map_set_keys entries pid state :
  map fst (Reaper.map_set entries pid state)
  = match Reaper.map_get entries pid with
    | Some _ => map fst entries
    | None => map fst entries ++ [pid]
    end.
Proof.
  induction entries as [|[k v] entries IH]; cbn; [reflexivity|].
  destruct (Z.eqb_spec k pid) as [->|Hne]; cbn; [reflexivity|].
  rewrite IH. destruct (Reaper.map_get entries pid); reflexivity.
Qed.

Lemma In_map_get entries pid state :
  NoDup (map fst entries) -> In (pid, state) entries ->
  Reaper.map_get entries pid = Some state.
Proof.
  induction entries as [|[k v] entries IH]; cbn; [tauto|].
  intros Hnodup [Heq|Hin].
  - inversion Heq; subst. rewrite Z.eqb_refl. reflexivity.
  - inversion Hnodup as [|? ? Hk Hrest]; subst.
    destruct (Z.eqb_spec k pid) as [->|Hne]; [|apply IH; assumption].
    exfalso. apply Hk. apply list_elem_of_In.
    change pid with (fst (pid, state)). apply in_map. exact Hin.
Qed.

Lemma map_set_NoDup entries pid state :
  NoDup (map fst entries) -> NoDup (map fst (Reaper.map_set entries pid state)).
Proof.
  intros Hnodup. rewrite map_set_keys.
  destruct (Reaper.map_get entries pid) eqn:Hget; [exact Hnodup|].
  apply NoDup_app. split; [exact Hnodup|]. split; [|apply NoDup_singleton].
  intros x Hx Hin. apply list_elem_of_In in Hx, Hin.
  destruct Hin as [<-|[]]. apply map_get_None_keys in Hget. contradiction.
Qed.

(** [Number(record.pid)] passes the three tests of the loop exactly when it
    is a positive integer other than [process.pid]. *)
Lemma recordPid_spec (ownPid : Z) (record : json) pid :
  Reaper.recordPid ownPid record = Some pid
  <-> num_strict_eq (Reaper.js_toNumber (get_prop record "pid")) (num_of_Z pid) = true
      /\ 0 < pid /\ pid <> ownPid.
Proof.
  unfold Reaper.recordPid.
  destruct (Reaper.js_toNumber (get_prop record "pid")) as [[a b]| |];
    cbn [Number_isInteger negb orb num_strict_eq num_of_Z];
    [|split; [discriminate|intros [H _]; discriminate H]..].
  unfold Reaper.num_le, num_to_Z, Qle_bool, Qeq_bool, inject_Z. cbn [Qnum Qden].
  rewrite !Z.mul_1_r, Z.mul_0_l.
  pose proof (Z.div_mod a (Z.pos b) ltac:(lia)) as Hdiv.
  set (d := a / Z.pos b) in *. clearbody d.
  destruct (Z.eqb_spec (a mod Z.pos b) 0) as [Hmod|Hmod]; cbn [negb orb].
  - rewrite Hmod, Z.add_0_r in Hdiv.
    destruct (Z.leb_spec a 0) as [Hle|Hpos]; cbn [orb].
    + split; [discriminate|]. intros (Heq & Hp & _). apply Z.eqb_eq in Heq. nia.
    + destruct (Z.eqb_spec a (ownPid * Z.pos b)) as [Hown|Hother].
      * split; [discriminate|]. intros (Heq & _ & Hne). apply Z.eqb_eq in Heq.
        exfalso. apply Hne. nia.
      * split.
        -- intros H. injection H as <-. split; [apply Z.eqb_eq; lia|].
           split; [nia|]. intros ->. apply Hother. lia.
        -- intros (Heq & _). apply Z.eqb_eq in Heq. f_equal. nia.
  - split; [discriminate|]. intros (Heq & _). apply Z.eqb_eq in Heq.
    exfalso. apply Hmod. rewrite Heq. apply Z.mod_mul. lia.
Qed.

Lemma is_string_spec (v : option json) (s : string) :
  Reaper.is_string v s = true <-> v = Some (JStr s).
Proof.
  destruct v as [[| | |x| |]|]; cbn; try (split; discriminate).
  destruct (String.eqb_spec x s) as [->|Hne]; split; try discriminate; try reflexivity.
  intros H. inversion H. contradiction.
Qed.

(** The line makes the scan raise: it is not blank and decodes to [null],
    or to a record whose PID [Number] cannot convert. *)
Local Abbreviation line_raises line :=
  (is_blank line = false
   /\ exists record,
        JSON_parse line = Some record
        /\ (record = JNull \/ Reaper.toNumber_raises (get_prop record "pid") = true)).

(** One line either raises, or leaves the map as it was, or rewrites the
    entry of the PID of its record. *)
Lemma scanLine_cases (ownPid : Z) (line : string) entries :
  (line_raises line /\ exists e, Reaper.scanLine ownPid line entries = Throw e)
  \/ (~ line_raises line
      /\ (Reaper.scanLine ownPid line entries = Ok entries
          \/ exists record pid,
               is_blank line = false
               /\ JSON_parse line = Some record
               /\ Reaper.recordPid ownPid record = Some pid
               /\ Reaper.scanLine ownPid line entries
                  = Ok (Reaper.map_set entries pid
                          (Reaper.updateState record
                             (default Reaper.freshState (Reaper.map_get entries pid)))))).
Proof.
  unfold Reaper.scanLine.
  destruct (is_blank line) eqn:Hblank;
    [right; split; [intros [H _]; discriminate H|left; reflexivity]|].
  destruct (JSON_parse line) as [record|] eqn:Hparse;
    [|right; split; [intros (_ & r & H & _); discriminate H|left; reflexivity]].
  assert (Hnull : record = JNull \/ record <> JNull)
    by (destruct record; [left; reflexivity|right; discriminate..]).
  destruct Hnull as [->|Hnot].
  { left. split; [|eexists; reflexivity].
    split; [reflexivity|]. exists JNull. split; [reflexivity|left; reflexivity]. }
  destruct (Reaper.toNumber_raises (get_prop record "pid")) eqn:Hraises.
  { left. split; [|destruct record; eexists; reflexivity].
    split; [reflexivity|]. exists record. split; [reflexivity|right; exact Hraises]. }
  right. split.
  { intros (_ & r & Hr & [Hn|Hp]); inversion Hr; subst r; [contradiction|congruence]. }
  assert (Hscan : match record with
                  | JNull => Throw (TypeError "Cannot read properties of null (reading 'pid')")
                  | _ =>
                      match Reaper.recordPid ownPid record with
                      | None => Ok entries
                      | Some pid =>
                          Ok (Reaper.map_set entries pid
                                (Reaper.updateState record
                                   (default Reaper.freshState (Reaper.map_get entries pid))))
                      end
                  end
                  = match Reaper.recordPid ownPid record with
                    | None => Ok entries
                    | Some pid =>
                        Ok (Reaper.map_set entries pid
                              (Reaper.updateState record
                                 (default Reaper.freshState (Reaper.map_get entries pid))))
                    end)
    by (destruct record; [contradiction|reflexivity..]).
  rewrite Hscan.
  destruct (Reaper.recordPid ownPid record) as [pid|] eqn:Hpid; [|left; reflexivity].
  right. exists record, pid.
  split; [reflexivity|]. split; [reflexivity|]. split; [exact Hpid|reflexivity].
Qed.

End ReaperFacts.

Section ReaperScan.

Context `{R : Runtime}.

Implicit Types (entries : list (Z * Reaper.PidState)) (pid : Z) (state : Reaper.PidState).

(** [record] is the start of a watcher [pid] of [home] and [project]. *)
Local Abbreviation watch_start record pid home project :=
  (num_strict_eq (Reaper.js_toNumber (get_prop record "pid")) (num_of_Z pid) = true
   /\ get_prop record "kind" = Some (JStr "bridge-start")
   /\ get_prop record "mode" = Some (JStr "watch")
   /\ Reaper.string_or_empty (get_prop record "codexHome") = home
   /\ Reaper.string_or_empty (get_prop record "projectRoot") = project).

(** What the scan knows of the PIDs it tracks after the lines [seen]. *)
Local Abbreviation tracked ownPid seen entries :=
  (NoDup (map fst entries)
   /\ forall pid state,
        Reaper.map_get entries pid = Some state ->
        0 < pid /\ pid <> ownPid
        /\ (Reaper.isWatch state = true ->
            exists line record,
              In line seen /\ is_blank line = false /\ JSON_parse line = Some record
              /\ watch_start record pid (Reaper.codexHome state) (Reaper.projectRoot state))).

Lemma updateState_start (record : json) state :
  get_prop record "kind" = Some (JStr "bridge-start") ->
  get_prop record "mode" = Some (JStr "watch") ->
  Reaper.isWatch (Reaper.updateState record state) = true
  /\ Reaper.isStopped (Reaper.updateState record state) = false
  /\ Reaper.codexHome (Reaper.updateState record state)
     = Reaper.string_or_empty (get_prop record "codexHome")
  /\ Reaper.projectRoot (Reaper.updateState record state)
     = Reaper.string_or_empty (get_prop record "projectRoot").
Proof.
  intros Hkind Hmode. unfold Reaper.updateState. rewrite Hkind, Hmode. cbn.
  repeat split; reflexivity.
Qed.

Lemma updateState_other (record : json) state :
  ~ (get_prop record "kind" = Some (JStr "bridge-start")
     /\ get_prop record "mode" = Some (JStr "watch")) ->
  Reaper.isWatch (Reaper.updateState record state) = Reaper.isWatch state
  /\ Reaper.codexHome (Reaper.updateState record state) = Reaper.codexHome state
  /\ Reaper.projectRoot (Reaper.updateState record state) = Reaper.projectRoot state
  /\ (Reaper.isStopped state = true ->
      Reaper.isStopped (Reaper.updateState record state) = true)
  /\ (get_prop record "kind" = Some (JStr "bridge-stop") ->
      get_prop record "mode" = Some (JStr "watch") ->
      Reaper.isStopped (Reaper.updateState record state) = true).
Proof.
  intros Hnot. unfold Reaper.updateState.
  destruct (Reaper.is_string (get_prop record "kind") "bridge-start"
            && Reaper.is_string (get_prop record "mode") "watch") eqn:Hstart.
  - exfalso. apply Hnot. apply andb_true_iff in Hstart as [Hk Hm].
    apply is_string_spec in Hk, Hm. split; assumption.
  - destruct (Reaper.is_string (get_prop record "kind") "bridge-stop"
              && Reaper.is_string (get_prop record "mode") "watch") eqn:Hstop; cbn.
    + repeat split; reflexivity.
    + repeat split; try reflexivity; try tauto.
      intros Hk Hm. rewrite Hk, Hm in Hstop. cbn in Hstop. discriminate Hstop.
Qed.

Lemma start_or_not (record : json) :
  (get_prop record "kind" = Some (JStr "bridge-start")
   /\ get_prop record "mode" = Some (JStr "watch"))
  \/ ~ (get_prop record "kind" = Some (JStr "bridge-start")
        /\ get_prop record "mode" = Some (JStr "watch")).
Proof.
  destruct (Reaper.is_string (get_prop record "kind") "bridge-start") eqn:Hk.
  - destruct (Reaper.is_string (get_prop record "mode") "watch") eqn:Hm.
    + left. apply is_string_spec in Hk, Hm. split; assumption.
    + right. intros [_ H]. apply is_string_spec in H. congruence.
  - right. intros [H _]. apply is_string_spec in H. congruence.
Qed.

Lemma scanLine_tracked (ownPid : Z) (line : string) (seen : list string) entries entries' :
  tracked ownPid seen entries ->
  Reaper.scanLine ownPid line entries = Ok entries' ->
  tracked ownPid (seen ++ [line]) entries'.
Proof.
  intros [Hnodup Hinv] Hscan.
  assert (Hweaken : forall pid state,
             Reaper.map_get entries pid = Some state ->
             0 < pid /\ pid <> ownPid
             /\ (Reaper.isWatch state = true ->
                 exists line' record,
                   In line' (seen ++ [line]) /\ is_blank line' = false
                   /\ JSON_parse line' = Some record
                   /\ watch_start record pid (Reaper.codexHome state)
                                  (Reaper.projectRoot state))).
  { intros pid state Hget. destruct (Hinv pid state Hget) as (Hpos & Hown & Hw).
    split; [exact Hpos|]. split; [exact Hown|]. intros Hwatch.
    destruct (Hw Hwatch) as (line' & record & Hin & Hrest).
    exists line', record. split; [apply in_or_app; left; exact Hin|exact Hrest]. }
  destruct (scanLine_cases ownPid line entries)
    as [(_ & e & Hthrow)|(_ & [Hsame|(record & p & Hblank & Hparse & Hpid & Hset)])].
  - congruence.
  - rewrite Hsame in Hscan. inversion Hscan; subst entries'.
    split; [exact Hnodup|exact Hweaken].
  - rewrite Hset in Hscan. inversion Hscan; subst entries'. clear Hscan Hset.
    split; [apply map_set_NoDup; exact Hnodup|].
    intros pid state Hget.
    destruct (Z.eq_dec p pid) as [->|Hne];
      [|rewrite map_get_set_ne in Hget by exact Hne; exact (Hweaken pid state Hget)].
    rewrite map_get_set_eq in Hget. inversion Hget; subst state. clear Hget.
    pose proof Hpid as Hspec. apply recordPid_spec in Hspec as (Heq & Hpos & Hown).
    split; [exact Hpos|]. split; [exact Hown|]. intros Hwatch.
    destruct (start_or_not record) as [[Hkind Hmode]|Hnot].
    + destruct (updateState_start record
                  (default Reaper.freshState (Reaper.map_get entries pid)) Hkind Hmode)
        as (_ & _ & Hhome & Hproject).
      exists line, record. split; [apply in_or_app; right; left; reflexivity|].
      split; [exact Hblank|]. split; [exact Hparse|].
      rewrite Hhome, Hproject. repeat split; assumption.
    + destruct (updateState_other record
                  (default Reaper.freshState (Reaper.map_get entries pid)) Hnot)
        as (Hw & Hhome & Hproject & _).
      rewrite Hw in Hwatch. rewrite Hhome, Hproject.
      destruct (Reaper.map_get entries pid) as [old|] eqn:Hold; [|discriminate Hwatch].
      destruct (Hweaken pid old Hold) as (_ & _ & Hprov). exact (Hprov Hwatch).
Qed.

Lemma scanLines_tracked (ownPid : Z) (lines seen : list string) entries entries' :
  tracked ownPid seen entries ->
  Reaper.scanLines ownPid lines entries = Ok entries' ->
  tracked ownPid (seen ++ lines) entries'.
Proof.
  revert seen entries. induction lines as [|line lines IH]; intros seen entries Hinv Hscan.
  - cbn in Hscan. inversion Hscan; subst. rewrite app_nil_r. exact Hinv.
  - cbn [Reaper.scanLines] in Hscan.
    destruct (Reaper.scanLine ownPid line entries) as [entries1|e] eqn:Hline;
      [|discriminate Hscan].
    pose proof (scanLine_tracked ownPid line seen entries entries1 Hinv Hline) as Hinv1.
    pose proof (IH (seen ++ [line]) entries1 Hinv1 Hscan) as Hfinal.
    rewrite <- app_assoc in Hfinal. exact Hfinal.
Qed.

Lemma scanLines_app (ownPid : Z) (before after : list string) entries :
  Reaper.scanLines ownPid (before ++ after) entries
  = match Reaper.scanLines ownPid before entries with
    | Ok entries' => Reaper.scanLines ownPid after entries'
    | Throw e => Throw e
    end.
Proof.
  revert entries. induction before as [|line before IH]; intros entries; [reflexivity|].
  cbn [app Reaper.scanLines].
  destruct (Reaper.scanLine ownPid line entries); [apply IH|reflexivity].
Qed.

Lemma scanLines_raises (ownPid : Z) (lines : list string) entries :
  (exists e, Reaper.scanLines ownPid lines entries = Throw e)
  <-> exists line,
        In line lines /\ is_blank line = false
        /\ exists record,
             JSON_parse line = Some record
             /\ (record = JNull \/ Reaper.toNumber_raises (get_prop record "pid") = true).
Proof.
  revert entries. induction lines as [|line lines IH]; intros entries.
  - cbn. split; [intros [e H]; discriminate H|intros (line & [] & _)].
  - cbn [Reaper.scanLines].
    destruct (scanLine_cases ownPid line entries) as [(Hraises & e & Hthrow)|(Hnot & Hok)].
    + rewrite Hthrow. split; [|intros _; exists e; reflexivity].
      intros _. exists line. split; [left; reflexivity|exact Hraises].
    + assert (Hsome : exists entries', Reaper.scanLine ownPid line entries = Ok entries').
      { destruct Hok as [Hsame|(record & pid & _ & _ & _ & Hset)]; eexists; eassumption. }
      destruct Hsome as [entries' Hline]. rewrite Hline, IH.
      split.
      * intros (line' & Hin & Hrest). exists line'. split; [right; exact Hin|exact Hrest].
      * intros (line' & [<-|Hin] & Hraises).
        -- exfalso. exact (Hnot Hraises).
        -- exists line'. split; [exact Hin|exact Hraises].
Qed.

(** A stopped watcher stays stopped while no new start of it is read. *)
Lemma scanLines_stopped (ownPid : Z) (lines : list string) entries entries' pid :
  (forall line record,
      In line lines -> JSON_parse line = Some record ->
      num_strict_eq (Reaper.js_toNumber (get_prop record "pid")) (num_of_Z pid) = true ->
      ~ (get_prop record "kind" = Some (JStr "bridge-start")
         /\ get_prop record "mode" = Some (JStr "watch"))) ->
  (exists state, Reaper.map_get entries pid = Some state /\ Reaper.isStopped state = true) ->
  Reaper.scanLines ownPid lines entries = Ok entries' ->
  exists state, Reaper.map_get entries' pid = Some state /\ Reaper.isStopped state = true.
Proof.
  revert entries. induction lines as [|line lines IH]; intros entries Hquiet Hstopped Hscan.
  - cbn in Hscan. inversion Hscan; subst. exact Hstopped.
  - cbn [Reaper.scanLines] in Hscan.
    destruct (Reaper.scanLine ownPid line entries) as [entries1|e] eqn:Hline;
      [|discriminate Hscan].
    apply (IH entries1); [intros l r Hin; apply Hquiet; right; exact Hin| |exact Hscan].
    destruct (scanLine_cases ownPid line entries)
      as [(_ & e & Hthrow)|(_ & [Hsame|(record & p & Hblank & Hparse & Hpid & Hset)])].
    + congruence.
    + rewrite Hsame in Hline. inversion Hline; subst. exact Hstopped.
    + rewrite Hset in Hline. inversion Hline; subst entries1. clear Hline Hset.
      destruct (Z.eq_dec p pid) as [->|Hne];
        [|rewrite map_get_set_ne by exact Hne; exact Hstopped].
      rewrite map_get_set_eq. eexists. split; [reflexivity|].
      destruct Hstopped as (old & Hold & Hflag). rewrite Hold. cbn [default].
      apply recordPid_spec in Hpid as (Heq & _).
      pose proof (Hquiet line record (or_introl eq_refl) Hparse Heq) as Hnot.
      destruct (updateState_other record old Hnot) as (_ & _ & _ & Hkeep & _).
      exact (Hkeep Hflag).
Qed.

Lemma filter_keys_NoDup (f : Z * Reaper.PidState -> bool) entries :
  NoDup (map fst entries) -> NoDup (map fst (List.filter f entries)).
Proof.
  induction entries as [|[k v] entries IH]; cbn; [tauto|].
  intros Hnodup. inversion Hnodup as [|? ? Hk Hrest]; subst.
  destruct (f (k, v)); cbn; [|apply IH; exact Hrest].
  constructor; [|apply IH; exact Hrest].
  intros Hin. apply Hk. apply list_elem_of_In in Hin. apply list_elem_of_In.
  apply in_map_iff in Hin as ([k' v'] & Heq & Hin'). cbn in Heq. subst k'.
  apply filter_In in Hin' as [Hin' _].
  change k with (fst (k, v')). apply in_map. exact Hin'.
Qed.

Lemma scanLines_from_empty (ownPid : Z) (lines : list string) entries :
  Reaper.scanLines ownPid lines [] = Ok entries -> tracked ownPid lines entries.
Proof.
  intros Hscan. apply (scanLines_tracked ownPid lines [] [] entries); [|exact Hscan].
  split; [constructor|]. intros pid state H. discriminate H.
Qed.

(** A normal end of the reaper is either the early return, with nothing
    signalled, or the scan of the tail followed by the loop over the PIDs. *)
Lemma cleanup_ok (ownPid : Z) (home : string) (project : option string)
    (debugLogPath debugLog : option string) (nowMs : Z) (pids : list Z) :
  Reaper.cleanupCompetingWatchers ownPid home project debugLogPath debugLog nowMs = Ok pids ->
  pids = []
  \/ exists entries,
       debugLogPath <> None
       /\ is_blank (Reaper.readTailText debugLog Reaper.WATCH_CLEANUP_LOG_TAIL_BYTES) = false
       /\ Reaper.scanLines ownPid
            (split_lines (Reaper.readTailText debugLog Reaper.WATCH_CLEANUP_LOG_TAIL_BYTES))
            [] = Ok entries
       /\ pids = map fst (List.filter
                            (fun entry => Reaper.isCandidate home project nowMs (snd entry))
                            entries).
Proof.
  unfold Reaper.cleanupCompetingWatchers. intros Hrun.
  destruct debugLogPath as [logPath|]; [|left; congruence].
  destruct (String.eqb logPath ""); [left; congruence|].
  destruct (is_blank (Reaper.readTailText debugLog Reaper.WATCH_CLEANUP_LOG_TAIL_BYTES))
    eqn:Hblank; [left; congruence|].
  destruct (Reaper.scanLines ownPid _ []) as [entries|e] eqn:Hscan; [|discriminate Hrun].
  right. exists entries. split; [discriminate|]. split; [reflexivity|].
  split; [reflexivity|congruence].
Qed.

End ReaperScan.

(** Whom the reaper signals.  When [cleanupCompetingWatchers] ends
    normally, no PID is signalled twice, and every PID it signals is a
    positive integer other than [process.pid] for which a non-blank line of
    the tail of the debug log decodes to a [bridge-start] record in mode
    [watch] with that PID, the Codex home of the caller and the project
    root of the caller (the empty string when the caller has none).
    Without a debug log path, or without a debug log file, nothing is
    signalled. *)
Theorem reaper_targets `{R : Runtime} (ownPid : Z) (home : string) (project : option string)
    (debugLogPath debugLog : option string) (nowMs : Z) (pids : list Z) :
  Reaper.cleanupCompetingWatchers ownPid home project debugLogPath debugLog nowMs = Ok pids ->
  NoDup pids
  /\ (forall pid,
        In pid pids ->
        0 < pid /\ pid <> ownPid
        /\ exists line record,
             In line (split_lines
                        (Reaper.readTailText debugLog Reaper.WATCH_CLEANUP_LOG_TAIL_BYTES))
             /\ is_blank line = false
             /\ JSON_parse line = Some record
             /\ num_strict_eq (Reaper.js_toNumber (get_prop record "pid")) (num_of_Z pid)
                = true
             /\ get_prop record "kind" = Some (JStr "bridge-start")
             /\ get_prop record "mode" = Some (JStr "watch")
             /\ Reaper.string_or_empty (get_prop record "codexHome") = home
             /\ Reaper.string_or_empty (get_prop record "projectRoot") = default "" project)
  /\ (debugLogPath = None \/ debugLog = None -> pids = []).
Proof.
  intros Hrun.
  destruct (cleanup_ok ownPid home project debugLogPath debugLog nowMs pids Hrun)
    as [->|(entries & Hpath & Hblank & Hscan & ->)].
  - split; [constructor|]. split; [intros pid []|reflexivity].
  - destruct (scanLines_from_empty ownPid _ entries Hscan) as [Hnodup Hinv].
    split; [apply filter_keys_NoDup; exact Hnodup|]. split.
    + intros pid Hin. apply in_map_iff in Hin as ([k state] & Hk & Hin). cbn in Hk. subst k.
      apply filter_In in Hin as [Hin Hcand]. cbn [snd] in Hcand.
      apply (In_map_get entries pid state Hnodup) in Hin.
      destruct (Hinv pid state Hin) as (Hpos & Hown & Hprov).
      split; [exact Hpos|]. split; [exact Hown|].
      unfold Reaper.isCandidate in Hcand.
      apply andb_true_iff in Hcand as [Hcand _].
      apply andb_true_iff in Hcand as [Hcand Hproject'].
      apply andb_true_iff in Hcand as [Hcand Hhome'].
      apply andb_true_iff in Hcand as [Hwatch _].
      apply String.eqb_eq in Hhome', Hproject'.
      destruct (Hprov Hwatch) as (line & record & Hline & Hnonblank & Hparse
                                  & Hpid & Hkind & Hmode & Hhome & Hproject).
      exists line, record. repeat (split; [assumption|]).
      split; congruence.
    + intros [Hnone|Hlog]; [contradiction|].
      subst debugLog. cbn in Hblank. discriminate Hblank.
Qed.

Lemma reaper_targets_witness :
  @Reaper.cleanupCompetingWatchers ref_runtime 7 Fixture.home None
    (Some "/home/u/.codex/log/plugin-bridge.log") (Some Reaper.debugLog) Reaper.now
  = Ok [4242]
  /\ NoDup [4242].
Proof.
  split; [vm_compute; reflexivity|].
  apply (@reaper_targets ref_runtime 7 Fixture.home None
           (Some "/home/u/.codex/log/plugin-bridge.log") (Some Reaper.debugLog) Reaper.now
           [4242]).
  vm_compute. reflexivity.
Defined.

(** When the reaper raises.  [cleanupCompetingWatchers] raises exactly
    when it has a debug log path and some non-blank line of the tail of
    the debug log decodes to [null], or to a record whose [pid] the call
    [Number(record.pid)] cannot convert (an object with a [toString] of its
    own, or an array that holds one): both the reading of [record.pid] and
    its conversion are outside the [try] that guards [JSON.parse].  No
    signal is sent then.  The file system is taken not to fail on the
    debug log. *)
Theorem reaper_raises_iff `{R : Runtime} (ownPid : Z) (home : string)
    (project : option string) (debugLogPath debugLog : option string) (nowMs : Z) :
  (exists e,
      Reaper.cleanupCompetingWatchers ownPid home project debugLogPath debugLog nowMs
      = Throw e)
  <-> (exists logPath, debugLogPath = Some logPath /\ logPath <> "")
      /\ exists line,
           In line (split_lines
                      (Reaper.readTailText debugLog Reaper.WATCH_CLEANUP_LOG_TAIL_BYTES))
           /\ is_blank line = false
           /\ exists record,
                JSON_parse line = Some record
                /\ (record = JNull
                    \/ Reaper.toNumber_raises (get_prop record "pid") = true).
Proof.
  unfold Reaper.cleanupCompetingWatchers.
  destruct debugLogPath as [logPath|];
    [|split; [intros [e H]; discriminate H|intros [(p & H & _) _]; discriminate H]].
  destruct (String.eqb_spec logPath "") as [->|Hpath];
    [split; [intros [e H]; discriminate H|intros [(p & H & Hne) _]; congruence]|].
  set (tailText := Reaper.readTailText debugLog Reaper.WATCH_CLEANUP_LOG_TAIL_BYTES).
  destruct (is_blank tailText) eqn:Hblank.
  - split; [intros [e H]; discriminate H|].
    intros (_ & line & Hin & Hnonblank & _).
    pose proof (split_lines_blank tailText line Hblank Hin). congruence.
  - rewrite <- (scanLines_raises ownPid (split_lines tailText) []).
    destruct (Reaper.scanLines ownPid (split_lines tailText) []) as [entries|e].
    + split; [intros [e H]; discriminate H|intros (_ & e & H); discriminate H].
    + split; [intros _; split; [exists logPath; split; [reflexivity|exact Hpath]|]|];
        eexists; reflexivity.
Qed.

(** A record whose PID is an object with a [toString] of its own makes the
    reaper raise, as a [null] record does. *)
Example reaper_raises_example :
  @Reaper.cleanupCompetingWatchers ref_runtime 7 Fixture.home None
    (Some "/home/u/.codex/log/plugin-bridge.log")
    (Some (dq "{'pid':{'toString':1},'kind':'bridge-start','mode':'watch'}")) Reaper.now
  = Throw (TypeError "Cannot convert object to primitive value")
  /\ @Reaper.cleanupCompetingWatchers ref_runtime 7 Fixture.home None
       (Some "/home/u/.codex/log/plugin-bridge.log") (Some "null") Reaper.now
     = Throw (TypeError "Cannot read properties of null (reading 'pid')").
Proof. split; vm_compute; reflexivity. Qed.

(** A watcher that logged its stop is left alone.  If some line of the
    tail is a [bridge-stop] record in mode [watch] of a PID, and no later
    line is a [bridge-start] record in mode [watch] of that PID, the reaper
    does not signal the PID. *)
Theorem reaper_respects_stop `{R : Runtime} (ownPid : Z) (home : string)
    (project : option string) (debugLogPath debugLog : option string) (nowMs : Z)
    (before after : list string) (stopLine : string) (stop : json) (pid : Z)
    (pids : list Z) :
  split_lines (Reaper.readTailText debugLog Reaper.WATCH_CLEANUP_LOG_TAIL_BYTES)
  = before ++ stopLine :: after ->
  is_blank stopLine = false ->
  JSON_parse stopLine = Some stop ->
  num_strict_eq (Reaper.js_toNumber (get_prop stop "pid")) (num_of_Z pid) = true ->
  get_prop stop "kind" = Some (JStr "bridge-stop") ->
  get_prop stop "mode" = Some (JStr "watch") ->
  (forall line record,
      In line after -> JSON_parse line = Some record ->
      num_strict_eq (Reaper.js_toNumber (get_prop record "pid")) (num_of_Z pid) = true ->
      ~ (get_prop record "kind" = Some (JStr "bridge-start")
         /\ get_prop record "mode" = Some (JStr "watch"))) ->
  Reaper.cleanupCompetingWatchers ownPid home project debugLogPath debugLog nowMs = Ok pids ->
  ~ In pid pids.
Proof.
  intros Hlines Hnonblank Hparse Hpid Hkind Hmode Hquiet Hrun Hin.
  destruct (cleanup_ok ownPid home project debugLogPath debugLog nowMs pids Hrun)
    as [->|(entries & _ & _ & Hscan & ->)]; [destruct Hin|].
  destruct (scanLines_from_empty ownPid _ entries Hscan) as [Hnodup Hkeys].
  apply in_map_iff in Hin as ([k state] & Hk & Hin). cbn in Hk. subst k.
  apply filter_In in Hin as [Hin Hcand]. cbn [snd] in Hcand.
  apply (In_map_get entries pid state Hnodup) in Hin.
  destruct (Hkeys pid state Hin) as (Hpos & Hown & _).
  rewrite Hlines, scanLines_app in Hscan.
  destruct (Reaper.scanLines ownPid before []) as [entries0|e] eqn:Hbefore;
    [|discriminate Hscan].
  cbn [Reaper.scanLines] in Hscan.
  destruct (Reaper.scanLine ownPid stopLine entries0) as [entries1|e] eqn:Hstop;
    [|discriminate Hscan].
  assert (Hstopped : exists s, Reaper.map_get entries1 pid = Some s
                               /\ Reaper.isStopped s = true).
  { assert (Hrec : Reaper.recordPid ownPid stop = Some pid)
      by (apply recordPid_spec; repeat split; assumption).
    unfold Reaper.scanLine in Hstop. rewrite Hnonblank, Hparse in Hstop.
    destruct stop; try (cbn in Hkind; discriminate Hkind);
      (destruct (Reaper.toNumber_raises _); [discriminate Hstop|]);
      rewrite Hrec in Hstop; inversion Hstop; subst entries1;
      rewrite map_get_set_eq; eexists; (split; [reflexivity|]);
      unfold Reaper.updateState; rewrite Hkind, Hmode; reflexivity. }
  destruct (scanLines_stopped ownPid after entries1 entries pid Hquiet Hstopped Hscan)
    as (s & Hget & Hflag).
  rewrite Hin in Hget. inversion Hget; subst s.
  unfold Reaper.isCandidate in Hcand. rewrite Hflag in Hcand.
  rewrite andb_false_r in Hcand. cbn in Hcand. discriminate Hcand.
Qed.

Lemma reaper_respects_stop_witness :
  @Reaper.cleanupCompetingWatchers ref_runtime 7 Fixture.home None
    (Some "/home/u/.codex/log/plugin-bridge.log") (Some Reaper.debugLog) Reaper.now
  = Ok [4242]
  /\ ~ In 4300 [4242].
Proof.
  split; [vm_compute; reflexivity|].
  destruct (split_lines (Reaper.readTailText (Some Reaper.debugLog)
                           Reaper.WATCH_CLEANUP_LOG_TAIL_BYTES))
    as [|l1 [|l2 [|l3 [|l4 [|l5 [|l6 [|l7 rest]]]]]]] eqn:Hlines;
    try (vm_compute in Hlines; discriminate Hlines).
  destruct (@JSON_parse ref_runtime l4) as [stop|] eqn:Hstop;
    [|vm_compute in Hlines; inversion Hlines; subst;
      vm_compute in Hstop; discriminate Hstop].
  apply (@reaper_respects_stop ref_runtime 7 Fixture.home None
           (Some "/home/u/.codex/log/plugin-bridge.log") (Some Reaper.debugLog) Reaper.now
           [l1; l2; l3] (l5 :: l6 :: l7 :: rest) l4 stop 4300 [4242]).
  - exact Hlines.
  - vm_compute in Hlines. inversion Hlines; subst. reflexivity.
  - exact Hstop.
  - vm_compute in Hlines. inversion Hlines; subst.
    vm_compute in Hstop. inversion Hstop; subst. reflexivity.
  - vm_compute in Hlines. inversion Hlines; subst.
    vm_compute in Hstop. inversion Hstop; subst. reflexivity.
  - vm_compute in Hlines. inversion Hlines; subst.
    vm_compute in Hstop. inversion Hstop; subst. reflexivity.
  - vm_compute in Hlines. inversion Hlines; subst. clear Hlines Hstop.
    intros line record [<-|[<-|[<-|[]]]] Hparse Hpid;
      vm_compute in Hparse; inversion Hparse; subst;
      vm_compute in Hpid; discriminate Hpid.
  - vm_compute. reflexivity.
Defined.

(** * Further properties: the command line of the bridge *)

Section CliFacts.

Context `{R : Runtime}.
Variable path_resolve : string -> string.

Local Ltac flag_case :=
  solve [ cbn [Cli.watch Cli.emitStop Cli.quiet Cli.pollMs Cli.since orb andb negb
               String.eqb Ascii.eqb Bool.eqb];
          rewrite ?orb_true_r, ?orb_false_r, ?andb_true_r, ?andb_false_r;
          repeat split; auto ].

(** What one argument does to the options. *)
Lemma parseArg_effect (options : Cli.Options) (arg : string) :
  match Cli.parseArg path_resolve options arg with
  | Cli.UnknownArgument a => a = arg /\ Cli.known arg = false
  | Cli.Parsed options' =>
      Cli.known arg = true
      /\ Cli.watch options' = Cli.watch options || String.eqb arg "--watch"
      /\ Cli.emitStop options' = Cli.emitStop options || String.eqb arg "--emit-stop"
      /\ Cli.quiet options' = Cli.quiet options && negb (String.eqb arg "--verbose")
      /\ (Cli.pollMs options' = Cli.pollMs options
          \/ Number_isFinite (Cli.pollMs options') = true
             /\ Reaper.num_le (NFin 200) (Cli.pollMs options') = true)
      /\ (Cli.since options' = Cli.since options
          \/ exists raw, Cli.since options' = Some raw
                         /\ Number_isFinite raw = true /\ num_lt (NFin 0) raw = true)
  end.
Proof.
  unfold Cli.parseArg, Cli.known.
  destruct (String.eqb_spec arg "--watch") as [->|H1]; [flag_case|].
  destruct (String.eqb_spec arg "--emit-stop") as [->|H2]; [flag_case|].
  destruct (String.eqb_spec arg "--verbose") as [->|H3]; [flag_case|].
  destruct (String.eqb_spec arg "--debug-log") as [->|H4]; [flag_case|].
  destruct (String.eqb_spec arg "--no-debug-log") as [->|H5]; [flag_case|].
  destruct (String.prefix "--debug-log=" arg) eqn:H6; [flag_case|].
  destruct (String.prefix "--codex-home=" arg) eqn:H7; [flag_case|].
  destruct (String.prefix "--project-root=" arg) eqn:H8; [flag_case|].
  destruct (String.prefix "--since=" arg) eqn:H9.
  { cbv zeta.
    destruct (Number_isFinite (String_toNumber (Cli.slice_from 8 arg))
              && num_lt (NFin 0) (String_toNumber (Cli.slice_from 8 arg))) eqn:Hs;
      [|flag_case].
    apply andb_true_iff in Hs as [Hf Hp].
    cbn [Cli.watch Cli.emitStop Cli.quiet Cli.pollMs Cli.since orb andb negb].
    rewrite ?orb_false_r, ?andb_true_r.
    repeat (split; [auto; fail|]). right. eexists. repeat split; assumption. }
  destruct (String.prefix "--poll-ms=" arg) eqn:H10.
  { cbv zeta.
    destruct (Number_isFinite (String_toNumber (Cli.slice_from 10 arg))
              && Reaper.num_le (NFin 200) (String_toNumber (Cli.slice_from 10 arg))) eqn:Hs;
      [|flag_case].
    apply andb_true_iff in Hs as [Hf Hp].
    cbn [Cli.watch Cli.emitStop Cli.quiet Cli.pollMs Cli.since orb andb negb].
    rewrite ?orb_false_r, ?andb_true_r.
    repeat (split; [auto; fail|]). auto. }
  cbn. auto.
Qed.

End CliFacts.

Section CliLoop.

Context `{R : Runtime}.
Variable path_resolve : string -> string.

Lemma parseArgsFrom_spec (argv : list string) (options : Cli.Options) :
  match Cli.parseArgsFrom path_resolve options argv with
  | Cli.UnknownArgument arg =>
      exists before after,
        argv = before ++ arg :: after
        /\ forallb Cli.known before = true /\ Cli.known arg = false
  | Cli.Parsed options' =>
      forallb Cli.known argv = true
      /\ Cli.watch options'
         = Cli.watch options || existsb (fun arg => String.eqb arg "--watch") argv
      /\ Cli.emitStop options'
         = Cli.emitStop options || existsb (fun arg => String.eqb arg "--emit-stop") argv
      /\ Cli.quiet options'
         = Cli.quiet options && negb (existsb (fun arg => String.eqb arg "--verbose") argv)
      /\ (Cli.pollMs options' = Cli.pollMs options
          \/ Number_isFinite (Cli.pollMs options') = true
             /\ Reaper.num_le (NFin 200) (Cli.pollMs options') = true)
      /\ (Cli.since options' = Cli.since options
          \/ exists raw, Cli.since options' = Some raw
                         /\ Number_isFinite raw = true /\ num_lt (NFin 0) raw = true)
  end.
Proof.
  revert options. induction argv as [|arg argv IH]; intros options.
  - cbn [Cli.parseArgsFrom forallb existsb negb].
    rewrite !orb_false_r, andb_true_r. repeat (split; [reflexivity|]).
    split; left; reflexivity.
  - cbn [Cli.parseArgsFrom forallb existsb].
    pose proof (parseArg_effect path_resolve options arg) as Harg.
    destruct (Cli.parseArg path_resolve options arg) as [options1|a].
    + destruct Harg as (Hknown & Hw & He & Hq & Hp & Hs).
      specialize (IH options1).
      destruct (Cli.parseArgsFrom path_resolve options1 argv) as [options'|a].
      * destruct IH as (Hall & Hw' & He' & Hq' & Hp' & Hs').
        rewrite Hknown, Hall, Hw', He', Hq', Hw, He, Hq.
        rewrite negb_orb, !orb_assoc, andb_assoc.
        repeat (split; [reflexivity|]). split.
        -- destruct Hp' as [->|Hp']; [exact Hp|right; exact Hp'].
        -- destruct Hs' as [->|Hs']; [exact Hs|right; exact Hs'].
      * destruct IH as (before & after & -> & Hbefore & Hunknown).
        exists (arg :: before), after. cbn [app forallb].
        rewrite Hknown, Hbefore. repeat split; auto.
    + destruct Harg as [-> Hunknown]. exists [], argv. repeat split; auto.
Qed.

Lemma parseArgsFrom_app (before after : list string) (options : Cli.Options) :
  Cli.parseArgsFrom path_resolve options (before ++ after)
  = match Cli.parseArgsFrom path_resolve options before with
    | Cli.Parsed options' => Cli.parseArgsFrom path_resolve options' after
    | Cli.UnknownArgument arg => Cli.UnknownArgument arg
    end.
Proof.
  revert options. induction before as [|arg before IH]; intros options; [reflexivity|].
  cbn [app Cli.parseArgsFrom].
  destruct (Cli.parseArg path_resolve options arg); [apply IH|reflexivity].
Qed.

(** Arguments that are not debug-log flags leave the switch alone. *)
Lemma parseArgsFrom_debugLog (argv : list string) (options options' : Cli.Options) :
  Forall (fun arg => arg <> "--debug-log" /\ arg <> "--no-debug-log"
                     /\ String.prefix "--debug-log=" arg = false) argv ->
  Cli.parseArgsFrom path_resolve options argv = Cli.Parsed options' ->
  Cli.debugLog options' = Cli.debugLog options.
Proof.
  intros Hquiet. revert options.
  induction Hquiet as [|arg argv (Hon & Hoff & Hpath) _ IH]; intros options Hrun.
  - cbn in Hrun. inversion Hrun. reflexivity.
  - cbn [Cli.parseArgsFrom] in Hrun.
    destruct (Cli.parseArg path_resolve options arg) as [options1|a] eqn:Harg;
      [|discriminate Hrun].
    rewrite (IH options1 Hrun). clear IH Hrun.
    unfold Cli.parseArg in Harg. rewrite Hpath in Harg.
    destruct (String.eqb_spec arg "--debug-log"); [contradiction|].
    destruct (String.eqb_spec arg "--no-debug-log"); [contradiction|].
    cbv zeta in Harg.
    repeat match type of Harg with
           | (if ?b then _ else _) = _ => destruct b
           end;
      inversion Harg; reflexivity.
Qed.

End CliLoop.

(** What the command line can produce.  [parseArgs] raises exactly at the
    first argument that is none of the five flags and has none of the five
    prefixes, and names that argument.  Otherwise the poll interval of the
    options is finite and at least 200 ms (600 by default); the replay
    floor is absent or finite and positive, so [--since=0], [--since=abc]
    and the like are ignored without an error; and watch mode, the Stop
    event and verbose output are on exactly when their flag occurs. *)
Theorem parseArgs_spec `{R : Runtime} (path_resolve : string -> string)
    (argv : list string) :
  match Cli.parseArgs path_resolve argv with
  | Cli.UnknownArgument arg =>
      exists before after,
        argv = before ++ arg :: after
        /\ forallb Cli.known before = true /\ Cli.known arg = false
  | Cli.Parsed options =>
      forallb Cli.known argv = true
      /\ Number_isFinite (Cli.pollMs options) = true
      /\ Reaper.num_le (NFin 200) (Cli.pollMs options) = true
      /\ match Cli.since options with
         | Some floor => Number_isFinite floor = true /\ num_lt (NFin 0) floor = true
         | None => True
         end
      /\ Cli.watch options = existsb (fun arg => String.eqb arg "--watch") argv
      /\ Cli.emitStop options = existsb (fun arg => String.eqb arg "--emit-stop") argv
      /\ Cli.quiet options = negb (existsb (fun arg => String.eqb arg "--verbose") argv)
  end.
Proof.
  unfold Cli.parseArgs.
  pose proof (parseArgsFrom_spec path_resolve argv Cli.defaults) as Hspec.
  destruct (Cli.parseArgsFrom path_resolve Cli.defaults argv) as [options|arg];
    [|exact Hspec].
  destruct Hspec as (Hall & Hw & He & Hq & Hp & Hs).
  cbn in Hw, He, Hq. rewrite Hw, He, Hq.
  split; [exact Hall|].
  assert (Hpoll : Number_isFinite (Cli.pollMs options) = true
                  /\ Reaper.num_le (NFin 200) (Cli.pollMs options) = true).
  { destruct Hp as [->|Hp]; [|exact Hp]. split; reflexivity. }
  destruct Hpoll as [Hfinite Hfloor].
  split; [exact Hfinite|]. split; [exact Hfloor|]. split; [|repeat split; reflexivity].
  destruct Hs as [->|(raw & -> & Hr)]; [exact I|exact Hr].
Qed.

(** [--no-debug-log] turns the reaper off.  When the last debug-log flag
    of the command line is [--no-debug-log], [resolveDebugLogPath] returns
    [null], whatever the environment, and [cleanupCompetingWatchers] then
    returns at once: it sends no signal and cannot raise, whatever the
    debug log holds. *)
Theorem no_debug_log_disables_reaper `{R : Runtime} (path_resolve : string -> string)
    (path_join : string -> string -> string) (before after : list string)
    (options : Cli.Options) (envPath : option string) (home : string)
    (ownPid : Z) (project debugLog : option string) (nowMs : Z) :
  Forall (fun arg => arg <> "--debug-log" /\ arg <> "--no-debug-log"
                     /\ String.prefix "--debug-log=" arg = false) after ->
  Cli.parseArgs path_resolve (before ++ "--no-debug-log" :: after) = Cli.Parsed options ->
  Cli.debugLog options = false
  /\ Cli.resolveDebugLogPath path_resolve path_join options envPath home = None
  /\ Reaper.cleanupCompetingWatchers ownPid home project
       (Cli.resolveDebugLogPath path_resolve path_join options envPath home) debugLog nowMs
     = Ok [].
Proof.
  intros Hafter Hrun. unfold Cli.parseArgs in Hrun.
  rewrite parseArgsFrom_app in Hrun.
  destruct (Cli.parseArgsFrom path_resolve Cli.defaults before) as [options0|a];
    [|discriminate Hrun].
  cbn [Cli.parseArgsFrom] in Hrun.
  assert (Hoff : Cli.debugLog options = false).
  { unfold Cli.parseArg in Hrun. cbn [String.eqb Ascii.eqb Bool.eqb] in Hrun.
    rewrite (parseArgsFrom_debugLog path_resolve after _ options Hafter Hrun).
    reflexivity. }
  assert (Hnull : Cli.resolveDebugLogPath path_resolve path_join options envPath home = None)
    by (unfold Cli.resolveDebugLogPath; rewrite Hoff; reflexivity).
  split; [exact Hoff|]. split; [exact Hnull|]. rewrite Hnull. reflexivity.
Qed.

Lemma no_debug_log_disables_reaper_witness :
  @Reaper.cleanupCompetingWatchers ref_runtime 7 Fixture.home None
    (@Cli.resolveDebugLogPath Cli.resolve_absolute Cli.join_plain
       {| Cli.codexHome := None; Cli.projectRoot := None;
          Cli.since := Some (num_of_Z 1772272900); Cli.watch := true;
          Cli.pollMs := num_of_Z 600; Cli.emitStop := false; Cli.quiet := true;
          Cli.debugLog := false; Cli.debugLogPath := Some "/tmp/bridge.log" |}
       (Some "/tmp/env.log") Fixture.home)
    (Some Reaper.debugLog) Reaper.now
  = Ok [].
Proof.
  apply (@no_debug_log_disables_reaper ref_runtime Cli.resolve_absolute Cli.join_plain
           ["--debug-log=/tmp/bridge.log"; "--watch"]
           ["--since=1772272900"]).
  - repeat constructor; discriminate.
  - vm_compute. reflexivity.
Defined.

(** * Further properties: hook definitions written by the sync *)

Section SyncFacts.

Context `{R : Runtime}.

(** Every command the sync keeps is one the bridge runs. *)
Lemma hookCommand_shape (hook def : json) :
  In def (Sync.hookCommand hook) ->
  exists command timeout,
    def = JObj [("command", JStr command); ("timeout", JNum (NFin timeout))]
    /\ is_blank command = false
    /\ (0 < timeout)%Q.
Proof.
  unfold Sync.hookCommand.
  destruct (negb (truthy hook)); [intros []|].
  destruct (negb (Reaper.is_string (get_prop hook "type") "command")); [intros []|].
  destruct (get_prop hook "command") as [[| | |command| |]|]; try (intros []).
  destruct (is_blank command) eqn:Hblank; [intros []|].
  cbv zeta. intros [<-|[]].
  assert (Hten : (0 < 10)%Q) by reflexivity.
  destruct (get_prop hook "timeout") as [[| |n| | |]|];
    try (exists command, 10%Q; repeat split; assumption).
  destruct (Number_isFinite n && num_lt (NFin 0) n) eqn:Hn;
    [|exists command, 10%Q; repeat split; assumption].
  apply andb_true_iff in Hn as [Hfinite Hpos].
  destruct n as [q| |]; try discriminate Hfinite.
  exists command, q. split; [reflexivity|]. split; [exact Hblank|].
  cbn in Hpos. apply negb_true_iff in Hpos.
  apply Qnot_le_lt. intros Hle. apply Qle_bool_iff in Hle. congruence.
Qed.

Lemma commandCalls_synced (source : json) (eventName : string) (names : list string)
    (matcherText : string) (eventRecord : EventRecord) (projectRoot : option string)
    (command : string) (timeout : Q) :
  is_blank command = false ->
  map (fun call => JObj [("command", JStr (hc_command call));
                         ("timeout", JNum (hc_timeoutSec call))])
      (commandCalls source eventName names matcherText eventRecord projectRoot
         (JObj [("command", JStr command); ("timeout", JNum (NFin timeout))]))
  = [JObj [("command", JStr command); ("timeout", JNum (NFin timeout))]].
Proof.
  intros Hblank. unfold commandCalls.
  cbn [truthy negb get_prop assoc_get String.eqb Ascii.eqb Bool.eqb Number_isFinite].
  rewrite Hblank. reflexivity.
Qed.

Lemma ruleSpec_shape (eventName : string) (eventRule : json) (specs : list json) :
  Sync.ruleSpec eventName eventRule = Ok specs ->
  Forall (fun spec =>
            exists matcher commands,
              spec = JObj [("eventName", JStr eventName); ("matcher", matcher);
                           ("commands", JArr commands)]
              /\ commands <> []
              /\ (matcher = JNull
                  \/ exists m, matcher = JStr (trim m) /\ is_blank m = false)
              /\ Forall (fun def =>
                           exists command timeout,
                             def = JObj [("command", JStr command);
                                         ("timeout", JNum (NFin timeout))]
                             /\ is_blank command = false /\ (0 < timeout)%Q) commands)
         specs.
Proof.
  unfold Sync.ruleSpec.
  set (commands := flat_map Sync.hookCommand (array_or_empty (get_prop eventRule "hooks"))).
  assert (Hcommands : Forall (fun def =>
                                exists command timeout,
                                  def = JObj [("command", JStr command);
                                              ("timeout", JNum (NFin timeout))]
                                  /\ is_blank command = false /\ (0 < timeout)%Q) commands).
  { apply List.Forall_forall. intros def Hin. subst commands.
    apply in_flat_map in Hin as (hook & _ & Hin). exact (hookCommand_shape hook def Hin). }
  set (matcher := match get_prop eventRule "matcher" with
                  | Some (JStr m) => if is_blank m then JNull else JStr (trim m)
                  | _ => JNull
                  end).
  assert (Hmatcher : matcher = JNull
                     \/ exists m, matcher = JStr (trim m) /\ is_blank m = false).
  { subst matcher. destruct (get_prop eventRule "matcher") as [[| | |m| |]|]; auto.
    destruct (is_blank m) eqn:Hm; [auto|]. right. exists m. auto. }
  clearbody commands matcher.
  assert (Hresult : (if (List.length commands =? 0)%nat then Ok []
                     else Ok [JObj [("eventName", JStr eventName); ("matcher", matcher);
                                    ("commands", JArr commands)]]) = Ok specs ->
                    Forall (fun spec =>
                              exists matcher' commands',
                                spec = JObj [("eventName", JStr eventName);
                                             ("matcher", matcher');
                                             ("commands", JArr commands')]
                                /\ commands' <> []
                                /\ (matcher' = JNull
                                    \/ exists m, matcher' = JStr (trim m)
                                                 /\ is_blank m = false)
                                /\ Forall (fun def =>
                                             exists command timeout,
                                               def = JObj [("command", JStr command);
                                                           ("timeout", JNum (NFin timeout))]
                                               /\ is_blank command = false
                                               /\ (0 < timeout)%Q) commands')
                           specs).
  { destruct commands as [|def commands]; cbn [List.length Nat.eqb]; intros H;
      inversion H; subst specs; constructor; [|constructor].
    exists matcher, (def :: commands). repeat split; try assumption. discriminate. }
  destruct eventRule; [discriminate|exact Hresult..].
Qed.

Lemma ruleSpecs_raises (eventName : string) (eventRules : list json) :
  (exists e, Sync.ruleSpecs eventName eventRules = Throw e) <-> In JNull eventRules.
Proof.
  induction eventRules as [|eventRule rest IH].
  - cbn. split; [intros [e H]; discriminate H|intros []].
  - cbn [Sync.ruleSpecs In].
    destruct eventRule;
      try (cbn; split; [intros _; left; reflexivity|intros _; eexists; reflexivity]).
    all: unfold Sync.ruleSpec; cbv zeta;
      destruct (List.length _ =? 0)%nat;
      (destruct (Sync.ruleSpecs eventName rest) as [specs'|e];
       [split; [intros [e H]; discriminate H|
                intros [H|H]; [discriminate H|apply IH in H as [e H]; discriminate H]]
       |split; [intros _; right; apply IH; eexists; reflexivity|
                intros _; eexists; reflexivity]]).
Qed.

End SyncFacts.

Section SyncRules.

Context `{R : Runtime}.

(** The shape of a rule that [parseHookDefinitions] returns. *)
Local Abbreviation synced_rule spec :=
  (exists eventName matcher commands,
      spec = JObj [("eventName", JStr eventName); ("matcher", matcher);
                   ("commands", JArr commands)]
      /\ commands <> []
      /\ (matcher = JNull \/ exists m, matcher = JStr (trim m) /\ is_blank m = false)
      /\ Forall (fun def =>
                   exists command timeout,
                     def = JObj [("command", JStr command);
                                 ("timeout", JNum (NFin timeout))]
                     /\ is_blank command = false /\ (0 < timeout)%Q) commands).

Lemma ruleSpecs_shape (eventName : string) (eventRules specs : list json) :
  Sync.ruleSpecs eventName eventRules = Ok specs ->
  Forall (fun spec => synced_rule spec) specs.
Proof.
  revert specs. induction eventRules as [|eventRule rest IH]; intros specs Hrun.
  - cbn in Hrun. inversion Hrun. constructor.
  - cbn [Sync.ruleSpecs] in Hrun.
    destruct (Sync.ruleSpec eventName eventRule) as [first|e] eqn:Hfirst;
      [|discriminate Hrun].
    destruct (Sync.ruleSpecs eventName rest) as [others|e]; [|discriminate Hrun].
    inversion Hrun; subst specs. apply List.Forall_app. split; [|apply IH; reflexivity].
    apply ruleSpec_shape in Hfirst. eapply List.Forall_impl; [|exact Hfirst].
    intros spec (matcher & commands & Hrest). exists eventName, matcher, commands.
    exact Hrest.
Qed.

Lemma eventSpecs_shape (hookConfigPath : string) (entries : list (string * json))
    (specs : list json) (warnings : list Sync.warning) :
  Sync.eventSpecs hookConfigPath entries = Ok (specs, warnings) ->
  Forall (fun spec => synced_rule spec) specs.
Proof.
  revert specs warnings.
  induction entries as [|[eventName eventRules] rest IH]; intros specs warnings Hrun.
  - cbn in Hrun. inversion Hrun. constructor.
  - cbn [Sync.eventSpecs] in Hrun.
    assert (Hskip : match Sync.eventSpecs hookConfigPath rest with
                    | Ok (specs', warnings') =>
                        Ok (specs', Sync.EventNotArray hookConfigPath eventName :: warnings')
                    | Throw e => Throw e
                    end = Ok (specs, warnings) ->
                    Forall (fun spec => synced_rule spec) specs).
    { destruct (Sync.eventSpecs hookConfigPath rest) as [[specs' warnings']|e];
        [|discriminate].
      intros H. inversion H; subst. eapply IH. reflexivity. }
    destruct eventRules as [| | | |rules|]; try exact (Hskip Hrun).
    destruct (Sync.ruleSpecs eventName rules) as [first|e] eqn:Hfirst; [|discriminate Hrun].
    destruct (Sync.eventSpecs hookConfigPath rest) as [[specs' warnings']|e];
      [|discriminate Hrun].
    inversion Hrun; subst. apply List.Forall_app. split.
    + exact (ruleSpecs_shape eventName rules first Hfirst).
    + eapply IH. reflexivity.
Qed.

Lemma eventSpecs_raises (hookConfigPath : string) (entries : list (string * json)) :
  (exists e, Sync.eventSpecs hookConfigPath entries = Throw e)
  <-> exists eventName rules, In (eventName, JArr rules) entries /\ In JNull rules.
Proof.
  induction entries as [|[eventName eventRules] rest IH].
  - cbn. split; [intros [e H]; discriminate H|intros (? & ? & [] & _)].
  - cbn [Sync.eventSpecs].
    assert (Hrest : (exists e, match Sync.eventSpecs hookConfigPath rest with
                               | Ok (specs', warnings') =>
                                   Ok (specs',
                                       Sync.EventNotArray hookConfigPath eventName
                                       :: warnings')
                               | Throw e => Throw e
                               end = Throw e)
                    <-> exists e, Sync.eventSpecs hookConfigPath rest = Throw e).
    { destruct (Sync.eventSpecs hookConfigPath rest) as [[specs' warnings']|e].
      - split; intros [e H]; discriminate H.
      - split; intros _; eexists; reflexivity. }
    assert (Hother : (forall rules, eventRules <> JArr rules) ->
                     (exists name rules, In (name, JArr rules) ((eventName, eventRules) :: rest)
                                         /\ In JNull rules)
                     <-> exists name rules, In (name, JArr rules) rest /\ In JNull rules).
    { intros Hne. split; intros (name & rules & Hin & Hnull); exists name, rules.
      - destruct Hin as [Heq|Hin]; [inversion Heq; subst; exfalso; eapply Hne; eauto|].
        split; assumption.
      - split; [right; exact Hin|exact Hnull]. }
    destruct eventRules as [| | | |rules|];
      try (rewrite Hrest, IH, Hother by discriminate; reflexivity).
    destruct (Sync.ruleSpecs eventName rules) as [first|e] eqn:Hfirst.
    + assert (Hclean : ~ In JNull rules).
      { intros Hnull. apply (ruleSpecs_raises eventName) in Hnull as [e H]. congruence. }
      destruct (Sync.eventSpecs hookConfigPath rest) as [[specs' warnings']|e] eqn:Hothers.
      * split; [intros [e H]; discriminate H|].
        intros (name & rules' & [Heq|Hin] & Hnull).
        -- inversion Heq; subst. contradiction.
        -- assert (Hex : exists e, @Throw (list json * list Sync.warning) e = Throw e)
             by (exists (TypeError ""); reflexivity).
           destruct IH as [_ IH]. destruct IH as [e H]; [eauto|discriminate H].
      * split; [|intros _; eexists; reflexivity].
        intros _. destruct IH as [IH _].
        destruct IH as (name & rules' & Hin & Hnull); [eexists; reflexivity|].
        exists name, rules'. split; [right; exact Hin|exact Hnull].
    + split; [|intros _; eexists; reflexivity].
      intros _. exists eventName, rules. split; [left; reflexivity|].
      apply (ruleSpecs_raises eventName). eexists. exact Hfirst.
Qed.

End SyncRules.

(** What the sync writes, the bridge runs.  Every rule that
    [parseHookDefinitions] returns has an event name, a matcher that is
    [null] or a trimmed non-blank string, and at least one command; and for
    an event that carries the rule's event name and passes its matcher, the
    bridge's dispatcher makes exactly one hook call per command of the
    rule, in order, each with the command text and the timeout that the
    sync recorded (a positive number of seconds, 10 when the hook gave
    none). *)
Theorem synced_rules_run `{R : Runtime} (hookConfigPath : string) (file : option string)
    (specs : list json) (warnings : list Sync.warning) :
  Sync.parseHookDefinitions hookConfigPath file = Ok (specs, warnings) ->
  Forall (fun spec =>
            exists eventName matcher commands,
              spec = JObj [("eventName", JStr eventName); ("matcher", matcher);
                           ("commands", JArr commands)]
              /\ commands <> []
              /\ (matcher = JNull
                  \/ exists m, matcher = JStr (trim m) /\ is_blank m = false)
              /\ Forall (fun def =>
                           exists command timeout,
                             def = JObj [("command", JStr command);
                                         ("timeout", JNum (NFin timeout))]
                             /\ is_blank command = false /\ (0 < timeout)%Q) commands
              /\ forall source names matcherText eventRecord projectRoot,
                   In eventName names ->
                   matchesRule (Some matcher) matcherText = true ->
                   map (fun call => JObj [("command", JStr (hc_command call));
                                          ("timeout", JNum (hc_timeoutSec call))])
                       (ruleCalls source names matcherText eventRecord projectRoot spec)
                   = commands)
         specs.
Proof.
  intros Hrun.
  assert (Hshape : Forall (fun spec =>
                             exists eventName matcher commands,
                               spec = JObj [("eventName", JStr eventName);
                                            ("matcher", matcher);
                                            ("commands", JArr commands)]
                               /\ commands <> []
                               /\ (matcher = JNull
                                   \/ exists m, matcher = JStr (trim m)
                                                /\ is_blank m = false)
                               /\ Forall (fun def =>
                                            exists command timeout,
                                              def = JObj [("command", JStr command);
                                                          ("timeout", JNum (NFin timeout))]
                                              /\ is_blank command = false
                                              /\ (0 < timeout)%Q) commands) specs).
  { unfold Sync.parseHookDefinitions in Hrun.
    destruct (readJsonIfExists hookConfigPath file) as [hookConfig|e]; [|discriminate Hrun].
    destruct (negb (is_object (Some hookConfig)));
      [inversion Hrun; constructor|].
    destruct (get_prop hookConfig "hooks") as [[| | | | |entries]|];
      try (inversion Hrun; constructor).
    exact (eventSpecs_shape hookConfigPath entries specs warnings Hrun). }
  eapply List.Forall_impl; [|exact Hshape].
  intros spec (eventName & matcher & commands & -> & Hne & Hmatcher & Hcommands).
  exists eventName, matcher, commands.
  repeat (split; [assumption || reflexivity|]).
  intros source names matcherText eventRecord projectRoot Hname Hmatch.
  unfold ruleCalls.
  cbn [truthy negb get_prop assoc_get String.eqb Ascii.eqb Bool.eqb array_or_empty].
  assert (Hin : existsb (String.eqb eventName) names = true).
  { apply existsb_exists. exists eventName. split; [exact Hname|apply String.eqb_refl]. }
  rewrite Hin, Hmatch. cbn [negb].
  clear Hne. induction Hcommands as [|def commands (command & timeout & -> & Hblank & _) _ IH];
    [reflexivity|].
  cbn [flat_map]. rewrite map_app, IH.
  rewrite (commandCalls_synced source eventName names matcherText eventRecord projectRoot
             command timeout Hblank).
  reflexivity.
Qed.

Lemma synced_rules_run_witness :
  exists specs warnings,
    @Sync.parseHookDefinitions ref_runtime "/p/hooks.json" (Some Sync.hooksJson)
    = Ok (specs, warnings)
    /\ List.length specs = 2%nat
    /\ Forall (fun spec =>
                 exists eventName matcher commands,
                   spec = JObj [("eventName", JStr eventName); ("matcher", matcher);
                                ("commands", JArr commands)]
                   /\ commands <> []) specs.
Proof.
  destruct (@Sync.parseHookDefinitions ref_runtime "/p/hooks.json" (Some Sync.hooksJson))
    as [[specs warnings]|e] eqn:Hrun; [|vm_compute in Hrun; discriminate Hrun].
  exists specs, warnings. split; [reflexivity|].
  pose proof (@synced_rules_run ref_runtime "/p/hooks.json" (Some Sync.hooksJson)
                specs warnings Hrun) as Hall.
  split; [vm_compute in Hrun; inversion Hrun; subst; reflexivity|].
  eapply List.Forall_impl; [|exact Hall].
  intros spec (eventName & matcher & commands & Hspec & Hne & _).
  exists eventName, matcher, commands. split; assumption.
Defined.

(** When the sync raises on a hook configuration.  [parseHookDefinitions]
    raises exactly when the file is not blank and is not JSON, or the
    [hooks] object gives some event an array of rules that holds [null]:
    [eventRule.matcher] is read without a guard.  A missing or blank file,
    a configuration without a [hooks] object and an event whose value is
    not an array raise nothing. *)
Theorem parseHookDefinitions_raises_iff `{R : Runtime} (hookConfigPath : string)
    (file : option string) :
  (exists e, Sync.parseHookDefinitions hookConfigPath file = Throw e)
  <-> exists raw,
        file = Some raw /\ is_blank raw = false
        /\ match JSON_parse raw with
           | None => True
           | Some hookConfig =>
               exists entries eventName rules,
                 get_prop hookConfig "hooks" = Some (JObj entries)
                 /\ In (eventName, JArr rules) entries /\ In JNull rules
           end.
Proof.
  unfold Sync.parseHookDefinitions, readJsonIfExists.
  destruct file as [raw|];
    [|split; [intros [e H]; discriminate H|intros (raw & H & _); discriminate H]].
  destruct (is_blank raw) eqn:Hblank.
  { split; [intros [e H]; discriminate H|].
    intros (raw' & Heq & Hnb & _). inversion Heq; subst. congruence. }
  destruct (JSON_parse raw) as [hookConfig|] eqn:Hparse.
  - destruct (negb (is_object (Some hookConfig))) eqn:Hobj.
    + split; [intros [e H]; discriminate H|].
      intros (raw' & Heq & _ & Hrest). inversion Heq; subst raw'. rewrite Hparse in Hrest.
      destruct Hrest as (entries & eventName & rules & Hhooks & _).
      destruct hookConfig; cbn in Hhooks; try discriminate Hhooks.
      cbn in Hobj. discriminate Hobj.
    + destruct (get_prop hookConfig "hooks") as [hooks|] eqn:Hhooks.
      * assert (Hnot : (forall entries, hooks <> JObj entries) ->
                       (exists e, @Ok (list json * list Sync.warning)
                                    ([], [Sync.MissingHooksObject hookConfigPath])
                                  = Throw e)
                       <-> exists raw',
                             Some raw = Some raw' /\ is_blank raw' = false
                             /\ match JSON_parse raw' with
                                | None => True
                                | Some cfg =>
                                    exists entries eventName rules,
                                      get_prop cfg "hooks" = Some (JObj entries)
                                      /\ In (eventName, JArr rules) entries
                                      /\ In JNull rules
                                end).
        { intros Hne. split; [intros [e H]; discriminate H|].
          intros (raw' & Heq & _ & Hrest). inversion Heq; subst raw'.
          rewrite Hparse in Hrest. destruct Hrest as (entries & ? & ? & Hh & _).
          rewrite Hhooks in Hh. inversion Hh. exfalso. eapply Hne. eassumption. }
        destruct hooks as [| | | | |entries]; try (apply Hnot; discriminate).
        rewrite eventSpecs_raises. split.
        -- intros (eventName & rules & Hin & Hnull). exists raw.
           split; [reflexivity|]. split; [exact Hblank|]. rewrite Hparse.
           exists entries, eventName, rules. repeat split; assumption.
        -- intros (raw' & Heq & _ & Hrest). inversion Heq; subst raw'.
           rewrite Hparse in Hrest.
           destruct Hrest as (entries' & eventName & rules & Hh & Hin & Hnull).
           rewrite Hhooks in Hh. inversion Hh; subst entries'.
           exists eventName, rules. split; assumption.
      * split; [intros [e H]; discriminate H|].
        intros (raw' & Heq & _ & Hrest). inversion Heq; subst raw'.
        rewrite Hparse in Hrest. destruct Hrest as (? & ? & ? & Hh & _).
        rewrite Hhooks in Hh. discriminate Hh.
  - split; [|intros _; eexists; reflexivity].
    intros _. exists raw. split; [reflexivity|]. split; [exact Hblank|].
    rewrite Hparse. exact I.
Qed.

(** * Further properties: target names of the sync *)

Section SeparatorFacts.

Lemma replace_separators_clean (s : string) (c : ascii) :
  In c (list_ascii_of_string (Names.replace_separators s)) ->
  c <> Names.slash /\ c <> Names.backslash.
Proof.
  induction s as [|x s IH]; cbn [Names.replace_separators list_ascii_of_string In]; [tauto|].
  intros [<-|Hin]; [|exact (IH Hin)].
  destruct (Ascii.eqb_spec x Names.slash) as [->|Hs]; cbn [orb];
    [split; discriminate|].
  destruct (Ascii.eqb_spec x Names.backslash) as [->|Hb]; [split; discriminate|].
  split; assumption.
Qed.

End SeparatorFacts.

(** A sanitized segment holds no path separator of its own.  The result of
    [sanitizePathSegment] is either the fallback, when nothing is left of
    the value after the replacement and the trimming, or a non-empty text
    without [/] and [\], and without white space at either end. *)
Theorem sanitizePathSegment_spec `{R : Runtime} (value : option json) (fallback : string) :
  let segment := Names.sanitizePathSegment value fallback in
  segment = fallback
  \/ (segment <> ""
      /\ trim segment = segment
      /\ Forall (fun c => c <> Names.slash /\ c <> Names.backslash)
                (list_ascii_of_string segment)).
Proof.
  unfold Names.sanitizePathSegment. cbv zeta.
  set (text := match value with
               | Some v => if truthy v then js_toString v else ""
               | None => ""
               end).
  destruct (String.eqb_spec (trim (Names.replace_separators text)) "") as [Hempty|Hfull];
    [left; reflexivity|].
  right. split; [exact Hfull|]. split; [apply trim_idempotent|].
  apply List.Forall_forall. intros c Hin.
  apply trim_chars in Hin. exact (replace_separators_clean text c Hin).
Qed.

Section UniqueNameFacts.

Context `{R : Runtime}.

(** Indices up to [bound] print differently. *)
Local Abbreviation distinct_indices bound :=
  (forall i j : Z,
      2 <= i <= bound -> 2 <= j <= bound ->
      Number_toString (num_of_Z i) = Number_toString (num_of_Z j) -> i = j).

Lemma append_inv_head (a b c : string) : a +:+ b = a +:+ c -> b = c.
Proof.
  induction a as [|x a IH]; [tauto|].
  rewrite !append_cons. intros H. inversion H. auto.
Qed.

Lemma indexedName_inj (baseName : string) (bound i j : Z) :
  distinct_indices bound ->
  2 <= i <= bound -> 2 <= j <= bound ->
  Names.indexedName baseName i = Names.indexedName baseName j -> i = j.
Proof.
  intros Hinj Hi Hj Heq. unfold Names.indexedName in Heq.
  apply append_inv_head, append_inv_head in Heq. exact (Hinj i j Hi Hj Heq).
Qed.

Lemma firstFreeIndex_Some (fuel : nat) (baseName : string) (usedNames : gset string)
    (index found : Z) :
  Names.firstFreeIndex fuel baseName usedNames index = Some found ->
  index <= found < index + Z.of_nat fuel
  /\ (Names.indexedName baseName found ∉ usedNames)
  /\ forall j, index <= j < found -> Names.indexedName baseName j ∈ usedNames.
Proof.
  revert index. induction fuel as [|fuel IH]; intros index; cbn [Names.firstFreeIndex];
    [discriminate|].
  destruct (decide (Names.indexedName baseName index ∈ usedNames)) as [Hused|Hfree].
  - intros Hrest. destruct (IH _ Hrest) as (Hrange & Hfound & Hbelow).
    split; [lia|]. split; [exact Hfound|].
    intros j Hj. destruct (Z.eq_dec j index) as [->|Hne]; [exact Hused|].
    apply Hbelow. lia.
  - intros H. inversion H; subst found. split; [lia|]. split; [exact Hfree|].
    intros j Hj. lia.
Qed.

Lemma firstFreeIndex_None (fuel : nat) (baseName : string) (usedNames : gset string)
    (index : Z) :
  Names.firstFreeIndex fuel baseName usedNames index = None ->
  forall j, index <= j < index + Z.of_nat fuel ->
            Names.indexedName baseName j ∈ usedNames.
Proof.
  revert index. induction fuel as [|fuel IH]; intros index; cbn [Names.firstFreeIndex].
  - intros _ j Hj. lia.
  - destruct (decide (Names.indexedName baseName index ∈ usedNames)) as [Hused|Hfree];
      [|discriminate].
    intros Hrest j Hj. destruct (Z.eq_dec j index) as [->|Hne]; [exact Hused|].
    apply (IH _ Hrest). lia.
Qed.

(** More names than the set holds cannot all be in it. *)
Lemma indexed_names_overflow (baseName : string) (usedNames : gset string) :
  distinct_indices (Z.of_nat (size usedNames) + 2) ->
  ~ (forall j, 2 <= j < 2 + Z.of_nat (S (size usedNames)) ->
               Names.indexedName baseName j ∈ usedNames).
Proof.
  intros Hinj Hall.
  set (n := size usedNames) in *.
  set (names := map (fun k => Names.indexedName baseName (Z.of_nat k + 2)) (seq 0 (S n))).
  assert (Hnodup : NoDup names).
  { subst names. apply NoDup_fmap_2_strong; [|apply NoDup_seq].
    intros a b Ha Hb Heq. apply elem_of_seq in Ha, Hb.
    apply (indexedName_inj baseName (Z.of_nat n + 2)) in Heq; [lia|exact Hinj|lia|lia]. }
  assert (Hsub : list_to_set names ⊆ usedNames).
  { intros name Hin. apply elem_of_list_to_set in Hin. subst names.
    apply list_elem_of_fmap in Hin as (k & -> & Hk). apply elem_of_seq in Hk.
    apply Hall. lia. }
  apply subseteq_size in Hsub. rewrite size_list_to_set in Hsub by exact Hnodup.
  subst names. rewrite length_map, length_seq in Hsub. fold n in Hsub. lia.
Qed.

Lemma resolveUniqueName_returns (baseName : string) (usedNames : gset string) :
  distinct_indices (Z.of_nat (size usedNames) + 2) ->
  exists name,
    Names.resolveUniqueName baseName usedNames = Some (name, {[name]} ∪ usedNames)
    /\ (name ∉ usedNames)
    /\ (name = baseName /\ (baseName ∉ usedNames)
        \/ (baseName ∈ usedNames)
           /\ exists index,
                2 <= index <= Z.of_nat (size usedNames) + 2
                /\ name = Names.indexedName baseName index
                /\ forall j, 2 <= j < index -> Names.indexedName baseName j ∈ usedNames).
Proof.
  intros Hinj. unfold Names.resolveUniqueName.
  destruct (decide (baseName ∈ usedNames)) as [Hused|Hfree].
  - destruct (Names.firstFreeIndex (S (size usedNames)) baseName usedNames 2)
      as [index|] eqn:Hloop.
    + destruct (firstFreeIndex_Some _ _ _ _ _ Hloop) as (Hrange & Hfound & Hbelow).
      eexists. split; [reflexivity|]. split; [exact Hfound|]. right.
      split; [exact Hused|]. exists index. split; [lia|]. split; [reflexivity|exact Hbelow].
    + exfalso. apply (indexed_names_overflow baseName usedNames Hinj).
      exact (firstFreeIndex_None _ _ _ _ Hloop).
  - exists baseName. split; [reflexivity|]. split; [exact Hfree|]. left. split; [reflexivity|exact Hfree].
Qed.

End UniqueNameFacts.

Section SkillMappingFacts.

Context `{R : Runtime}.

Lemma skillMappings_spec (dirs : list (string * bool)) (usedTargets : gset string) :
  (forall i j : Z,
      2 <= i <= Z.of_nat (size usedTargets + List.length dirs) + 2 ->
      2 <= j <= Z.of_nat (size usedTargets + List.length dirs) + 2 ->
      Number_toString (num_of_Z i) = Number_toString (num_of_Z j) -> i = j) ->
  exists mappings skipped,
    Names.skillMappings dirs usedTargets = Some (mappings, skipped)
    /\ map fst mappings = map fst (List.filter snd dirs)
    /\ skipped = map fst (List.filter (fun d => negb (snd d)) dirs)
    /\ NoDup (map snd mappings)
    /\ forall target, In target (map snd mappings) -> target ∉ usedTargets.
Proof.
  revert usedTargets.
  induction dirs as [|[sourceName hasSkillFile] rest IH]; intros usedTargets Hinj.
  - exists [], []. cbn. repeat split; [constructor|intros ? []].
  - cbn [Names.skillMappings List.filter snd].
    destruct hasSkillFile; cbn [negb].
    + set (normalizedTarget :=
             Names.sanitizePathSegment (Some (JStr sourceName)) sourceName).
      destruct (resolveUniqueName_returns normalizedTarget usedTargets)
        as (name & -> & Hfresh & _).
      { intros i j Hi Hj. apply Hinj; cbn [List.length]; lia. }
      assert (Hsize : size ({[name]} ∪ usedTargets) = S (size usedTargets)).
      { rewrite size_union by set_solver. rewrite size_singleton. reflexivity. }
      destruct (IH ({[name]} ∪ usedTargets)) as (mappings & skipped & -> & Hsrc & Hskip
                                                  & Hnodup & Hnew).
      { rewrite Hsize. intros i j Hi Hj. apply Hinj; cbn [List.length]; lia. }
      exists ((sourceName, name) :: mappings), skipped.
      split; [reflexivity|]. cbn [map fst snd]. split; [rewrite Hsrc; reflexivity|].
      split; [exact Hskip|]. split.
      * constructor; [|exact Hnodup]. intros Hin. apply list_elem_of_In in Hin.
        apply (Hnew name Hin). set_solver.
      * intros target [<-|Hin]; [exact Hfresh|].
        intros Hused. apply (Hnew target Hin). set_solver.
    + destruct (IH usedTargets) as (mappings & skipped & -> & Hsrc & Hskip & Hnodup & Hnew).
      { intros i j Hi Hj. apply Hinj; cbn [List.length]; lia. }
      exists mappings, (sourceName :: skipped).
      split; [reflexivity|]. split; [exact Hsrc|]. cbn [map fst].
      split; [rewrite Hskip; reflexivity|]. split; [exact Hnodup|exact Hnew].
Qed.

End SkillMappingFacts.

(** A fresh name, and the least suffix.  Provided the indices that the
    loop can reach print differently, [resolveUniqueName] returns within
    as many rounds as there are used names plus one; the name it returns
    was not in use and is added to the set; it is the base name when that
    was free, and otherwise the base name with the least index from 2 on
    whose name was free. *)
Theorem resolveUniqueName_fresh `{R : Runtime} (baseName : string)
    (usedNames : gset string) :
  (forall i j : Z,
      2 <= i <= Z.of_nat (size usedNames) + 2 ->
      2 <= j <= Z.of_nat (size usedNames) + 2 ->
      Number_toString (num_of_Z i) = Number_toString (num_of_Z j) -> i = j) ->
  exists name,
    Names.resolveUniqueName baseName usedNames = Some (name, {[name]} ∪ usedNames)
    /\ (name ∉ usedNames)
    /\ (name = baseName /\ (baseName ∉ usedNames)
        \/ (baseName ∈ usedNames)
           /\ exists index,
                2 <= index <= Z.of_nat (size usedNames) + 2
                /\ name = Names.indexedName baseName index
                /\ forall j, 2 <= j < index -> Names.indexedName baseName j ∈ usedNames).
Proof. intros Hinj. exact (resolveUniqueName_returns baseName usedNames Hinj). Qed.

Lemma resolveUniqueName_fresh_witness :
  exists name,
    @Names.resolveUniqueName ref_runtime "skill" {["skill"; "skill-2"]}
    = Some (name, {[name]} ∪ {["skill"; "skill-2"]})
    /\ (name ∉ ({["skill"; "skill-2"]} : gset string)).
Proof.
  destruct (@resolveUniqueName_fresh ref_runtime "skill" {["skill"; "skill-2"]})
    as (name & Hrun & Hfresh & _).
  - assert (Hsize : size ({["skill"; "skill-2"]} : gset string) = 2%nat)
      by (vm_compute; reflexivity).
    rewrite Hsize. intros i j Hi Hj.
    assert (Hi' : i = 2 \/ i = 3 \/ i = 4) by lia.
    assert (Hj' : j = 2 \/ j = 3 \/ j = 4) by lia.
    destruct Hi' as [ -> | [ -> | -> ] ]; destruct Hj' as [ -> | [ -> | -> ] ];
      vm_compute; intros H; first [reflexivity|discriminate H].
  - exists name. split; [exact Hrun|exact Hfresh].
Defined.

(** No two skills share a target.  Provided the indices that can be
    reached print differently, [collectPluginSkillMappings] maps every
    directory that holds a [SKILL.md], in the order of the listing, skips
    the others with a warning, and gives pairwise different target names,
    so that no synced skill overwrites another. *)
Theorem skill_targets_distinct `{R : Runtime} (dirs : list (string * bool)) :
  (forall i j : Z,
      2 <= i <= Z.of_nat (List.length dirs) + 2 ->
      2 <= j <= Z.of_nat (List.length dirs) + 2 ->
      Number_toString (num_of_Z i) = Number_toString (num_of_Z j) -> i = j) ->
  exists mappings skipped,
    Names.collectPluginSkillMappings dirs = Some (mappings, skipped)
    /\ map fst mappings = map fst (List.filter snd dirs)
    /\ skipped = map fst (List.filter (fun d => negb (snd d)) dirs)
    /\ NoDup (map snd mappings).
Proof.
  intros Hinj. unfold Names.collectPluginSkillMappings.
  destruct (skillMappings_spec dirs ∅) as (mappings & skipped & Hrun & Hsrc & Hskip
                                           & Hnodup & _).
  - rewrite size_empty. exact Hinj.
  - exists mappings, skipped. repeat split; assumption.
Qed.

Lemma skill_targets_distinct_witness :
  exists mappings skipped,
    @Names.collectPluginSkillMappings ref_runtime
      [("a\b", true); ("a-b", true); ("notes", false); (" a-b", true)]
    = Some (mappings, skipped)
    /\ map fst mappings = ["a\b"; "a-b"; " a-b"]
    /\ NoDup (map snd mappings).
Proof.
  destruct (@skill_targets_distinct ref_runtime
              [("a\b", true); ("a-b", true); ("notes", false); (" a-b", true)])
    as (mappings & skipped & Hrun & Hsrc & _ & Hnodup).
  - cbn [List.length Z.of_nat]. intros i j Hi Hj.
    assert (Hi' : i = 2 \/ i = 3 \/ i = 4 \/ i = 5 \/ i = 6) by lia.
    assert (Hj' : j = 2 \/ j = 3 \/ j = 4 \/ j = 5 \/ j = 6) by lia.
    destruct Hi' as [ -> | [ -> | [ -> | [ -> | -> ] ] ] ];
      destruct Hj' as [ -> | [ -> | [ -> | [ -> | -> ] ] ] ];
      vm_compute; intros H; first [reflexivity|discriminate H].
  - exists mappings, skipped. split; [exact Hrun|]. split; [exact Hsrc|exact Hnodup].
Defined.

(** * Further properties: text search *)

Section SearchFacts.

Lemma index_ge (n m : nat) (s1 s2 : string) : index n s1 s2 = Some m -> (n <= m)%nat.
Proof.
  revert n m. induction s2 as [|c s2 IH]; intros n m; destruct n as [|n]; cbn [index].
  - intros _. lia.
  - discriminate.
  - intros _. lia.
  - destruct (index n s1 s2) as [k|] eqn:Hk; [|discriminate].
    intros H. inversion H; subst. apply IH in Hk. lia.
Qed.

(** The first occurrence from [n] on is what [index n] finds. *)
Lemma index_first (n m : nat) (s1 s2 : string) :
  s1 <> "" -> (n <= m)%nat ->
  substring m (String.length s1) s2 = s1 ->
  (forall p, (n <= p)%nat -> (p < m)%nat -> substring p (String.length s1) s2 <> s1) ->
  index n s1 s2 = Some m.
Proof.
  intros Hne Hnm Hat Hbefore.
  destruct (index n s1 s2) as [m'|] eqn:Hfound.
  - pose proof (index_ge _ _ _ _ Hfound) as Hge.
    pose proof (index_correct1 _ _ _ _ Hfound) as Hat'.
    pose proof (index_correct2 _ _ _ _ Hfound) as Hbefore'.
    destruct (Nat.lt_trichotomy m' m) as [Hlt|[->|Hgt]]; [|reflexivity|].
    + exfalso. exact (Hbefore m' Hge Hlt Hat').
    + exfalso. exact (Hbefore' m Hnm Hgt Hat).
  - exfalso. exact (index_correct3 _ _ _ _ Hfound Hne Hnm Hat).
Qed.

Lemma substring_append_left (n k : nat) (a b : string) :
  (n + k <= String.length a)%nat -> substring n k (a +:+ b) = substring n k a.
Proof.
  revert n k. induction a as [|c a IH]; intros n k Hlen.
  - cbn in Hlen. assert (n = 0%nat) by lia. assert (k = 0%nat) by lia. subst.
    cbn. destruct b; reflexivity.
  - rewrite append_cons. destruct n as [|n].
    + destruct k as [|k]; [reflexivity|]. cbn [substring]. f_equal.
      apply (IH 0%nat k). cbn in Hlen. lia.
    + cbn [substring]. apply IH. cbn in Hlen. lia.
Qed.

Lemma substring_append_right (n k : nat) (a b : string) :
  substring (String.length a + n) k (a +:+ b) = substring n k b.
Proof. induction a as [|c a IH]; [reflexivity|]. rewrite append_cons. cbn. exact IH. Qed.

Lemma substring_append_whole (a b : string) : substring 0 (String.length a) (a +:+ b) = a.
Proof.
  rewrite (substring_append_left 0 (String.length a) a b) by lia. apply substring_all.
Qed.

Lemma slice_from_append (a b : string) : Cli.slice_from (String.length a) (a +:+ b) = b.
Proof.
  unfold Cli.slice_from. rewrite length_append.
  replace (String.length a + String.length b - String.length a)%nat
    with (String.length b) by lia.
  rewrite <- (Nat.add_0_r (String.length a)) at 1.
  rewrite substring_append_right. apply substring_all.
Qed.

Lemma get_append_left (n : nat) (a b : string) :
  (n < String.length a)%nat -> get n (a +:+ b) = get n a.
Proof. intros H. symmetry. apply append_correct1. exact H. Qed.

Lemma get_append_right (n : nat) (a b : string) :
  get (String.length a + n) (a +:+ b) = get n b.
Proof. rewrite Nat.add_comm. symmetry. apply append_correct2. Qed.

(** A character of an occurrence is a character of the text. *)
Lemma occurrence_get (p i : nat) (s1 s2 : string) :
  substring p (String.length s1) s2 = s1 -> (i < String.length s1)%nat ->
  get (p + i) s2 = get i s1.
Proof.
  intros Hocc Hi.
  transitivity (get i (substring p (String.length s1) s2)); [|rewrite Hocc; reflexivity].
  rewrite Nat.add_comm. symmetry. apply substring_correct1. exact Hi.
Qed.

Lemma get_beyond (q : nat) (s : string) : (String.length s <= q)%nat -> get q s = None.
Proof.
  revert q. induction s as [|c s IH]; intros q Hq; [destruct q; reflexivity|].
  destruct q as [|q]; [cbn in Hq; lia|]. cbn. apply IH. cbn in Hq. lia.
Qed.

Lemma get_within (q : nat) (s : string) : (q < String.length s)%nat -> get q s <> None.
Proof.
  revert q. induction s as [|c s IH]; intros q Hq; [cbn in Hq; lia|].
  destruct q as [|q]; [discriminate|]. cbn. apply IH. cbn in Hq. lia.
Qed.

Lemma occurrence_fits (p : nat) (s1 s2 : string) :
  s1 <> "" -> substring p (String.length s1) s2 = s1 ->
  (p + String.length s1 <= String.length s2)%nat.
Proof.
  intros Hne Hocc.
  destruct (Nat.le_gt_cases (p + String.length s1) (String.length s2)) as [Hle|Hgt];
    [exact Hle|exfalso].
  assert (Hlast : (String.length s1 - 1 < String.length s1)%nat)
    by (destruct s1; [contradiction|cbn; lia]).
  pose proof (occurrence_get p _ s1 s2 Hocc Hlast) as Hget.
  rewrite get_beyond in Hget by lia.
  symmetry in Hget. exact (get_within _ _ Hlast Hget).
Qed.

End SearchFacts.

(** The name of a plugin key.  For a key [name@marketplace] with a
    non-empty name that holds no [@], [getPluginKeyName] returns the
    name; a key that starts with [@] or holds none is returned whole;
    anything that is not a string gives the empty string. *)
Theorem getPluginKeyName_spec `{R : Runtime} :
  (forall name rest,
      name <> "" -> index 0 "@" name = None ->
      Names.getPluginKeyName (Some (JStr (name +:+ "@" +:+ rest))) = name)
  /\ (forall rest, Names.getPluginKeyName (Some (JStr ("@" +:+ rest))) = "@" +:+ rest)
  /\ (forall key, index 0 "@" key = None -> Names.getPluginKeyName (Some (JStr key)) = key)
  /\ (forall pluginKey,
         (forall key, pluginKey <> Some (JStr key)) ->
         Names.getPluginKeyName pluginKey = "").
Proof.
  split; [|split; [|split]].
  - intros name rest Hname Hnone. unfold Names.getPluginKeyName.
    assert (Hat : index 0 "@" (name +:+ "@" +:+ rest) = Some (String.length name)).
    { apply index_first; [discriminate|lia| |].
      - rewrite <- (Nat.add_0_r (String.length name)).
        rewrite substring_append_right, append_cons.
        cbn [String.length substring]. rewrite substring_nothing. reflexivity.
      - intros p _ Hp. rewrite substring_append_left by (cbn; lia).
        apply (index_correct3 0 p "@" name Hnone); [discriminate|lia]. }
    rewrite Hat.
    destruct name as [|c name]; [contradiction|]. cbn [String.length Nat.ltb Nat.leb].
    apply (substring_append_whole (String c name)).
  - intros rest. unfold Names.getPluginKeyName. rewrite append_cons.
    assert (Hat : index 0 "@" (String "@" ("" +:+ rest)) = Some 0%nat).
    { apply index_first; [discriminate|lia| |intros p _ Hp; lia].
      cbn [String.length substring]. rewrite substring_nothing. reflexivity. }
    rewrite Hat. reflexivity.
  - intros key Hnone. unfold Names.getPluginKeyName. rewrite Hnone. reflexivity.
  - intros pluginKey Hnot. unfold Names.getPluginKeyName.
    destruct pluginKey as [[| | |key| |]|]; try reflexivity.
    exfalso. exact (Hnot key eq_refl).
Qed.

(** * Further properties: the installer of the zsh hook *)

Section WhitespaceFacts.

Lemma no_newline_get (s : string) (i : nat) :
  has_newline s = false -> get i s <> Some newline.
Proof.
  unfold has_newline. revert i. induction s as [|c s IH]; intros i; [destruct i; discriminate|].
  cbn [list_ascii_of_string existsb]. intros H. apply orb_false_iff in H as [Hc Hs].
  destruct i as [|i]; cbn [get]; [|exact (IH i Hs)].
  intros Heq. inversion Heq; subst c. rewrite Ascii.eqb_refl in Hc. discriminate Hc.
Qed.

End WhitespaceFacts.

Section FramedBlock.

Variables block startMarker endMarker : string.

Hypothesis startMarker_one_line : has_newline startMarker = false.
Hypothesis startMarker_first : index 0 startMarker block = Some 0%nat.
Hypothesis endMarker_last :
  index 0 endMarker block = Some (String.length block - String.length endMarker)%nat.
Hypothesis startMarker_nonempty : startMarker <> "".
Hypothesis endMarker_nonempty : endMarker <> "".

(** The text that [install] writes around the parts it keeps. *)
Local Abbreviation framed before after :=
  (join Installer.blankLine (Installer.nonEmpty [before; block; after]) +:+ Installer.nl).

Local Abbreviation lead before :=
  (if String.eqb before "" then "" else before +:+ Installer.blankLine).

Local Abbreviation trail after :=
  (if String.eqb after "" then Installer.nl
   else Installer.blankLine +:+ after +:+ Installer.nl).

Lemma block_nonempty : block <> "".
Proof.
  intros ->. pose proof (index_correct1 _ _ _ _ startMarker_first) as H.
  destruct startMarker; [contradiction|]. cbn in H. discriminate H.
Qed.

Lemma endMarker_fits : (String.length endMarker <= String.length block)%nat.
Proof.
  pose proof (index_correct1 _ _ _ _ endMarker_last) as Hocc.
  apply occurrence_fits in Hocc; [lia|exact endMarker_nonempty].
Qed.

Lemma startMarker_fits : (String.length startMarker <= String.length block)%nat.
Proof.
  pose proof (index_correct1 _ _ _ _ startMarker_first) as Hocc.
  apply occurrence_fits in Hocc; [lia|exact startMarker_nonempty].
Qed.

Lemma framed_form (before after : string) :
  framed before after = lead before +:+ block +:+ trail after.
Proof.
  unfold Installer.nonEmpty. cbn [List.filter].
  destruct (String.eqb_spec block "") as [Hb|_]; [exfalso; exact (block_nonempty Hb)|].
  destruct (String.eqb_spec before "") as [->|Hbefore];
    destruct (String.eqb_spec after "") as [->|Hafter]; cbn [negb join];
    rewrite ?append_assoc; reflexivity.
Qed.

Lemma lead_no_start (before rest : string) (p : nat) :
  (forall q, substring q (String.length startMarker) before <> startMarker) ->
  (p < String.length (lead before))%nat ->
  substring p (String.length startMarker) (lead before +:+ rest) <> startMarker.
Proof.
  intros Hclean Hp Hocc.
  destruct (String.eqb_spec before "") as [->|Hbefore]; [cbn in Hp; lia|].
  rewrite length_append in Hp. cbn [Installer.blankLine String.length] in Hp.
  rewrite append_assoc in Hocc.
  destruct (Nat.le_gt_cases (p + String.length startMarker) (String.length before))
    as [Hinside|Hcross].
  - rewrite substring_append_left in Hocc by exact Hinside. exact (Hclean p Hocc).
  - assert (Hlen : (0 < String.length startMarker)%nat)
      by (destruct startMarker; [contradiction|cbn; lia]).
    set (i := (Nat.max p (String.length before) - p)%nat).
    assert (Hi : (i < String.length startMarker)%nat) by (subst i; lia).
    pose proof (occurrence_get p i _ _ Hocc Hi) as Hget.
    assert (Hq : (p + i = String.length before + 0 \/ p + i = String.length before + 1)%nat)
      by (subst i; lia).
    assert (Hnl : get (p + i) (before +:+ Installer.blankLine +:+ rest) = Some newline).
    { destruct Hq as [->| ->]; rewrite get_append_right; reflexivity. }
    rewrite Hnl in Hget. symmetry in Hget.
    exact (no_newline_get startMarker i startMarker_one_line Hget).
Qed.

Lemma find_in_framed (before after : string) :
  (forall q, substring q (String.length startMarker) before <> startMarker) ->
  Installer.findManagedBlock (framed before after) startMarker endMarker
  = Some (String.length (lead before),
          S (String.length (lead before) + String.length block)).
Proof.
  intros Hclean. rewrite framed_form.
  set (L := lead before). set (T := trail after).
  pose proof startMarker_fits as Hsm. pose proof endMarker_fits as Hem.
  assert (Hstart : index 0 startMarker (L +:+ block +:+ T) = Some (String.length L)).
  { apply index_first; [exact startMarker_nonempty|lia| |].
    - rewrite <- (Nat.add_0_r (String.length L)).
      rewrite substring_append_right, substring_append_left by lia.
      exact (index_correct1 _ _ _ _ startMarker_first).
    - intros p _ Hp. subst L. apply lead_no_start; assumption. }
  assert (Hend : index (String.length L) endMarker (L +:+ block +:+ T)
                 = Some (String.length L
                         + (String.length block - String.length endMarker))%nat).
  { apply index_first; [exact endMarker_nonempty|lia| |].
    - rewrite substring_append_right, substring_append_left by lia.
      exact (index_correct1 _ _ _ _ endMarker_last).
    - intros p Hge Hlt.
      replace p with (String.length L + (p - String.length L))%nat by lia.
      rewrite substring_append_right, substring_append_left by lia.
      apply (index_correct2 _ _ _ _ endMarker_last); lia. }
  unfold Installer.findManagedBlock. rewrite Hstart, Hend. cbv zeta.
  replace (String.length L + (String.length block - String.length endMarker)
           + String.length endMarker)%nat
    with (String.length L + String.length block)%nat by lia.
  assert (Hnl : get (String.length L + String.length block) (L +:+ block +:+ T)
                = Some newline).
  { rewrite get_append_right. rewrite <- (Nat.add_0_r (String.length block)).
    rewrite get_append_right. subst T.
    destruct (String.eqb after ""); reflexivity. }
  rewrite Hnl, Ascii.eqb_refl. reflexivity.
Qed.

Lemma parts_of_framed (before after : string) :
  rtrim before = before -> ltrim after = after ->
  rtrim (substring 0 (String.length (lead before)) (framed before after)) = before
  /\ ltrim (Cli.slice_from (S (String.length (lead before) + String.length block))
              (framed before after))
     = (if String.eqb after "" then "" else after +:+ Installer.nl).
Proof.
  intros Hbefore Hafter. rewrite framed_form. split.
  - rewrite substring_append_whole.
    destruct (String.eqb_spec before "") as [->|_]; [reflexivity|].
    rewrite rtrim_append_ws by reflexivity. exact Hbefore.
  - assert (Hsplit : lead before +:+ block +:+ trail after
                     = (lead before +:+ block +:+ Installer.nl)
                       +:+ (if String.eqb after "" then ""
                            else Installer.nl +:+ after +:+ Installer.nl)).
    { destruct (String.eqb after "").
      - rewrite append_empty_r. reflexivity.
      - rewrite !append_assoc. reflexivity. }
    rewrite Hsplit.
    replace (S (String.length (lead before) + String.length block))
      with (String.length (lead before +:+ block +:+ Installer.nl))
      by (rewrite !length_append; cbn [Installer.nl String.length]; lia).
    rewrite slice_from_append.
    destruct (String.eqb_spec after "") as [->|Hne]; [reflexivity|].
    change (Installer.nl +:+ after +:+ Installer.nl)
      with (String newline (after +:+ Installer.nl)).
    rewrite ltrim_ws1 by reflexivity.
    apply ltrim_append_fixed; [exact Hafter|exact Hne|].
    left. change (nat_of_ascii newline) with 10%nat. lia.
Qed.

(** Installing over a text that [install] wrote. *)
Lemma install_framed (before after : string) :
  rtrim before = before -> ltrim after = after ->
  (forall q, substring q (String.length startMarker) before <> startMarker) ->
  Installer.install block startMarker endMarker (framed before after)
  = framed before after +:+ (if String.eqb after "" then "" else Installer.nl).
Proof.
  intros Hbefore Hafter Hclean. unfold Installer.install.
  rewrite (find_in_framed before after Hclean).
  destruct (parts_of_framed before after Hbefore Hafter) as [-> ->].
  destruct (String.eqb_spec after "") as [->|Hne]; [rewrite append_empty_r; reflexivity|].
  rewrite !framed_form.
  destruct (String.eqb_spec (after +:+ Installer.nl) "") as [Hempty|_].
  { destruct after; [contradiction|discriminate Hempty]. }
  destruct (String.eqb_spec after "") as [|_]; [contradiction|].
  rewrite !append_assoc. reflexivity.
Qed.

(** Removing from a text that [install] wrote. *)
Lemma remove_framed (before after : string) :
  rtrim before = before -> ltrim after = after ->
  (forall q, substring q (String.length startMarker) before <> startMarker) ->
  Installer.remove startMarker endMarker (framed before after)
  = match Installer.nonEmpty
            [before; if String.eqb after "" then "" else after +:+ Installer.nl] with
    | [] => Some ""
    | parts => Some (join Installer.blankLine parts +:+ Installer.nl)
    end.
Proof.
  intros Hbefore Hafter Hclean. unfold Installer.remove.
  rewrite (find_in_framed before after Hclean).
  destruct (parts_of_framed before after Hbefore Hafter) as [-> ->]. reflexivity.
Qed.

(** What [install] writes is the block framed by two parts of the text. *)
Lemma install_is_framed (currentText : string) :
  index 0 startMarker currentText = None
  \/ Installer.findManagedBlock currentText startMarker endMarker <> None ->
  let after :=
    match Installer.findManagedBlock currentText startMarker endMarker with
    | Some (_, end_) => ltrim (Cli.slice_from end_ currentText)
    | None => ""
    end in
  exists before,
    Installer.install block startMarker endMarker currentText = framed before after
    /\ rtrim before = before /\ ltrim after = after
    /\ (forall q, substring q (String.length startMarker) before <> startMarker)
    /\ (index 0 startMarker currentText = None -> before = rtrim currentText).
Proof.
  intros Hpre after. unfold Installer.install. subst after.
  assert (Hprefix : forall text q,
             (forall p, substring p (String.length startMarker) text <> startMarker) ->
             substring q (String.length startMarker) (rtrim text) <> startMarker).
  { intros text q Hclean Hocc. destruct (rtrim_prefix text) as (w & Htext & _).
    pose proof (occurrence_fits _ _ _ startMarker_nonempty Hocc) as Hfit.
    apply (Hclean q). rewrite Htext. rewrite substring_append_left by exact Hfit.
    exact Hocc. }
  destruct (Installer.findManagedBlock currentText startMarker endMarker)
    as [[start end_]|] eqn:Hfind.
  - exists (rtrim (substring 0 start currentText)).
    split; [reflexivity|]. split; [apply rtrim_idempotent|].
    split; [apply ltrim_idempotent|]. split.
    + intros q. apply Hprefix. intros p Hocc.
      unfold Installer.findManagedBlock in Hfind.
      destruct (index 0 startMarker currentText) as [start'|] eqn:Hstart;
        [|discriminate Hfind].
      assert (start' = start).
      { destruct (index start' endMarker currentText); [|discriminate Hfind].
        cbv zeta in Hfind.
        destruct (get _ currentText) as [c|]; [destruct (Ascii.eqb c newline)|];
          inversion Hfind; reflexivity. }
      subst start'.
      pose proof (index_ge _ _ _ _ Hstart) as _.
      pose proof (occurrence_fits _ _ _ startMarker_nonempty Hocc) as Hfit.
      pose proof (occurrence_fits _ _ _ startMarker_nonempty
                    (index_correct1 _ _ _ _ Hstart)) as Hfit'.
      assert (Hlen : (String.length (substring 0 start currentText) <= start)%nat).
      { clear. revert currentText. induction start as [|n IH]; intros s;
          destruct s as [|c s]; cbn; try lia. specialize (IH s). lia. }
      assert (Hlen' : (0 < String.length startMarker)%nat)
        by (destruct startMarker; [contradiction|cbn; lia]).
      apply (index_correct2 _ _ _ _ Hstart p); [lia|lia|].
      rewrite <- (substring_split start currentText) by lia.
      rewrite substring_append_left by exact Hfit. exact Hocc.
    + intros Hnone. unfold Installer.findManagedBlock in Hfind.
      rewrite Hnone in Hfind. discriminate Hfind.
  - destruct Hpre as [Hnone|Hfound]; [|contradiction].
    assert (Hclean : forall p,
               substring p (String.length startMarker) currentText <> startMarker)
      by (intros p; apply (index_correct3 0 p _ _ Hnone startMarker_nonempty); lia).
    destruct (is_blank currentText) eqn:Hblank; cbn [negb].
    + exists "". split; [rewrite framed_form; reflexivity|]. split; [reflexivity|].
      split; [reflexivity|]. split.
      * intros q Hocc. apply (occurrence_fits _ _ _ startMarker_nonempty) in Hocc.
        destruct startMarker; [contradiction|cbn in Hocc; lia].
      * intros _. symmetry. apply rtrim_all_ws. apply is_blank_all_ws. exact Hblank.
    + exists (rtrim currentText). split.
      * rewrite framed_form.
        destruct (String.eqb_spec (rtrim currentText) "") as [Hempty|_];
          [exfalso; exact (rtrim_nonblank _ Hblank Hempty)|].
        cbn [String.eqb]. rewrite !append_assoc. reflexivity.
      * split; [apply rtrim_idempotent|]. split; [reflexivity|].
        split; [intros q; apply Hprefix; exact Hclean|reflexivity].
Qed.

Lemma block_in_framed (before after : string) :
  substring (String.length (lead before)) (S (String.length block)) (framed before after)
  = block +:+ Installer.nl.
Proof.
  rewrite framed_form.
  assert (Hsplit : lead before +:+ block +:+ trail after
                   = lead before
                     +:+ ((block +:+ Installer.nl)
                          +:+ (if String.eqb after "" then ""
                               else Installer.nl +:+ after +:+ Installer.nl))).
  { destruct (String.eqb after "").
    - rewrite append_empty_r. reflexivity.
    - rewrite !append_assoc. reflexivity. }
  rewrite Hsplit. rewrite <- (Nat.add_0_r (String.length (lead before))).
  rewrite substring_append_right.
  replace (S (String.length block)) with (String.length (block +:+ Installer.nl))
    by (rewrite length_append; cbn [Installer.nl String.length]; lia).
  apply substring_append_whole.
Qed.

End FramedBlock.

Section InstalledBlock.

Lemma startMarker_one_line : has_newline Installer.startMarker = false.
Proof. vm_compute. reflexivity. Qed.

Lemma startMarker_first : index 0 Installer.startMarker Installer.block = Some 0%nat.
Proof. vm_compute. reflexivity. Qed.

Lemma endMarker_last :
  index 0 Installer.endMarker Installer.block
  = Some (String.length Installer.block - String.length Installer.endMarker)%nat.
Proof. vm_compute. reflexivity. Qed.

Lemma startMarker_nonempty : Installer.startMarker <> "".
Proof. discriminate. Qed.

Lemma endMarker_nonempty : Installer.endMarker <> "".
Proof. discriminate. Qed.

End InstalledBlock.

(** Installing twice.  Take a [.zshrc] that holds no start marker, or one
    in which [findManagedBlock] finds a block.  After [install] the file
    holds the block, followed by a newline, where [findManagedBlock] finds
    it.  A second [install] writes the same text when nothing but white
    space followed the block, and otherwise the same text with one more
    newline at its end: the text after the block is trimmed on the left
    only, so every further run of the installer makes the file one newline
    longer. *)
Theorem install_twice (currentText : string) :
  index 0 Installer.startMarker currentText = None
  \/ Installer.findManagedBlock currentText Installer.startMarker Installer.endMarker
     <> None ->
  let install := Installer.install Installer.block Installer.startMarker Installer.endMarker in
  let after :=
    match Installer.findManagedBlock currentText Installer.startMarker
            Installer.endMarker with
    | Some (_, end_) => ltrim (Cli.slice_from end_ currentText)
    | None => ""
    end in
  install (install currentText)
  = install currentText +:+ (if String.eqb after "" then "" else Installer.nl)
  /\ exists start,
       Installer.findManagedBlock (install currentText) Installer.startMarker
         Installer.endMarker
       = Some (start, S (start + String.length Installer.block))
       /\ substring start (S (String.length Installer.block)) (install currentText)
          = Installer.block +:+ Installer.nl.
Proof.
  intros Hpre install after.
  destruct (install_is_framed Installer.block Installer.startMarker Installer.endMarker
              startMarker_one_line startMarker_first endMarker_last startMarker_nonempty
              currentText Hpre)
    as (before & Hform & Hbefore & Hafter & Hclean & _).
  fold after in Hform, Hafter. subst install. cbv beta. rewrite Hform. split.
  - apply (install_framed Installer.block Installer.startMarker Installer.endMarker
             startMarker_one_line startMarker_first endMarker_last
             startMarker_nonempty endMarker_nonempty before after Hbefore Hafter Hclean).
  - eexists. split.
    + apply (find_in_framed Installer.block Installer.startMarker Installer.endMarker
               startMarker_one_line startMarker_first endMarker_last
               startMarker_nonempty endMarker_nonempty before after Hclean).
    + apply (block_in_framed Installer.block Installer.startMarker Installer.endMarker
               startMarker_one_line startMarker_first endMarker_last startMarker_nonempty
               before after).
Qed.

Lemma install_twice_witness :
  let install := Installer.install Installer.block Installer.startMarker Installer.endMarker in
  let edited := install Installer.zshrc +:+ "alias gs=git" +:+ Installer.nl in
  install (install Installer.zshrc) = install Installer.zshrc
  /\ install (install edited) = install edited +:+ Installer.nl.
Proof.
  intros install edited. split.
  - destruct (install_twice Installer.zshrc) as [Htwice _]; [left; vm_compute; reflexivity|].
    cbv zeta in Htwice. subst install. cbv beta. rewrite Htwice.
    vm_compute. reflexivity.
  - assert (Hfind : Installer.findManagedBlock edited Installer.startMarker
                      Installer.endMarker = Some (41%nat, 1620%nat))
      by (vm_compute; reflexivity).
    assert (Hafter : String.eqb (ltrim (Cli.slice_from 1620 edited)) "" = false)
      by (vm_compute; reflexivity).
    destruct (install_twice edited) as [Htwice _]; [right; rewrite Hfind; discriminate|].
    cbv zeta in Htwice. rewrite Hfind, Hafter in Htwice.
    subst install. cbv beta. exact Htwice.
Defined.

(** Install, then remove.  On a [.zshrc] that holds no start marker,
    [remove] after [install] finds the block and writes the text back
    without the white space at its end and with one newline after it; a
    blank text comes back empty. *)
Theorem install_then_remove (currentText : string) :
  index 0 Installer.startMarker currentText = None ->
  Installer.remove Installer.startMarker Installer.endMarker
    (Installer.install Installer.block Installer.startMarker Installer.endMarker currentText)
  = Some (if is_blank currentText then "" else rtrim currentText +:+ Installer.nl).
Proof.
  intros Hnone.
  destruct (install_is_framed Installer.block Installer.startMarker Installer.endMarker
              startMarker_one_line startMarker_first endMarker_last startMarker_nonempty
              currentText (or_introl Hnone))
    as (before & Hform & Hbefore & Hafter & Hclean & Hwhole).
  assert (Hnot : Installer.findManagedBlock currentText Installer.startMarker
                   Installer.endMarker = None)
    by (unfold Installer.findManagedBlock; rewrite Hnone; reflexivity).
  rewrite Hnot in Hform, Hafter. rewrite Hform.
  rewrite (remove_framed Installer.block Installer.startMarker Installer.endMarker
             startMarker_one_line startMarker_first endMarker_last
             startMarker_nonempty endMarker_nonempty before "" Hbefore Hafter Hclean).
  specialize (Hwhole Hnone). subst before.
  unfold Installer.nonEmpty. cbn [List.filter String.eqb negb].
  destruct (is_blank currentText) eqn:Hblank.
  - rewrite (rtrim_all_ws currentText) by (apply is_blank_all_ws; exact Hblank).
    reflexivity.
  - destruct (String.eqb_spec (rtrim currentText) "") as [Hempty|_];
      [exfalso; exact (rtrim_nonblank _ Hblank Hempty)|].
    reflexivity.
Qed.

Lemma install_then_remove_witness :
  Installer.remove Installer.startMarker Installer.endMarker
    (Installer.install Installer.block Installer.startMarker Installer.endMarker
       Installer.zshrc)
  = Some ("export PATH=$HOME/bin:$PATH" +:+ Installer.nl +:+ "alias ll=ls" +:+ Installer.nl).
Proof.
  rewrite (install_then_remove Installer.zshrc) by (vm_compute; reflexivity).
  vm_compute. reflexivity.
Defined.
